(** * Forensic log analyser: the log-line parser and the correlation engine

    A shallow embedding of [forensic_parser.py]: the regular expression of
    [parse_logs_from_directory] with its backtracking semantics, the data
    frame handed to [custom_anomaly_detection], and the four correlation
    rules.  Text is modelled as [string] (the bytes of the decoded text);
    Python integers parsed from [\d+] are [N]; wall-clock values are [Z]
    (seconds).

    The character classes of the model, [Str.is_space] and [is_digit], are
    those of Python on ASCII text.  Beyond ASCII, [str.strip()] also removes
    the Unicode whitespace (U+0085, U+00A0, U+2028, ...) and [\d] also
    matches the Unicode decimal digits; the properties that describe a line
    by these classes are stated for ASCII text ([ascii_only]). *)

From Stdlib Require Import String Ascii List Bool Arith ZArith NArith Lia.
From Stdlib Require Import Permutation Sorted OrderedTypeEx.
Import ListNotations.

Local Open Scope string_scope.
Local Open Scope list_scope.

(** ** Exceptions and fallible results *)

Inductive exn : Type :=
| KeyError (column : string)
| OutOfBoundsDatetime
| OverflowError.

Inductive result (A : Type) : Type :=
| Ok (a : A)
| Raise (e : exn).

Arguments Ok {A} a.
Arguments Raise {A} e.

Definition bind {A B} (r : result A) (k : A -> result B) : result B :=
  match r with
  | Ok a => k a
  | Raise e => Raise e
  end.

Notation "x <- r ;; k" := (bind r (fun x => k))
  (at level 61, r at next level, right associativity).

(** ** Python string operations *)

Module Str.

Local Open Scope string_scope.

Fixpoint take (n : nat) (s : string) : string :=
  match n, s with
  | S n', String c t => String c (take n' t)
  | _, _ => EmptyString
  end.

Fixpoint drop (n : nat) (s : string) : string :=
  match n, s with
  | S n', String _ t => drop n' t
  | _, _ => s
  end.

(** [s.startswith(p)] *)
Fixpoint startswith (p s : string) : bool :=
  match p, s with
  | EmptyString, _ => true
  | String a p', String b s' => Ascii.eqb a b && startswith p' s'
  | String _ _, EmptyString => false
  end.

(** [sub in s] *)
Fixpoint contains (sub s : string) : bool :=
  if startswith sub s then true
  else match s with
       | EmptyString => false
       | String _ t => contains sub t
       end.

(** [s.endswith(suf)] *)
Fixpoint endswith (suf s : string) : bool :=
  if String.eqb s suf then true
  else match s with
       | EmptyString => false
       | String _ t => endswith suf t
       end.

(** [s.endswith((a, b, ...))] and [any(p in s for p in ps)] *)
Definition endswith_any (sufs : list string) (s : string) : bool :=
  existsb (fun suf => endswith suf s) sufs.

Definition contains_any (subs : list string) (s : string) : bool :=
  existsb (fun p => contains p s) subs.

(** Whitespace removed by [str.strip()], among the ASCII characters: tab,
    LF, VT, FF, CR, the four separators 0x1c-0x1f, and the space.  The
    Unicode whitespace beyond ASCII, which [str.strip()] removes as well, is
    not in the class. *)
Definition is_space (c : ascii) : bool :=
  let n := nat_of_ascii c in
  (((9 <=? n) && (n <=? 13)) || ((28 <=? n) && (n <=? 32)))%nat.

Fixpoint lstrip (s : string) : string :=
  match s with
  | String c t => if is_space c then lstrip t else s
  | EmptyString => EmptyString
  end.

Fixpoint rstrip (s : string) : string :=
  match s with
  | EmptyString => EmptyString
  | String c t =>
      match rstrip t with
      | EmptyString => if is_space c then EmptyString else String c EmptyString
      | t' => String c t'
      end
  end.

Definition strip (s : string) : string := rstrip (lstrip s).

End Str.

(** ** The backtracking matcher of [re.match]

    The pattern of the parser uses literals, greedy repetitions of a single
    character class and named groups that do not nest.  [exec] tries, for
    each repetition, the longest run first and gives back one character at
    a time, as Python's engine does; the first success wins. *)

Module Regex.

Inductive item : Type :=
| Lit (s : string)                             (* literal text *)
| Rep (lo : nat) (cls : ascii -> bool)         (* [cls]{lo,}, greedy *)
| Open (g : string)                            (* (?P<g> *)
| Close (g : string).                          (* ) *)

(** Text captured so far: groups still open, and groups already closed. *)
Record captures : Type := mkCaptures {
  opened : list (string * string);
  closed : list (string * string)
}.

Definition no_captures : captures := mkCaptures [] [].

Definition feed (t : string) (st : captures) : captures :=
  mkCaptures (map (fun gx => (fst gx, (snd gx ++ t)%string)) (opened st))
             (closed st).

(** Length of the longest prefix of [s] whose characters are all in [cls]. *)
Fixpoint span (cls : ascii -> bool) (s : string) : nat :=
  match s with
  | String c t => if cls c then S (span cls t) else 0
  | EmptyString => 0
  end.

(** Try [f k], [f (k-1)], ... down to [f lo]. *)
Fixpoint backtrack {A : Type} (k lo : nat) (f : nat -> option A) : option A :=
  if (k <? lo)%nat then None
  else match f k with
       | Some r => Some r
       | None => match k with
                 | O => None
                 | S k' => backtrack k' lo f
                 end
       end.

Fixpoint exec (p : list item) (st : captures) (s : string) : option captures :=
  match p with
  | [] => Some st
  | Lit l :: p' =>
      if Str.startswith l s
      then exec p' (feed l st) (Str.drop (String.length l) s)
      else None
  | Rep lo cls :: p' =>
      backtrack (span cls s) lo
        (fun k => exec p' (feed (Str.take k s) st) (Str.drop k s))
  | Open g :: p' =>
      exec p' (mkCaptures ((g, EmptyString) :: opened st) (closed st)) s
  | Close g :: p' =>
      match opened st with
      | (g', x) :: o =>
          if String.eqb g g'
          then exec p' (mkCaptures o ((g, x) :: closed st)) s
          else None
      | [] => None
      end
  end.

(** [m.groupdict()[g]] *)
Fixpoint group (g : string) (l : list (string * string)) : option string :=
  match l with
  | [] => None
  | (g', x) :: l' => if String.eqb g g' then Some x else group g l'
  end.

End Regex.

(** ** Log parsing *)

(** The classes [\d] and [0-9a-fA-F] on the characters of the model: of
    the digits [\d] matches in a [str] pattern, [is_digit] holds the ASCII
    ones, 0 to 9. *)
Definition is_digit (c : ascii) : bool :=
  let n := nat_of_ascii c in ((48 <=? n) && (n <=? 57))%nat.

Definition is_hex (c : ascii) : bool :=
  let n := nat_of_ascii c in
  (((48 <=? n) && (n <=? 57)) || ((97 <=? n) && (n <=? 102))
   || ((65 <=? n) && (n <=? 70)))%nat.

Definition is_not (x : ascii) (c : ascii) : bool := negb (Ascii.eqb c x).

Definition newline : ascii := ascii_of_nat 10.

(** The compiled pattern of [parse_logs_from_directory]:
    (?P<log_id>0x[0-9a-fA-F]+)\[ts:(?P<timestamp>\d+)\]\|EVNT:
    (?P<event_type>[^!]+)!@(?P<action>[^_]+)_(?P<actor_type>[^:]+):
    (?P<actor>[^=]+)=*>(?P<target>.+) *)
Definition pattern : list Regex.item :=
  [ Regex.Open "log_id"; Regex.Lit "0x"; Regex.Rep 1 is_hex; Regex.Close "log_id";
    Regex.Lit "[ts:";
    Regex.Open "timestamp"; Regex.Rep 1 is_digit; Regex.Close "timestamp";
    Regex.Lit "]|EVNT:";
    Regex.Open "event_type"; Regex.Rep 1 (is_not "!"); Regex.Close "event_type";
    Regex.Lit "!@";
    Regex.Open "action"; Regex.Rep 1 (is_not "_"); Regex.Close "action";
    Regex.Lit "_";
    Regex.Open "actor_type"; Regex.Rep 1 (is_not ":"); Regex.Close "actor_type";
    Regex.Lit ":";
    Regex.Open "actor"; Regex.Rep 1 (is_not "="); Regex.Close "actor";
    Regex.Rep 0 (Ascii.eqb "=");
    Regex.Lit ">";
    Regex.Open "target"; Regex.Rep 1 (is_not newline); Regex.Close "target" ].

(** [pattern.match(s)] followed by [groupdict()]. *)
Definition pattern_match (s : string) : option (list (string * string)) :=
  option_map Regex.closed (Regex.exec pattern Regex.no_captures s).

(** [int(text)] on a run of decimal digits. *)
Definition int (text : string) : N :=
  let fix go (acc : N) (s : string) : N :=
    match s with
    | EmptyString => acc
    | String c t => go (10 * acc + (N_of_ascii c - 48))%N t
    end
  in go 0%N text.

(** One entry of the frame: the dictionary built for a matching line. *)
Record Row : Type := mkRow {
  log_id : string;
  timestamp : N;
  event_type : string;
  action : string;
  actor_type : string;
  actor : string;
  target : string;
  file : string;
  datetime : Z
}.

Definition field (g : string) (d : list (string * string)) : string :=
  match Regex.group g d with
  | Some x => x
  | None => EmptyString
  end.

(** The table built by [pd.DataFrame(entries)].  A frame made from an empty
    list of records has no columns at all; a frame made from the parser's
    records has the nine columns of [Row]. *)
Inductive DataFrame : Type :=
| NoColumns
| Frame (rows : list Row).

Definition pd_DataFrame (entries : list Row) : DataFrame :=
  match entries with
  | [] => NoColumns
  | _ :: _ => Frame entries
  end.

Section Parser.

(** [datetime.fromtimestamp]: the local wall-clock reading of an epoch
    value, or the exception the platform raises for a value out of range. *)
Variable fromtimestamp : N -> result Z.

Definition entry (fname : string) (d : list (string * string)) : result Row :=
  let ts := int (field "timestamp" d) in
  dt <- fromtimestamp ts ;;
  Ok (mkRow (field "log_id" d) ts (field "event_type" d) (field "action" d)
            (field "actor_type" d) (field "actor" d) (field "target" d)
            fname dt).

(** The body of the loop over the lines of one file. *)
Definition parse_line (fname line : string) : option (result Row) :=
  option_map (entry fname) (pattern_match (Str.strip line)).

Fixpoint parse_lines (fname : string) (lines : list string)
                     (entries : list Row) : result (list Row) :=
  match lines with
  | [] => Ok entries
  | line :: rest =>
      match parse_line fname line with
      | Some r => e <- r ;; parse_lines fname rest (entries ++ [e])
      | None => parse_lines fname rest entries
      end
  end.

(** [listing] is the directory: file names in [os.listdir] order, each with
    its lines. *)
Fixpoint parse_files (listing : list (string * list string))
                     (entries : list Row) : result (list Row) :=
  match listing with
  | [] => Ok entries
  | (fname, lines) :: rest =>
      if Str.endswith ".vlog" fname
      then entries' <- parse_lines fname lines entries ;;
           parse_files rest entries'
      else parse_files rest entries
  end.

Definition parse_logs_from_directory
           (listing : list (string * list string)) : result DataFrame :=
  entries <- parse_files listing [] ;; Ok (pd_DataFrame entries).

End Parser.

(** ** Timestamps *)

(** [pd.to_datetime(ts, unit='s')] as pandas before 3.0 computes it:
    nanoseconds in a signed 64-bit integer, so the largest representable
    second is 9223372036 (2262-04-11).  The repository pins no version of
    pandas; a release that converts to a coarser unit accepts later
    seconds. *)
Definition to_datetime (ts : N) : result Z :=
  if (ts <=? 9223372036)%N then Ok (Z.of_N ts) else Raise OutOfBoundsDatetime.

Module Calendar.

Local Open Scope Z_scope.

Definition digit (n : Z) : ascii := ascii_of_nat (48 + Z.to_nat (n mod 10)).

Definition pad2 (n : Z) : string :=
  String (digit (n / 10)) (String (digit n) EmptyString).

Definition pad4 (n : Z) : string :=
  String (digit (n / 1000)) (String (digit (n / 100)) (pad2 n)).

(** Year, month and day of the proleptic Gregorian calendar for a day count
    from 1970-01-01. *)
Definition civil (days : Z) : Z * Z * Z :=
  let z := days + 719468 in
  let era := z / 146097 in
  let doe := z - era * 146097 in
  let yoe := (doe - doe / 1460 + doe / 36524 - doe / 146096) / 365 in
  let y := yoe + era * 400 in
  let doy := doe - (365 * yoe + yoe / 4 - yoe / 100) in
  let mp := (5 * doy + 2) / 153 in
  let d := doy - (153 * mp + 2) / 5 + 1 in
  let m := if mp <? 10 then mp + 3 else mp - 9 in
  (if m <=? 2 then y + 1 else y, m, d).

(** [t.strftime("%Y-%m-%d %H:%M:%S")] *)
Definition strftime (t : Z) : string :=
  let '(y, m, d) := civil (t / 86400) in
  let s := t mod 86400 in
  (pad4 y ++ "-" ++ pad2 m ++ "-" ++ pad2 d ++ " "
   ++ pad2 (s / 3600) ++ ":" ++ pad2 (s mod 3600 / 60) ++ ":" ++ pad2 (s mod 60))%string.

End Calendar.

(** ** The correlation engine *)

(** [suspicious_binaries] *)
Definition suspicious_binaries : list string :=
  ["/bin/xz"; "/bin/nc"; "/usr/bin/python3"; "/usr/bin/perl"].

Definition suspicious_extensions : list string := [".exe"; ".bin"; ".out"; ".so"].

Definition sensitive_paths : list string :=
  ["/bin/"; "/tmp/"; "/sbin/"; "/usr/local/bin/"].

(** One dictionary appended to [anomalies]; the key [timestamp] of the
    dictionary is the field [at_time]. *)
Record Anomaly : Type := mkAnomaly {
  at_time : string;
  user : string;
  reason : string;
  details : string;
  ip_address : string;
  action_type : string;
  severity : string;
  log_source : string
}.

Definition log_text (row : Row) : string :=
  (event_type row ++ "!@" ++ action row ++ "_" ++ actor_type row ++ ":"
   ++ actor row ++ "=>" ++ target row)%string.

(** The arrow of the [details] string is U+2192. *)
Definition arrow : string := " → ".

Definition anomaly_rule1 (u : string) (row rj : Row) : Anomaly :=
  mkAnomaly (Calendar.strftime (datetime rj)) u
            "Shadow load followed by process delete"
            (log_text row ++ arrow ++ target rj)%string
            "N/A" "Delete" "High" (file rj).

Definition anomaly_rule2 (u : string) (row rj : Row) : Anomaly :=
  mkAnomaly (Calendar.strftime (datetime rj)) u
            "Created then deleted same file"
            (log_text row ++ arrow ++ target rj)%string
            "N/A" "Delete" "Medium" (file rj).

Definition anomaly_rule3 (u : string) (row : Row) : Anomaly :=
  mkAnomaly (Calendar.strftime (datetime row)) u
            "Suspicious binary executed"
            (log_text row) "N/A" "Execute" "High" (file row).

Definition anomaly_rule4 (u : string) (row : Row) : Anomaly :=
  mkAnomaly (Calendar.strftime (datetime row)) u
            "Deleted binary/suspicious executable file"
            (log_text row) "N/A" "Delete" "High" (file row).

(** [range(i+1, min(i+6, len(logs)))] *)
Definition window (i : nat) (logs : list Row) : list nat :=
  seq (i + 1) (Nat.min (i + 6) (length logs) - (i + 1)).

(** [(b - a).total_seconds() <= 600] on whole seconds. *)
Definition within_600 (a b : Z) : bool := (b - a <=? 600)%Z.

Definition deletes_suspicious (path : string) : bool :=
  Str.endswith_any suspicious_extensions path
  || Str.contains_any sensitive_paths path.

Definition rule1 (u : string) (logs : list Row) (i : nat) (row : Row) : list Anomaly :=
  if Str.contains "SHD" (action row) then
    flat_map (fun j =>
      match nth_error logs j with
      | Some rj =>
          if Str.contains "DEL" (action rj) then
            if within_600 (datetime row) (datetime rj)
            then [anomaly_rule1 u row rj] else []
          else []
      | None => []
      end) (window i logs)
  else [].

Definition rule2 (u : string) (logs : list Row) (i : nat) (row : Row) : list Anomaly :=
  if Str.contains "CRE" (action row) then
    flat_map (fun j =>
      match nth_error logs j with
      | Some rj =>
          if Str.contains "DEL" (action rj) && Str.contains (target row) (target rj)
          then [anomaly_rule2 u row rj] else []
      | None => []
      end) (window i logs)
  else [].

Definition rule3 (u : string) (row : Row) : list Anomaly :=
  if Str.contains "RUN" (action row) then
    if Str.contains_any suspicious_binaries (target row)
    then [anomaly_rule3 u row] else []
  else [].

Definition rule4 (u : string) (row : Row) : list Anomaly :=
  if Str.contains "DEL" (action row) then
    if deletes_suspicious (target row)
    then [anomaly_rule4 u row] else []
  else [].

(** The body of [for i, row in logs.iterrows()]. *)
Definition detect_row (u : string) (logs : list Row) (i : nat) (row : Row) : list Anomaly :=
  rule1 u logs i row ++ rule2 u logs i row ++ rule3 u row ++ rule4 u row.

(** The body of [for user, logs in grouped], after the group has been
    sorted and re-indexed from 0. *)
Definition detect_actor (u : string) (logs : list Row) : list Anomaly :=
  flat_map (fun i =>
    match nth_error logs i with
    | Some row => detect_row u logs i row
    | None => []
    end) (seq 0 (length logs)).

(** *** Sorting and grouping of the frame *)

Definition by_datetime (a b : Row) : Prop := (datetime a <= datetime b)%Z.

(** [sort_values(by='datetime')] with the default [kind]: the rows come
    back rearranged in ascending order of the key.  The default algorithm
    does not promise to keep rows with equal keys in their previous order,
    so the interface states the rearrangement and the ordering only. *)
Class SortValues : Type := {
  sort_values : list Row -> list Row;
  sort_values_perm : forall l, Permutation l (sort_values l);
  sort_values_sorted : forall l, StronglySorted by_datetime (sort_values l)
}.

(** Keys of [groupby('actor')]: distinct, in ascending order. *)
Fixpoint insert_key (k : string) (ks : list string) : list string :=
  match ks with
  | [] => [k]
  | h :: t =>
      match String.compare k h with
      | Lt => k :: ks
      | Eq => ks
      | Gt => h :: insert_key k t
      end
  end.

Definition group_keys (rows : list Row) : list string :=
  fold_right insert_key [] (map actor rows).

Definition group_rows (u : string) (rows : list Row) : list Row :=
  filter (fun r => String.eqb (actor r) u) rows.

(** [df.groupby('actor')], iterated: each key with its rows, the rows in the
    order they have in the frame. *)
Definition groupby (rows : list Row) : list (string * list Row) :=
  map (fun u => (u, group_rows u rows)) (group_keys rows).

Definition set_datetime (r : Row) (dt : Z) : Row :=
  mkRow (log_id r) (timestamp r) (event_type r) (action r) (actor_type r)
        (actor r) (target r) (file r) dt.

(** [df['datetime'] = pd.to_datetime(df['timestamp'], unit='s')]: the whole
    column is converted before any row is assigned. *)
Fixpoint assign_datetime (rows : list Row) : result (list Row) :=
  match rows with
  | [] => Ok []
  | r :: rest =>
      dt <- to_datetime (timestamp r) ;;
      rest' <- assign_datetime rest ;;
      Ok (set_datetime r dt :: rest')
  end.

(** What one call leaves behind: the caller's frame, the report file (the
    clock reading and the first 100 anomalies it renders) when one is
    written, and the returned anomalies or the exception. *)
Record Report : Type := mkReport {
  generated_on : Z;
  table : list Anomaly
}.

Record Run : Type := mkRun {
  frame_after : DataFrame;
  anomalies_html : option Report;
  returned : result (list Anomaly)
}.

Section Engine.

Context {sorter : SortValues}.

(** The per-actor frames the outer loop iterates over. *)
Definition actor_views (sorted : list Row) : list (string * list Row) :=
  map (fun g => (fst g, sort_values (snd g))) (groupby sorted).

Definition detect (sorted : list Row) : list Anomaly :=
  flat_map (fun g => detect_actor (fst g) (snd g)) (actor_views sorted).

(** [now] is the reading of [datetime.now()]. *)
Definition custom_anomaly_detection (now : Z) (df : DataFrame) : Run :=
  match df with
  | NoColumns => mkRun df None (Raise (KeyError "timestamp"))
  | Frame rows =>
      match assign_datetime rows with
      | Raise e => mkRun df None (Raise e)
      | Ok rows' =>
          let sorted := sort_values rows' in
          let anomalies := detect sorted in
          mkRun (Frame sorted)
                (match anomalies with
                 | [] => None
                 | _ :: _ => Some (mkReport now (firstn 100 anomalies))
                 end)
                (Ok anomalies)
      end
  end.

End Engine.

(** *** Which trigger emitted which anomaly

    The same loops as [detect_actor], each appended anomaly tagged with the
    index [i] of the row under inspection, the rule, and the index [j] of
    the row that completed the pattern ([j = i] for rules 3 and 4). *)

Inductive Rule : Type := R1 | R2 | R3 | R4.

Record Fired : Type := mkFired {
  trigger : nat;
  by_rule : Rule;
  terminal : nat;
  emitted : Anomaly
}.

Definition fired_rule1 (u : string) (logs : list Row) (i : nat) (row : Row) : list Fired :=
  if Str.contains "SHD" (action row) then
    flat_map (fun j =>
      match nth_error logs j with
      | Some rj =>
          if Str.contains "DEL" (action rj) then
            if within_600 (datetime row) (datetime rj)
            then [mkFired i R1 j (anomaly_rule1 u row rj)] else []
          else []
      | None => []
      end) (window i logs)
  else [].

Definition fired_rule2 (u : string) (logs : list Row) (i : nat) (row : Row) : list Fired :=
  if Str.contains "CRE" (action row) then
    flat_map (fun j =>
      match nth_error logs j with
      | Some rj =>
          if Str.contains "DEL" (action rj) && Str.contains (target row) (target rj)
          then [mkFired i R2 j (anomaly_rule2 u row rj)] else []
      | None => []
      end) (window i logs)
  else [].

Definition fired_rule3 (u : string) (i : nat) (row : Row) : list Fired :=
  if Str.contains "RUN" (action row) then
    if Str.contains_any suspicious_binaries (target row)
    then [mkFired i R3 i (anomaly_rule3 u row)] else []
  else [].

Definition fired_rule4 (u : string) (i : nat) (row : Row) : list Fired :=
  if Str.contains "DEL" (action row) then
    if deletes_suspicious (target row)
    then [mkFired i R4 i (anomaly_rule4 u row)] else []
  else [].

Definition fired_row (u : string) (logs : list Row) (i : nat) (row : Row) : list Fired :=
  fired_rule1 u logs i row ++ fired_rule2 u logs i row
  ++ fired_rule3 u i row ++ fired_rule4 u i row.

Definition fired_actor (u : string) (logs : list Row) : list Fired :=
  flat_map (fun i =>
    match nth_error logs i with
    | Some row => fired_row u logs i row
    | None => []
    end) (seq 0 (length logs)).

Definition Rule_eqb (a b : Rule) : bool :=
  match a, b with
  | R1, R1 | R2, R2 | R3, R3 | R4, R4 => true
  | _, _ => false
  end.

(** Selects the records of one trigger, rule and terminal row. *)
Definition keyed (i : nat) (r : Rule) (j : nat) (f : Fired) : bool :=
  (trigger f =? i)%nat && Rule_eqb (by_rule f) r && (terminal f =? j)%nat.

(** Selects the records of one trigger and rule. *)
Definition at_rule (i : nat) (r : Rule) (f : Fired) : bool :=
  (trigger f =? i)%nat && Rule_eqb (by_rule f) r.

(** *** Two sorting algorithms that meet [SortValues]

    Neither is taken to be the algorithm the library runs.  They show that
    the interface can be met, by a sort that keeps rows of equal key in
    place and by one that does not, and they stand for [sort_values] where
    a property is evaluated on concrete rows. *)

Module Sorting.

Definition not_later (a b : Row) : bool := (datetime a <=? datetime b)%Z.
Definition earlier (a b : Row) : bool := (datetime a <? datetime b)%Z.

(** Insertion sort that never moves a row past one with an equal key. *)
Fixpoint insert (r : Row) (l : list Row) : list Row :=
  match l with
  | [] => [r]
  | h :: t => if not_later r h then r :: l else h :: insert r t
  end.

Definition insertion_sort (l : list Row) : list Row := fold_right insert [] l.

(** Selection sort by exchange: the first smallest row changes places with
    the head.  [swap_min h t] is that row, and [t] with [h] in its place. *)
Fixpoint swap_min (h : Row) (t : list Row) : Row * list Row :=
  match t with
  | [] => (h, [])
  | x :: t' =>
      let (m, r) := swap_min h t' in
      if not_later x m && earlier x h then (x, h :: t') else (m, x :: r)
  end.

Fixpoint select (n : nat) (l : list Row) : list Row :=
  match n, l with
  | S n', h :: t => let (m, r) := swap_min h t in m :: select n' r
  | _, _ => l
  end.

Definition selection_sort (l : list Row) : list Row := select (length l) l.

End Sorting.

(** ** What the reports show

    The summary, the timeline and the PDF report read the frame and the
    anomalies; the values they compute before printing or drawing are
    modelled here. *)

(** [df[name]]: a column, or [KeyError] when the frame has none. *)
Definition column {A : Type} (df : DataFrame) (name : string) (f : Row -> A)
  : result (list A) :=
  match df with
  | NoColumns => Raise (KeyError name)
  | Frame rows => Ok (map f rows)
  end.

(** [len(df)] *)
Definition len (df : DataFrame) : nat :=
  match df with
  | NoColumns => 0
  | Frame rows => length rows
  end.

(** [series.unique()]: the distinct values, in order of first appearance. *)
Fixpoint unique (l : list string) : list string :=
  match l with
  | [] => []
  | x :: t => x :: filter (fun y => negb (String.eqb y x)) (unique t)
  end.

(** [print_summary], lines 39-41: the number of entries and the users. *)
Definition unique_users (df : DataFrame) : result (list string) :=
  actors <- column df "actor" actor ;; Ok (unique actors).

(** [action_counts[x]] for [action_counts = df['action'].value_counts()]. *)
Definition value_count (x : string) (l : list string) : nat :=
  count_occ string_dec l x.

(** [generate_timeline], lines 47-49: the column [action_type]. *)
Definition action_type_column (df : DataFrame) : result (list string) :=
  actions <- column df "action" action ;;
  Ok (map (fun x => if (value_count x actions <=? 3)%nat then x else "COMMON")
          actions).

(** [generate_pdf_report], line 224. *)
Definition reason_text (r : string) : string :=
  (Str.take 60 r ++ (if (60 <? String.length r)%nat then "..." else ""))%string.

(** [generate_pdf_report], lines 219-226: the cells of the table, one list
    per row of [anomalies.head(10)]. *)
Definition pdf_table (anoms : list Anomaly) : list (list string) :=
  map (fun a => [at_time a; user a; action_type a; severity a;
                 reason_text (reason a)])
      (firstn 10 anoms).

(** ** Notions used to state the properties *)

(** A row as it stands in the frame after the conversion of line 62: the
    [datetime] column holds the timestamp. *)
Definition normalise (r : Row) : Row := set_datetime r (Z.of_N (timestamp r)).

Definition in_range (r : Row) : bool := (timestamp r <=? 9223372036)%N.

Definition by_timestamp (a b : Row) : Prop := (timestamp a <= timestamp b)%N.

(** Suffix and substring, as relations on text. *)
Definition ends_with (s suf : string) : Prop :=
  exists pre, s = (pre ++ suf)%string.

Definition has_substring (s sub : string) : Prop :=
  exists pre post, s = (pre ++ sub ++ post)%string.

(** The condition of rule 4 on the target of a deletion. *)
Definition suspicious_deletion (path : string) : Prop :=
  (exists ext, In ext [".exe"; ".bin"; ".out"; ".so"] /\ ends_with path ext)
  \/ (exists p, In p ["/bin/"; "/tmp/"; "/sbin/"; "/usr/local/bin/"]
                /\ has_substring path p).

(** Rows with equal timestamps stand in [view] in the order they have in
    [arrival]. *)
Definition keeps_arrival_order (arrival view : list Row) : Prop :=
  forall t : N,
    filter (fun r => (timestamp r =? t)%N) view
    = filter (fun r => (timestamp r =? t)%N) arrival.

(** The order of the keys of [groupby]: text compared character by
    character. *)
Definition key_lt (a b : string) : Prop := String.compare a b = Lt.

(** A record of iteration [i] of the outer loop, appended by rule [r]. *)
Definition tagged (i : nat) (r : Rule) (f : Fired) : Prop :=
  trigger f = i /\ by_rule f = r.

(** The order in which one actor's loop appends: by row under inspection,
    then by rule, then by the row that completes the pattern. *)
Definition rule_index (r : Rule) : nat :=
  match r with R1 => 1 | R2 => 2 | R3 => 3 | R4 => 4 end.

Definition fired_before (f g : Fired) : Prop :=
  trigger f < trigger g
  \/ (trigger f = trigger g
      /\ (rule_index (by_rule f) < rule_index (by_rule g)
          \/ (by_rule f = by_rule g /\ terminal f < terminal g))).

(** Anomalies in ascending order of their user. *)
Definition user_le (a b : Anomaly) : Prop :=
  user a = user b \/ key_lt (user a) (user b).

(** The rows an anomaly is assembled from. *)
Definition built_from (a : Anomaly) (row rj : Row) : Prop :=
  a = anomaly_rule1 (user a) row rj
  \/ a = anomaly_rule2 (user a) row rj
  \/ (rj = row /\ a = anomaly_rule3 (user a) row)
  \/ (rj = row /\ a = anomaly_rule4 (user a) row).

(** The condition under which a rule appends the anomaly [a] for the row
    [row] under inspection and the row [rj] that completes the pattern. *)
Definition rule1_holds (row rj : Row) : Prop :=
  has_substring (action row) "SHD" /\ has_substring (action rj) "DEL"
  /\ (datetime rj - datetime row <= 600)%Z.

Definition rule2_holds (row rj : Row) : Prop :=
  has_substring (action row) "CRE" /\ has_substring (action rj) "DEL"
  /\ has_substring (target rj) (target row).

Definition rule3_holds (row : Row) : Prop :=
  has_substring (action row) "RUN"
  /\ exists b, In b ["/bin/xz"; "/bin/nc"; "/usr/bin/python3"; "/usr/bin/perl"]
               /\ has_substring (target row) b.

Definition rule4_holds (row : Row) : Prop :=
  has_substring (action row) "DEL" /\ suspicious_deletion (target row).

Definition justified (a : Anomaly) (row rj : Row) : Prop :=
  (a = anomaly_rule1 (user a) row rj /\ rule1_holds row rj)
  \/ (a = anomaly_rule2 (user a) row rj /\ rule2_holds row rj)
  \/ (rj = row /\ a = anomaly_rule3 (user a) row /\ rule3_holds row)
  \/ (rj = row /\ a = anomaly_rule4 (user a) row /\ rule4_holds row).

(** Selects the anomalies with a given [reason]. *)
Definition has_reason (text : string) (a : Anomaly) : bool :=
  String.eqb (reason a) text.

(** The rows a look-ahead rule inspects for row [i]: the next five, as far
    as the frame goes. *)
Definition next_rows (i : nat) (logs : list Row) : list Row :=
  firstn 5 (skipn (i + 1) logs).

(** What a look-ahead rule emits, in the words of the specification: for
    each row that starts the pattern, in turn, one anomaly for each of the
    next five rows that completes it. *)
Definition lookahead_anomalies (starts : Row -> bool)
           (completes : Row -> Row -> bool) (build : Row -> Row -> Anomaly)
           (logs : list Row) : list Anomaly :=
  flat_map (fun i =>
    match nth_error logs i with
    | Some row =>
        if starts row
        then map (build row) (filter (completes row) (next_rows i logs))
        else []
    | None => []
    end) (seq 0 (length logs)).

(** Two frames hold the same events: they agree on every column read from
    the log line and on the file name (the [datetime] column is derived). *)
Definition same_events (df1 df2 : DataFrame) : Prop :=
  match df1, df2 with
  | NoColumns, NoColumns => True
  | Frame rows1, Frame rows2 => map normalise rows1 = map normalise rows2
  | _, _ => False
  end.

(** Every character of a text is in a class. *)
Fixpoint all_chars (cls : ascii -> bool) (s : string) : bool :=
  match s with
  | EmptyString => true
  | String c t => cls c && all_chars cls t
  end.

(** Text of ASCII characters only: every character is a code point below
    128.  On such text the whitespace of [str.strip()] is [Str.is_space], and
    the digits of [\d] and of [int] are [is_digit]. *)
Definition is_ascii (c : ascii) : bool := (N_of_ascii c <? 128)%N.

Definition ascii_only (s : string) : bool := all_chars is_ascii s.

(** A greedy run of [cls] cannot go on into [t]. *)
Definition stops (cls : ascii -> bool) (t : string) : Prop :=
  match t with
  | EmptyString => True
  | String c _ => cls c = false
  end.

(** The line ending of a text file. *)
Definition newline_text : string := String newline EmptyString.

(** A log line written out from its fields; [eqs] is the run of [=] of the
    arrow. *)
Definition render (h ts et ac aty a eqs tg : string) : string :=
  ("0x" ++ h ++ "[ts:" ++ ts ++ "]|EVNT:" ++ et ++ "!@" ++ ac ++ "_" ++ aty
   ++ ":" ++ a ++ eqs ++ ">" ++ tg)%string.

(** The dictionary [groupdict()] returns for these fields. *)
Definition groupdict (h ts et ac aty a tg : string) : list (string * string) :=
  [("target", tg); ("actor", a); ("actor_type", aty); ("action", ac);
   ("event_type", et); ("timestamp", ts); ("log_id", ("0x" ++ h)%string)].

(** Results in order, up to the first exception. *)
Fixpoint collect {A : Type} (rs : list (result A)) : result (list A) :=
  match rs with
  | [] => Ok []
  | r :: t => x <- r ;; xs <- collect t ;; Ok (x :: xs)
  end.

(** The entries the parser builds for the matching lines of one file, and
    for a whole directory: the files whose name ends in [.vlog], in listing
    order, each line in turn. *)
Definition line_entries (fromtimestamp : N -> result Z) (fname : string)
           (lines : list string) : list (result Row) :=
  flat_map (fun l => match parse_line fromtimestamp fname l with
                     | Some r => [r]
                     | None => []
                     end) lines.

Definition directory_entries (fromtimestamp : N -> result Z)
           (listing : list (string * list string)) : list (result Row) :=
  flat_map (fun fl => if Str.endswith ".vlog" (fst fl)
                      then line_entries fromtimestamp (fst fl) (snd fl)
                      else []) listing.

(** * Properties *)

(** ** Strings *)

Module StrFacts.

Import Str.
Local Open Scope string_scope.

Lemma take_drop (n : nat) (s : string) : take n s ++ drop n s = s.
Proof.
  revert s; induction n as [|n IH]; intros [|c t]; simpl; trivial.
  now rewrite IH.
Qed.


Lemma length_append (s t : string) :
  String.length (s ++ t) = String.length s + String.length t.
Proof. induction s; simpl; congruence. Qed.

Lemma append_assoc (s t u : string) : (s ++ t) ++ u = s ++ (t ++ u).
Proof. induction s; simpl; congruence. Qed.

Lemma append_nil_r (s : string) : s ++ "" = s.
Proof. induction s; simpl; congruence. Qed.

Lemma startswith_app (p s : string) :
  startswith p s = true <-> exists t, s = p ++ t.
Proof.
  revert s; induction p as [|a p IH]; intros s; simpl.
  - split; [intros _; now exists s | trivial].
  - destruct s as [|b s].
    + split; [discriminate | intros [t Ht]; discriminate].
    + destruct (Ascii.eqb_spec a b) as [->|Hne]; simpl.
      * rewrite IH. split; intros [t Ht]; exists t; congruence.
      * split; [discriminate | intros [t Ht]; congruence].
Qed.

(** [contains] decides the substring relation. *)
Lemma contains_spec (sub s : string) :
  contains sub s = true <-> exists pre post, s = pre ++ sub ++ post.
Proof.
  induction s as [|c t IH]; simpl.
  - destruct (startswith sub "") eqn:E.
    + split; trivial. intros _. apply startswith_app in E. destruct E as [u Hu].
      now exists "", u.
    + split; [discriminate|]. intros [pre [post H]].
      destruct pre; simpl in H.
      * assert (startswith sub "" = true) by (apply startswith_app; eauto).
        congruence.
      * discriminate.
  - destruct (startswith sub (String c t)) eqn:E.
    + split; trivial. intros _. apply startswith_app in E. destruct E as [u Hu].
      now exists "", u.
    + rewrite IH. split.
      * intros [pre [post H]]. exists (String c pre), post. simpl. congruence.
      * intros [pre [post H]]. destruct pre as [|a pre]; simpl in H.
        -- assert (startswith sub (String c t) = true)
             by (apply startswith_app; eauto).
           congruence.
        -- injection H as _ H. eauto.
Qed.

(** [endswith] decides the suffix relation. *)
Lemma endswith_spec (suf s : string) :
  endswith suf s = true <-> exists pre, s = pre ++ suf.
Proof.
  induction s as [|c t IH]; cbn [endswith].
  - destruct (String.eqb_spec "" suf) as [<-|Hne].
    + split; trivial. intros _. now exists "".
    + split; [discriminate|]. intros [pre H].
      destruct pre; simpl in H; [congruence | discriminate].
  - destruct (String.eqb_spec (String c t) suf) as [<-|Hne].
    + split; trivial. intros _. now exists "".
    + rewrite IH. split.
      * intros [pre H]. exists (String c pre). simpl. congruence.
      * intros [pre H]. destruct pre as [|a pre]; simpl in H.
        -- congruence.
        -- injection H as _ H. eauto.
Qed.

End StrFacts.

(** ** The matcher *)

Module RegexFacts.

Import Regex.

Lemma span_le (cls : ascii -> bool) (s : string) : span cls s <= String.length s.
Proof. induction s as [|c t IH]; simpl; [lia|]. destruct (cls c); lia. Qed.

Lemma backtrack_some {A : Type} (k lo : nat) (f : nat -> option A) (r : A) :
  backtrack k lo f = Some r -> exists n, lo <= n <= k /\ f n = Some r.
Proof.
  induction k as [|k IH]; simpl.
  - destruct (Nat.ltb_spec 0 lo); [discriminate|].
    destruct (f 0) eqn:E; [|discriminate].
    intros [= <-]. exists 0. split; [lia | assumption].
  - destruct (Nat.ltb_spec (S k) lo); [discriminate|].
    destruct (f (S k)) eqn:E.
    + intros [= <-]. exists (S k). split; [lia | assumption].
    + intros H'. destruct (IH H') as [n [Hn Hf]]. exists n. split; [lia | assumption].
Qed.

End RegexFacts.

(** ** The parser *)

Module ParserFacts.

Import Str Regex StrFacts RegexFacts.

Lemma drop_app_length (l t : string) :
  drop (String.length l) (l ++ t)%string = t.
Proof. induction l; simpl; trivial. Qed.


Lemma exec_open g p st s r :
  exec (Open g :: p) st s = Some r ->
  exec p (mkCaptures ((g, EmptyString) :: opened st) (closed st)) s = Some r.
Proof. trivial. Qed.

Lemma exec_close g p x o c s r :
  exec (Close g :: p) (mkCaptures ((g, x) :: o) c) s = Some r ->
  exec p (mkCaptures o ((g, x) :: c)) s = Some r.
Proof. cbn [exec opened closed]. now rewrite String.eqb_refl. Qed.

Lemma exec_lit l p st s r :
  exec (Lit l :: p) st s = Some r ->
  exists t, s = (l ++ t)%string /\ exec p (feed l st) t = Some r.
Proof.
  cbn [exec]. destruct (startswith l s) eqn:E; [|discriminate].
  apply startswith_app in E. destruct E as [t ->].
  rewrite drop_app_length. eauto.
Qed.




End ParserFacts.

(** ** The two sorting algorithms implement [sort_values] *)

Module SortingFacts.

Import Sorting.

Lemma by_datetime_trans (a b c : Row) :
  by_datetime a b -> by_datetime b c -> by_datetime a c.
Proof. unfold by_datetime; lia. Qed.

Lemma Forall_by_datetime_trans (a b : Row) (l : list Row) :
  by_datetime a b -> Forall (by_datetime b) l -> Forall (by_datetime a) l.
Proof.
  intros Hab H. eapply Forall_impl; [|exact H].
  intros c. now apply by_datetime_trans.
Qed.

Lemma insert_perm (r : Row) (l : list Row) : Permutation (r :: l) (insert r l).
Proof.
  induction l as [|h t IH]; simpl; [reflexivity|].
  destruct (not_later r h); [reflexivity|].
  rewrite perm_swap. now constructor.
Qed.

Lemma insert_sorted (r : Row) (l : list Row) :
  StronglySorted by_datetime l -> StronglySorted by_datetime (insert r l).
Proof.
  induction 1 as [|h t Hs IH Hh]; simpl.
  - repeat constructor.
  - unfold not_later. destruct (Z.leb_spec (datetime r) (datetime h)) as [Hle|Hgt].
    + constructor; [now constructor|].
      constructor; [exact Hle|]. now apply Forall_by_datetime_trans with h.
    + constructor; [exact IH|].
      apply (Permutation_Forall (insert_perm r t)).
      constructor; [unfold by_datetime; lia | exact Hh].
Qed.

Lemma insertion_sort_perm (l : list Row) : Permutation l (insertion_sort l).
Proof.
  induction l as [|r l IH]; simpl; [reflexivity|].
  rewrite <- insert_perm. now constructor.
Qed.

Lemma insertion_sort_sorted (l : list Row) :
  StronglySorted by_datetime (insertion_sort l).
Proof.
  induction l as [|r l IH]; simpl; [constructor | now apply insert_sorted].
Qed.

Lemma swap_min_perm (h : Row) (t : list Row) (m : Row) (r : list Row) :
  swap_min h t = (m, r) -> Permutation (h :: t) (m :: r).
Proof.
  revert m r; induction t as [|x t IH]; simpl; intros m r.
  - intros [= <- <-]. reflexivity.
  - destruct (swap_min h t) as [m' r'] eqn:E.
    destruct (not_later x m' && earlier x h); intros [= <- <-].
    + apply perm_swap.
    + rewrite perm_swap, (IH _ _ eq_refl). apply perm_swap.
Qed.

Lemma swap_min_least (h : Row) (t : list Row) (m : Row) (r : list Row) :
  swap_min h t = (m, r) -> Forall (by_datetime m) (h :: t).
Proof.
  revert m r; induction t as [|x t IH]; simpl; intros m r.
  - intros [= <- <-]. repeat constructor. unfold by_datetime; lia.
  - destruct (swap_min h t) as [m' r'] eqn:E.
    specialize (IH _ _ eq_refl). inversion IH as [|? ? Hh Ht]; subst.
    unfold not_later, earlier.
    destruct (Z.leb_spec (datetime x) (datetime m')) as [H1|H1];
      destruct (Z.ltb_spec (datetime x) (datetime h)) as [H2|H2];
      cbn [andb]; intros [= <- <-].
    + constructor; [unfold by_datetime; lia|].
      constructor; [unfold by_datetime; lia|].
      now apply Forall_by_datetime_trans with m'.
    + constructor; [exact Hh|]. constructor; [|exact Ht].
      unfold by_datetime in *; lia.
    + constructor; [exact Hh|]. constructor; [|exact Ht].
      unfold by_datetime; lia.
    + constructor; [exact Hh|]. constructor; [|exact Ht].
      unfold by_datetime; lia.
Qed.

Lemma select_perm (n : nat) (l : list Row) : Permutation l (select n l).
Proof.
  revert l; induction n as [|n IH]; intros [|h t]; simpl; try reflexivity.
  destruct (swap_min h t) as [m r] eqn:E.
  rewrite (swap_min_perm _ _ _ _ E). constructor. apply IH.
Qed.

Lemma select_sorted (n : nat) (l : list Row) :
  length l <= n -> StronglySorted by_datetime (select n l).
Proof.
  revert l; induction n as [|n IH]; intros [|h t]; simpl; intros Hn;
    try constructor; try lia.
  destruct (swap_min h t) as [m r] eqn:E.
  pose proof (swap_min_perm _ _ _ _ E) as Hp.
  pose proof (swap_min_least _ _ _ _ E) as Hl.
  constructor.
  - apply IH. apply Permutation_length in Hp. simpl in Hp. lia.
  - apply (Permutation_Forall (select_perm n r)).
    apply (Permutation_Forall Hp) in Hl. now inversion Hl.
Qed.

Lemma selection_sort_perm (l : list Row) : Permutation l (selection_sort l).
Proof. apply select_perm. Qed.

Lemma selection_sort_sorted (l : list Row) :
  StronglySorted by_datetime (selection_sort l).
Proof. apply select_sorted. lia. Qed.

End SortingFacts.

(** A sort that keeps equal keys in their previous order ([kind='stable']). *)
Definition stable_sorter : SortValues :=
  Build_SortValues Sorting.insertion_sort
                   SortingFacts.insertion_sort_perm
                   SortingFacts.insertion_sort_sorted.

(** An exchange sort, which does not keep them. *)
Definition exchange_sorter : SortValues :=
  Build_SortValues Sorting.selection_sort
                   SortingFacts.selection_sort_perm
                   SortingFacts.selection_sort_sorted.

(** ** The rules on one actor's rows *)

Module RuleFacts.

Import Str StrFacts.

Lemma map_flat_map {A B C : Type} (f : B -> C) (g : A -> list B) (l : list A) :
  map f (flat_map g l) = flat_map (fun x => map f (g x)) l.
Proof.
  induction l as [|x l IH]; simpl; [reflexivity|].
  now rewrite map_app, IH.
Qed.

Lemma filter_none {A : Type} (p : A -> bool) (l : list A) :
  Forall (fun x => p x = false) l -> filter p l = [].
Proof.
  induction 1 as [|x l Hx _ IH]; simpl; [reflexivity|]. now rewrite Hx.
Qed.

Ltac case_bounds :=
  repeat match goal with
         | |- context [(?a <=? ?b)%nat] => destruct (Nat.leb_spec a b)
         | |- context [(?a <? ?b)%nat] => destruct (Nat.ltb_spec a b)
         end.

(** Of a loop over a range, only the iteration [k] contributes the
    elements that [p] selects, when no other iteration produces any. *)
Lemma filter_flat_map_seq {B : Type} (p : B -> bool) (g : nat -> list B)
      (k a n : nat) :
  (forall m, m <> k -> filter p (g m) = []) ->
  filter p (flat_map g (seq a n))
  = if ((a <=? k) && (k <? a + n))%nat then filter p (g k) else [].
Proof.
  intros Hother. revert a; induction n as [|n IH]; intros a;
    cbn [seq flat_map filter].
  - case_bounds; cbn [andb]; trivial; lia.
  - rewrite filter_app, IH.
    destruct (Nat.eq_dec a k) as [->|Hne].
    + case_bounds; cbn [andb]; try lia. apply List.app_nil_r.
    + rewrite (Hother a Hne). cbn [app].
      case_bounds; cbn [andb]; trivial; lia.
Qed.

Lemma in_window (i j : nat) (logs : list Row) :
  In j (window i logs) <-> i + 1 <= j <= i + 5 /\ j < length logs.
Proof. unfold window. rewrite in_seq. lia. Qed.

Lemma window_bounds (i j : nat) (logs : list Row) :
  ((i + 1 <=? j) && (j <? i + 1 + (Nat.min (i + 6) (length logs) - (i + 1))))%nat
  = ((i + 1 <=? j) && (j <=? i + 5) && (j <? length logs))%nat.
Proof. case_bounds; simpl; trivial; lia. Qed.

(** The tagged loops append the anomalies of [detect_actor], in its order. *)
Lemma emitted_fired_actor (u : string) (logs : list Row) :
  map emitted (fired_actor u logs) = detect_actor u logs.
Proof.
  unfold fired_actor, detect_actor. rewrite map_flat_map.
  apply flat_map_ext. intros i. destruct (nth_error logs i) as [row|]; trivial.
  unfold fired_row, detect_row. rewrite !map_app. repeat f_equal.
  - unfold fired_rule1, rule1. destruct (contains "SHD" (action row)); trivial.
    rewrite map_flat_map. apply flat_map_ext. intros j.
    destruct (nth_error logs j) as [rj|]; trivial.
    destruct (contains "DEL" (action rj)); trivial.
    destruct (within_600 _ _); trivial.
  - unfold fired_rule2, rule2. destruct (contains "CRE" (action row)); trivial.
    rewrite map_flat_map. apply flat_map_ext. intros j.
    destruct (nth_error logs j) as [rj|]; trivial.
    destruct (_ && _); trivial.
  - unfold fired_rule3, rule3. destruct (contains "RUN" (action row)); trivial.
    destruct (contains_any _ _); trivial.
  - unfold fired_rule4, rule4. destruct (contains "DEL" (action row)); trivial.
    destruct (deletes_suspicious _); trivial.
Qed.

Lemma fired_rule1_tagged u logs i row : Forall (tagged i R1) (fired_rule1 u logs i row).
Proof.
  unfold fired_rule1. destruct (contains _ _); [|constructor].
  apply Forall_flat_map, Forall_forall. intros j _.
  destruct (nth_error logs j); [|constructor].
  destruct (contains _ _); [|constructor].
  destruct (within_600 _ _); repeat constructor.
Qed.

Lemma fired_rule2_tagged u logs i row : Forall (tagged i R2) (fired_rule2 u logs i row).
Proof.
  unfold fired_rule2. destruct (contains _ _); [|constructor].
  apply Forall_flat_map, Forall_forall. intros j _.
  destruct (nth_error logs j); [|constructor].
  destruct (_ && _); repeat constructor.
Qed.

Lemma fired_rule3_tagged u i row : Forall (tagged i R3) (fired_rule3 u i row).
Proof.
  unfold fired_rule3. destruct (contains _ _); [|constructor].
  destruct (contains_any _ _); repeat constructor.
Qed.

Lemma fired_rule4_tagged u i row : Forall (tagged i R4) (fired_rule4 u i row).
Proof.
  unfold fired_rule4. destruct (contains _ _); [|constructor].
  destruct (deletes_suspicious _); repeat constructor.
Qed.

Lemma filter_other_tag (p : Fired -> bool) (i : nat) (r : Rule) (l : list Fired) :
  (forall f, tagged i r f -> p f = false) ->
  Forall (tagged i r) l -> filter p l = [].
Proof.
  intros Hp Hl. apply filter_none. eapply Forall_impl; [|exact Hl]. exact Hp.
Qed.

Lemma at_rule_tagged (i i' : nat) (r r' : Rule) (f : Fired) :
  tagged i' r' f -> i' <> i \/ r' <> r -> at_rule i r f = false.
Proof.
  intros [<- <-] H. unfold at_rule.
  destruct (Nat.eqb_spec (trigger f) i) as [E|E]; cbn [andb]; trivial.
  destruct H as [H|H]; [contradiction|].
  destruct (by_rule f), r; trivial; contradiction.
Qed.

Lemma keyed_at_rule (i : nat) (r : Rule) (j : nat) (f : Fired) :
  keyed i r j f = at_rule i r f && (terminal f =? j)%nat.
Proof. reflexivity. Qed.

Lemma keyed_tagged (i i' : nat) (r r' : Rule) (j : nat) (f : Fired) :
  tagged i' r' f -> i' <> i \/ r' <> r -> keyed i r j f = false.
Proof.
  intros Ht H. rewrite keyed_at_rule, (at_rule_tagged _ _ _ _ _ Ht H). reflexivity.
Qed.

(** Only iteration [i] of the outer loop appends what [p] selects, when [p]
    selects records of trigger [i] only. *)
Lemma filter_fired_actor (p : Fired -> bool) (i : nat) (u : string) (logs : list Row) :
  (forall f, trigger f <> i -> p f = false) ->
  filter p (fired_actor u logs)
  = match nth_error logs i with
    | Some row => filter p (fired_row u logs i row)
    | None => []
    end.
Proof.
  intros Hp. unfold fired_actor.
  rewrite (filter_flat_map_seq p _ i).
  - destruct (nth_error logs i) as [row|] eqn:E.
    + assert (i < length logs) by (apply nth_error_Some; congruence).
      case_bounds; cbn [andb]; trivial; lia.
    + destruct (_ && _); trivial.
  - intros m Hm. destruct (nth_error logs m) as [row|]; trivial.
    apply filter_none. unfold fired_row. rewrite !Forall_app.
    pose proof (fired_rule1_tagged u logs m row) as T1.
    pose proof (fired_rule2_tagged u logs m row) as T2.
    pose proof (fired_rule3_tagged u m row) as T3.
    pose proof (fired_rule4_tagged u m row) as T4.
    repeat split;
      (eapply Forall_impl; [|eassumption]); intros f [Hf _];
      apply Hp; congruence.
Qed.

Lemma keyed_trigger (i : nat) (r : Rule) (j : nat) (f : Fired) :
  trigger f <> i -> keyed i r j f = false.
Proof.
  intros H. unfold keyed. destruct (Nat.eqb_spec (trigger f) i); [contradiction|].
  reflexivity.
Qed.

Lemma at_rule_trigger (i : nat) (r : Rule) (f : Fired) :
  trigger f <> i -> at_rule i r f = false.
Proof.
  intros H. unfold at_rule. destruct (Nat.eqb_spec (trigger f) i); [contradiction|].
  reflexivity.
Qed.

Ltac other_rules :=
  repeat match goal with
         | |- context [filter ?p (fired_rule1 ?u ?l ?i ?row)] =>
             rewrite (filter_other_tag p i R1 (fired_rule1 u l i row));
             [|intros; first [eapply keyed_tagged | eapply at_rule_tagged];
               [eassumption | right; discriminate]
              |apply fired_rule1_tagged]
         | |- context [filter ?p (fired_rule2 ?u ?l ?i ?row)] =>
             rewrite (filter_other_tag p i R2 (fired_rule2 u l i row));
             [|intros; first [eapply keyed_tagged | eapply at_rule_tagged];
               [eassumption | right; discriminate]
              |apply fired_rule2_tagged]
         | |- context [filter ?p (fired_rule3 ?u ?i ?row)] =>
             rewrite (filter_other_tag p i R3 (fired_rule3 u i row));
             [|intros; first [eapply keyed_tagged | eapply at_rule_tagged];
               [eassumption | right; discriminate]
              |apply fired_rule3_tagged]
         | |- context [filter ?p (fired_rule4 ?u ?i ?row)] =>
             rewrite (filter_other_tag p i R4 (fired_rule4 u i row));
             [|intros; first [eapply keyed_tagged | eapply at_rule_tagged];
               [eassumption | right; discriminate]
              |apply fired_rule4_tagged]
         end.

Lemma keyed_here (i : nat) (r : Rule) (j : nat) (a : Anomaly) :
  keyed i r j (mkFired i r j a) = true.
Proof.
  unfold keyed. cbn [trigger by_rule terminal]. rewrite !Nat.eqb_refl.
  now destruct r.
Qed.

Lemma keyed_elsewhere (i : nat) (r : Rule) (j m : nat) (a : Anomaly) :
  m <> j -> keyed i r j (mkFired i r m a) = false.
Proof.
  intros H. unfold keyed. cbn [trigger by_rule terminal].
  destruct (Nat.eqb_spec m j); [contradiction|]. apply andb_false_r.
Qed.

(** What rule 1 appends for the trigger [i] and the later row [j]. *)
Lemma keyed_rule1 (u : string) (logs : list Row) (i j : nat) :
  filter (keyed i R1 j) (fired_actor u logs)
  = match nth_error logs i, nth_error logs j with
    | Some row, Some rj =>
        if contains "SHD" (action row)
           && ((i + 1 <=? j) && (j <=? i + 5))%nat
           && contains "DEL" (action rj)
           && within_600 (datetime row) (datetime rj)
        then [mkFired i R1 j (anomaly_rule1 u row rj)] else []
    | _, _ => []
    end.
Proof.
  rewrite (filter_fired_actor _ i) by (intros; now apply keyed_trigger).
  destruct (nth_error logs i) as [row|]; [|reflexivity].
  unfold fired_row. rewrite !filter_app. other_rules. rewrite !List.app_nil_r.
  unfold fired_rule1. destruct (contains "SHD" (action row)); cbn [andb].
  2: { now destruct (nth_error logs j). }
  unfold window. rewrite (filter_flat_map_seq _ _ j).
  - rewrite window_bounds.
    destruct (nth_error logs j) as [rj|] eqn:Ej.
    + assert (j < length logs) by (apply nth_error_Some; congruence).
      destruct (Nat.ltb_spec j (length logs)); [|lia]. rewrite andb_true_r.
      destruct (_ && _); cbn [andb]; trivial.
      destruct (contains "DEL" (action rj)); cbn [andb]; trivial.
      destruct (within_600 _ _); trivial.
      cbn [filter]. now rewrite keyed_here.
    + destruct (_ && _); trivial.
  - intros m Hm. destruct (nth_error logs m) as [rm|]; trivial.
    destruct (contains "DEL" (action rm)); trivial.
    destruct (within_600 _ _); trivial.
    cbn [filter]. now rewrite keyed_elsewhere.
Qed.

(** What rule 2 appends for the trigger [i] and the later row [j]. *)
Lemma keyed_rule2 (u : string) (logs : list Row) (i j : nat) :
  filter (keyed i R2 j) (fired_actor u logs)
  = match nth_error logs i, nth_error logs j with
    | Some row, Some rj =>
        if contains "CRE" (action row)
           && ((i + 1 <=? j) && (j <=? i + 5))%nat
           && (contains "DEL" (action rj) && contains (target row) (target rj))
        then [mkFired i R2 j (anomaly_rule2 u row rj)] else []
    | _, _ => []
    end.
Proof.
  rewrite (filter_fired_actor _ i) by (intros; now apply keyed_trigger).
  destruct (nth_error logs i) as [row|]; [|reflexivity].
  unfold fired_row. rewrite !filter_app. other_rules. rewrite !List.app_nil_r.
  cbn [app].
  unfold fired_rule2. destruct (contains "CRE" (action row)); cbn [andb].
  2: { now destruct (nth_error logs j). }
  unfold window. rewrite (filter_flat_map_seq _ _ j).
  - rewrite window_bounds.
    destruct (nth_error logs j) as [rj|] eqn:Ej.
    + assert (j < length logs) by (apply nth_error_Some; congruence).
      destruct (Nat.ltb_spec j (length logs)); [|lia]. rewrite andb_true_r.
      destruct ((_ <=? _)%nat && _); cbn [andb]; trivial.
      destruct (contains "DEL" (action rj) && _); trivial.
      cbn [filter]. now rewrite keyed_here.
    + destruct (_ && _); trivial.
  - intros m Hm. destruct (nth_error logs m) as [rm|]; trivial.
    destruct (contains "DEL" (action rm) && _); trivial.
    cbn [filter]. now rewrite keyed_elsewhere.
Qed.

(** What rule 4 appends while row [i] is under inspection. *)
Lemma at_rule4 (u : string) (logs : list Row) (i : nat) :
  filter (at_rule i R4) (fired_actor u logs)
  = match nth_error logs i with
    | Some row =>
        if contains "DEL" (action row) && deletes_suspicious (target row)
        then [mkFired i R4 i (anomaly_rule4 u row)] else []
    | None => []
    end.
Proof.
  rewrite (filter_fired_actor _ i) by (intros; now apply at_rule_trigger).
  destruct (nth_error logs i) as [row|]; [|reflexivity].
  unfold fired_row. rewrite !filter_app. other_rules. cbn [app].
  unfold fired_rule4. destruct (contains "DEL" (action row)); cbn [andb]; trivial.
  destruct (deletes_suspicious _); trivial.
  cbn [filter]. unfold at_rule. cbn [trigger by_rule Rule_eqb].
  now rewrite Nat.eqb_refl.
Qed.

End RuleFacts.

(** ** Conversion, grouping and sorting of the frame *)

Module FrameFacts.

Lemma assign_datetime_eq (rows : list Row) :
  assign_datetime rows
  = if forallb in_range rows then Ok (map normalise rows)
    else Raise OutOfBoundsDatetime.
Proof.
  induction rows as [|r rows IH]; cbn [assign_datetime forallb map]; trivial.
  unfold to_datetime, in_range at 1.
  destruct (timestamp r <=? 9223372036)%N; cbn [bind andb]; trivial.
  rewrite IH. destruct (forallb in_range rows); reflexivity.
Qed.

Lemma assign_datetime_ok (rows rows' : list Row) :
  assign_datetime rows = Ok rows' -> rows' = map normalise rows.
Proof.
  rewrite assign_datetime_eq. destruct (forallb in_range rows); congruence.
Qed.

Lemma Permutation_filter {A : Type} (p : A -> bool) (l l' : list A) :
  Permutation l l' -> Permutation (filter p l) (filter p l').
Proof.
  induction 1 as [|x l l' _ IH|x y l|l l' l'' _ IH1 _ IH2]; cbn [filter].
  - constructor.
  - destruct (p x); [now constructor | assumption].
  - destruct (p x), (p y); try reflexivity. apply perm_swap.
  - now transitivity (filter p l').
Qed.

Lemma compare_lt_trans (a b c : string) :
  String.compare a b = Lt -> String.compare b c = Lt -> String.compare a c = Lt.
Proof.
  intros H1 H2. apply String_as_OT.cmp_lt.
  apply String_as_OT.cmp_lt in H1. apply String_as_OT.cmp_lt in H2.
  now apply String_as_OT.lt_trans with b.
Qed.

Lemma compare_refl (a : string) : String.compare a a = Eq.
Proof. now apply String_as_OT.cmp_eq. Qed.

Lemma in_insert_key (k x : string) (ks : list string) :
  In x (insert_key k ks) <-> x = k \/ In x ks.
Proof.
  induction ks as [|h t IH]; cbn [insert_key].
  - simpl. intuition.
  - destruct (String.compare k h) eqn:E.
    + apply String.compare_eq_iff in E. subst. simpl. intuition.
    + simpl. intuition.
    + simpl. rewrite IH. intuition.
Qed.

Lemma insert_key_sorted (k : string) (ks : list string) :
  StronglySorted key_lt ks -> StronglySorted key_lt (insert_key k ks).
Proof.
  induction 1 as [|h t Hs IH Hh]; cbn [insert_key].
  - repeat constructor.
  - destruct (String.compare k h) eqn:E.
    + now constructor.
    + constructor; [now constructor|]. constructor; [exact E|].
      eapply Forall_impl; [|exact Hh]. intros c Hc.
      now apply compare_lt_trans with h.
    + constructor; [exact IH|].
      apply Forall_forall. intros x Hx. apply in_insert_key in Hx.
      destruct Hx as [->|Hx].
      * unfold key_lt. rewrite String.compare_antisym, E. reflexivity.
      * rewrite Forall_forall in Hh. now apply Hh.
Qed.

Lemma group_keys_sorted (rows : list Row) : StronglySorted key_lt (group_keys rows).
Proof.
  unfold group_keys. induction rows as [|r rows IH]; cbn [map fold_right].
  - constructor.
  - now apply insert_key_sorted.
Qed.

Lemma in_group_keys (u : string) (rows : list Row) :
  In u (group_keys rows) <-> exists r, In r rows /\ actor r = u.
Proof.
  unfold group_keys. induction rows as [|r rows IH]; cbn [map fold_right].
  - simpl. split; [tauto | intros [r [[] _]]].
  - rewrite in_insert_key, IH. split.
    + intros [->|[r' [Hr' <-]]]; [exists r | exists r']; simpl; auto.
    + intros [r' [[<-|Hr'] <-]]; [now left | right; eauto].
Qed.

Lemma group_rows_actor (u : string) (rows : list Row) :
  Forall (fun r => actor r = u) (group_rows u rows).
Proof.
  apply Forall_forall. intros r Hr. apply filter_In in Hr.
  now apply String.eqb_eq.
Qed.

Lemma group_rows_normalise (u : string) (rows : list Row) :
  group_rows u (map normalise rows) = map normalise (group_rows u rows).
Proof. unfold group_rows. now rewrite filter_map_swap. Qed.

End FrameFacts.

(** ** The engine on a whole frame *)

Module EngineFacts.

Import RuleFacts FrameFacts.

Section WithSorter.

Context {sorter : SortValues}.

Lemma sort_values_nil : sort_values [] = [].
Proof. apply Permutation_nil. apply sort_values_perm. Qed.

(** The outer loop, written over the keys of the groups. *)
Lemma detect_eq (sorted : list Row) :
  detect sorted
  = flat_map (fun u => detect_actor u (sort_values (group_rows u sorted)))
             (group_keys sorted).
Proof.
  unfold detect, actor_views, groupby.
  induction (group_keys sorted) as [|u ks IH]; cbn [map flat_map fst snd].
  - reflexivity.
  - now rewrite IH.
Qed.

Lemma in_actor_views (u : string) (logs sorted : list Row) :
  In (u, logs) (actor_views sorted) <->
  In u (group_keys sorted) /\ logs = sort_values (group_rows u sorted).
Proof.
  unfold actor_views, groupby. rewrite map_map. cbn [fst snd].
  rewrite in_map_iff. split.
  - intros [k [[= <- <-] Hk]]. auto.
  - intros [Hk ->]. exists u. auto.
Qed.

(** The view of one actor holds that actor's rows of the input, converted. *)
Lemma view_perm (u : string) (rows : list Row) :
  Permutation (map normalise (group_rows u rows))
              (sort_values (group_rows u (sort_values (map normalise rows)))).
Proof.
  transitivity (group_rows u (sort_values (map normalise rows)));
    [|apply sort_values_perm].
  rewrite <- group_rows_normalise. apply Permutation_filter, sort_values_perm.
Qed.

End WithSorter.

Lemma normalise_synced (r : Row) : datetime (normalise r) = Z.of_N (timestamp (normalise r)).
Proof. reflexivity. Qed.

Lemma sorted_by_timestamp (l : list Row) :
  Forall (fun r => datetime r = Z.of_N (timestamp r)) l ->
  StronglySorted by_datetime l -> StronglySorted by_timestamp l.
Proof.
  intros Hs. induction 1 as [|h t Hst IH Hh]; constructor.
  - apply IH. now inversion Hs.
  - inversion Hs as [|? ? Eh Et]; subst.
    rewrite Forall_forall in *. intros x Hx.
    specialize (Hh x Hx). specialize (Et x Hx).
    unfold by_datetime, by_timestamp in *. lia.
Qed.

(** Every anomaly of one actor's loop names that actor and is assembled
    from rows of the list the loop runs over. *)
Lemma detect_actor_built (u : string) (logs : list Row) (a : Anomaly) :
  In a (detect_actor u logs) ->
  user a = u /\ exists row rj, In row logs /\ In rj logs /\ built_from a row rj.
Proof.
  unfold detect_actor. rewrite in_flat_map. intros [i [_ Hi]].
  destruct (nth_error logs i) as [row|] eqn:Ei; [|contradiction].
  apply nth_error_In in Ei.
  unfold detect_row in Hi. rewrite !in_app_iff in Hi.
  destruct Hi as [H|[H|[H|H]]].
  - unfold rule1 in H. destruct (Str.contains "SHD" _); [|contradiction].
    apply in_flat_map in H. destruct H as [j [_ Hj]].
    destruct (nth_error logs j) as [rj|] eqn:Ej; [|contradiction].
    apply nth_error_In in Ej.
    destruct (Str.contains "DEL" _); [|contradiction].
    destruct (within_600 _ _); [|contradiction].
    destruct Hj as [<-|[]]. split; [reflexivity|].
    exists row, rj. unfold built_from. cbn [user]. auto.
  - unfold rule2 in H. destruct (Str.contains "CRE" _); [|contradiction].
    apply in_flat_map in H. destruct H as [j [_ Hj]].
    destruct (nth_error logs j) as [rj|] eqn:Ej; [|contradiction].
    apply nth_error_In in Ej.
    destruct (_ && _); [|contradiction].
    destruct Hj as [<-|[]]. split; [reflexivity|].
    exists row, rj. unfold built_from. cbn [user]. auto.
  - unfold rule3 in H. destruct (Str.contains "RUN" _); [|contradiction].
    destruct (Str.contains_any _ _); [|contradiction].
    destruct H as [<-|[]]. split; [reflexivity|].
    exists row, row. unfold built_from. cbn [user].
    repeat split; trivial. right; right; left. now split.
  - unfold rule4 in H. destruct (Str.contains "DEL" _); [|contradiction].
    destruct (deletes_suspicious _); [|contradiction].
    destruct H as [<-|[]]. split; [reflexivity|].
    exists row, row. unfold built_from. cbn [user].
    repeat split; trivial. right; right; right. now split.
Qed.

Lemma key_lt_irrefl (a : string) : ~ key_lt a a.
Proof. unfold key_lt. rewrite compare_refl. discriminate. Qed.

Lemma sorted_keys_NoDup (ks : list string) : StronglySorted key_lt ks -> NoDup ks.
Proof.
  induction 1 as [|h t _ IH Hh]; constructor; [|exact IH].
  intros Hin. rewrite Forall_forall in Hh. apply (key_lt_irrefl h). auto.
Qed.

(** Of a loop over distinct keys, only the iteration of key [k] contributes
    what [p] selects, when no other iteration produces any. *)
Lemma filter_flat_map_key {B : Type} (p : B -> bool) (g : string -> list B)
      (k : string) (ks : list string) :
  NoDup ks ->
  (forall m, m <> k -> filter p (g m) = []) ->
  filter p (flat_map g ks) = if in_dec string_dec k ks then filter p (g k) else [].
Proof.
  intros Hnd Hother. induction Hnd as [|h t Hh _ IH]; cbn [flat_map].
  - reflexivity.
  - rewrite filter_app, IH. destruct (string_dec h k) as [->|Hne].
    + destruct (in_dec string_dec k t) as [Hin|_]; [contradiction|].
      destruct (in_dec string_dec k (k :: t)) as [_|Hn]; [|simpl in Hn; tauto].
      apply List.app_nil_r.
    + rewrite (Hother h Hne). cbn [app].
      destruct (in_dec string_dec k t) as [Hin|Hn],
               (in_dec string_dec k (h :: t)) as [Hin'|Hn'];
        trivial; simpl in *; tauto.
Qed.

End EngineFacts.

(** * The engine and the parser against their specification *)

Import Str StrFacts RuleFacts FrameFacts EngineFacts.

(** A frame that has the columns but no rows goes through the engine
    without an anomaly and without an exception. *)
Lemma no_rows_no_anomalies {sorter : SortValues} (now : Z) :
  custom_anomaly_detection now (Frame []) = mkRun (Frame []) None (Ok []).
Proof.
  unfold custom_anomaly_detection. cbn [assign_datetime].
  rewrite sort_values_nil. reflexivity.
Qed.

(** C1.  With zero events the engine should return no anomaly and raise
    nothing.  The frame the parser builds from zero records has no columns,
    and on it line 62 raises [KeyError] for the column [timestamp]. *)
Theorem C1_no_events_raises (fromtimestamp : N -> result Z)
        (sorter : SortValues) (now : Z) :
  parse_logs_from_directory fromtimestamp [] = Ok NoColumns
  /\ custom_anomaly_detection now NoColumns
     = mkRun NoColumns None (Raise (KeyError "timestamp")).
Proof. split; reflexivity. Qed.




(** When the conversion of line 62 raises, nothing has been assigned: the
    caller's frame is as it was. *)
Lemma raise_leaves_frame {sorter : SortValues} (now : Z) (df : DataFrame) (e : exn) :
  returned (custom_anomaly_detection now df) = Raise e ->
  frame_after (custom_anomaly_detection now df) = df.
Proof.
  destruct df as [|rows]; cbn [custom_anomaly_detection]; trivial.
  destruct (assign_datetime rows); cbn [returned frame_after]; [discriminate|trivial].
Qed.

(** C3, as stated: after the call the events and their order are as before.
    Two rows given in descending order of time come back exchanged. *)
Lemma C3_caller_frame_reordered :
  let late := mkRow "0x1" 200 "FS" "RUN" "usr" "bob" "/x" "a.vlog" 200 in
  let early := mkRow "0x2" 100 "FS" "RUN" "usr" "bob" "/y" "a.vlog" 100 in
  frame_after (@custom_anomaly_detection stable_sorter 0 (Frame [late; early]))
  = Frame [early; late]
  /\ Frame [early; late] <> Frame [late; early].
Proof. split; [reflexivity | discriminate]. Qed.

(** C3, amended.  A successful call works on the caller's frame: it leaves
    the rows with the [datetime] column overwritten by the converted
    timestamp, every other field as it was, and rearranged in ascending
    order of that column. *)
Theorem C3_frame_sorted_in_place (sorter : SortValues) (now : Z)
        (rows : list Row) (anoms : list Anomaly) :
  returned (custom_anomaly_detection now (Frame rows)) = Ok anoms ->
  exists sorted,
    frame_after (custom_anomaly_detection now (Frame rows)) = Frame sorted
    /\ Permutation (map normalise rows) sorted
    /\ StronglySorted by_datetime sorted.
Proof.
  cbn [custom_anomaly_detection]. rewrite assign_datetime_eq.
  destruct (forallb in_range rows); cbn [returned frame_after]; [|discriminate].
  intros _. exists (sort_values (map normalise rows)).
  split; [reflexivity|]. split; [apply sort_values_perm | apply sort_values_sorted].
Qed.

Lemma C3_frame_sorted_in_place_witness :
  let late := mkRow "0x1" 200 "FS" "RUN" "usr" "bob" "/x" "a.vlog" 7400 in
  let early := mkRow "0x2" 100 "FS" "RUN" "usr" "bob" "/y" "a.vlog" 7300 in
  exists sorted,
    frame_after (@custom_anomaly_detection stable_sorter 0 (Frame [late; early]))
    = Frame sorted
    /\ Permutation (map normalise [late; early]) sorted
    /\ StronglySorted by_datetime sorted.
Proof.
  intros late early.
  apply (C3_frame_sorted_in_place stable_sorter 0 [late; early] []).
  reflexivity.
Defined.

(** *** Rows of equal timestamp

    Both calls of [sort_values] leave the [kind] to its default, so the
    order in which rows of one second come out is the library algorithm's
    and the interface [SortValues] leaves it open.  Under a sort that keeps
    equal keys in place the frames keep the arrival order. *)

Lemma filter_insert (d : Z) (r : Row) (l : list Row) :
  filter (fun x => (datetime x =? d)%Z) (Sorting.insert r l)
  = filter (fun x => (datetime x =? d)%Z) (r :: l).
Proof.
  induction l as [|h t IH]; cbn [Sorting.insert]; [reflexivity|].
  unfold Sorting.not_later.
  destruct (Z.leb_spec (datetime r) (datetime h)) as [Hle|Hgt]; [reflexivity|].
  cbn [filter] in *. rewrite IH.
  destruct (Z.eqb_spec (datetime h) d), (Z.eqb_spec (datetime r) d);
    trivial; lia.
Qed.

Lemma filter_insertion_sort (d : Z) (l : list Row) :
  filter (fun x => (datetime x =? d)%Z) (Sorting.insertion_sort l)
  = filter (fun x => (datetime x =? d)%Z) l.
Proof.
  induction l as [|r l IH]; cbn [Sorting.insertion_sort fold_right]; [reflexivity|].
  fold (Sorting.insertion_sort l). rewrite filter_insert. cbn [filter].
  now rewrite IH.
Qed.

Lemma filter_group_rows (p : Row -> bool) (u : string) (l : list Row) :
  filter p (group_rows u l) = group_rows u (filter p l).
Proof.
  unfold group_rows. induction l as [|r l IH]; cbn [filter]; [reflexivity|].
  destruct (String.eqb (actor r) u) eqn:E, (p r) eqn:F; cbn [filter];
    rewrite ?E, ?F, IH; reflexivity.
Qed.

Lemma filter_timestamp_synced (t : N) (l : list Row) :
  Forall (fun r => datetime r = Z.of_N (timestamp r)) l ->
  filter (fun r => (timestamp r =? t)%N) l
  = filter (fun r => (datetime r =? Z.of_N t)%Z) l.
Proof.
  intros H. apply filter_ext_in. intros r Hr.
  rewrite Forall_forall in H. rewrite (H r Hr).
  destruct (N.eqb_spec (timestamp r) t), (Z.eqb_spec (Z.of_N (timestamp r)) (Z.of_N t));
    trivial; lia.
Qed.

(** Under a sort that keeps equal keys in place ([kind='stable']) the views
    do keep the arrival order of rows with equal timestamps. *)
Lemma stable_kind_keeps_arrival_order (rows : list Row) (u : string) :
  keeps_arrival_order
    (map normalise (group_rows u rows))
    (@sort_values stable_sorter
       (group_rows u (@sort_values stable_sorter (map normalise rows)))).
Proof.
  intros t. cbn [sort_values stable_sorter].
  assert (forall l, Forall (fun r => datetime r = Z.of_N (timestamp r)) (map normalise l))
    as Hn by (intros l; apply Forall_forall; intros r Hr;
              apply in_map_iff in Hr; destruct Hr as [e [<- _]]; reflexivity).
  assert (Forall (fun r => datetime r = Z.of_N (timestamp r))
                 (Sorting.insertion_sort
                    (group_rows u (Sorting.insertion_sort (map normalise rows)))))
    as Hv.
  { apply (Permutation_Forall (@view_perm stable_sorter u rows)). apply Hn. }
  rewrite (filter_timestamp_synced t _ Hv), filter_insertion_sort.
  rewrite filter_group_rows, filter_insertion_sort, <- filter_group_rows.
  rewrite group_rows_normalise. symmetry. apply filter_timestamp_synced, Hn.
Qed.

(** The anomaly of a record of the tagged loops is in the output of
    [detect_actor]. *)
Lemma fired_in_output (u : string) (logs : list Row) (p : Fired -> bool) (f : Fired) :
  filter p (fired_actor u logs) = [f] -> In (emitted f) (detect_actor u logs).
Proof.
  intros H. rewrite <- emitted_fired_actor. apply in_map.
  assert (In f (filter p (fired_actor u logs))) as Hin by (rewrite H; now left).
  now apply filter_In in Hin.
Qed.

Lemma contains_true (s sub : string) : has_substring s sub -> contains sub s = true.
Proof. intros H. now apply contains_spec. Qed.

(** The test of rule 4 on the target decides the condition of the
    specification. *)
Lemma deletes_suspicious_spec (path : string) :
  deletes_suspicious path = true <-> suspicious_deletion path.
Proof.
  unfold deletes_suspicious, suspicious_deletion, endswith_any, contains_any,
    ends_with, has_substring.
  rewrite orb_true_iff, !existsb_exists.
  split; (intros [[x [Hx H]]|[x [Hx H]]]; [left|right]; exists x; split; trivial).
  - now apply endswith_spec.
  - now apply contains_spec.
  - now apply endswith_spec.
  - now apply contains_spec.
Qed.

Lemma forallb_in_range_normalise (rows : list Row) :
  forallb in_range (map normalise rows) = forallb in_range rows.
Proof. induction rows as [|r rows IH]; cbn [map forallb]; [|rewrite IH]; reflexivity. Qed.

(** C7.  The anomalies returned are a function of the events alone: two
    runs on frames that hold the same events return the same anomalies in
    the same order, or raise the same exception, whatever the clock reads
    and whatever the derived [datetime] column held before. *)
Theorem C7_detection_deterministic (sorter : SortValues) (now1 now2 : Z)
        (df1 df2 : DataFrame) :
  same_events df1 df2 ->
  returned (custom_anomaly_detection now1 df1)
  = returned (custom_anomaly_detection now2 df2).
Proof.
  destruct df1 as [|rows1], df2 as [|rows2]; cbn [same_events];
    try contradiction; [reflexivity|].
  intros H. cbn [custom_anomaly_detection]. rewrite !assign_datetime_eq.
  rewrite <- (forallb_in_range_normalise rows1),
          <- (forallb_in_range_normalise rows2), H.
  destruct (forallb in_range (map normalise rows2)); reflexivity.
Qed.

Lemma C7_detection_deterministic_witness :
  let utc := mkRow "0x1" 100 "FS" "RUN" "usr" "bob" "/bin/nc" "a.vlog" 100 in
  let cet := mkRow "0x1" 100 "FS" "RUN" "usr" "bob" "/bin/nc" "a.vlog" 3700 in
  returned (@custom_anomaly_detection stable_sorter 1700000000 (Frame [utc]))
  = returned (@custom_anomaly_detection stable_sorter 1800000000 (Frame [cet])).
Proof.
  intros utc cet.
  apply (C7_detection_deterministic stable_sorter 1700000000 1800000000
           (Frame [utc]) (Frame [cet])).
  reflexivity.
Defined.

Lemma filter_all {A : Type} (p : A -> bool) (l : list A) :
  Forall (fun x => p x = true) l -> filter p l = l.
Proof.
  induction 1 as [|x l Hx _ IH]; cbn [filter]; [reflexivity|].
  now rewrite Hx, IH.
Qed.

Lemma detect_actor_user (u : string) (logs : list Row) :
  Forall (fun a => user a = u) (detect_actor u logs).
Proof.
  apply Forall_forall. intros a Ha. now apply detect_actor_built in Ha.
Qed.

Lemma successful_run {sorter : SortValues} (now : Z) (rows : list Row)
      (anoms : list Anomaly) :
  returned (custom_anomaly_detection now (Frame rows)) = Ok anoms ->
  anoms = flat_map (fun u => detect_actor u
                       (sort_values (group_rows u (sort_values (map normalise rows)))))
                   (group_keys (sort_values (map normalise rows))).
Proof.
  cbn [custom_anomaly_detection]. rewrite assign_datetime_eq.
  destruct (forallb in_range rows); cbn [returned]; [|discriminate].
  intros [= <-]. apply detect_eq.
Qed.

Lemma in_view {sorter : SortValues} (u : string) (rows : list Row) (r : Row) :
  In r (sort_values (group_rows u (sort_values (map normalise rows)))) ->
  exists e, In e rows /\ actor e = u /\ r = normalise e.
Proof.
  intros H. apply (Permutation_in _ (Permutation_sym (view_perm u rows))) in H.
  apply in_map_iff in H. destruct H as [e [<- He]].
  apply filter_In in He. destruct He as [He Hu]. apply String.eqb_eq in Hu.
  eauto.
Qed.

(** C8.  The anomalies attributed to an actor are those of the per-actor
    loop run on a list that holds that actor's events and no other; and
    each anomaly is assembled from two events of the input whose actor is
    the anomaly's user. *)
Theorem C8_actor_isolation (sorter : SortValues) (now : Z) (rows : list Row)
        (anoms : list Anomaly) :
  returned (custom_anomaly_detection now (Frame rows)) = Ok anoms ->
  (forall A, exists view,
      Permutation (map normalise (group_rows A rows)) view
      /\ Forall (fun r => actor r = A) view
      /\ filter (fun a => String.eqb (user a) A) anoms = detect_actor A view)
  /\ (forall a, In a anoms ->
      exists ei ej, In ei rows /\ In ej rows
                    /\ actor ei = user a /\ actor ej = user a
                    /\ built_from a (normalise ei) (normalise ej)).
Proof.
  intros H. apply successful_run in H. subst anoms.
  set (sorted := sort_values (map normalise rows)).
  split.
  - intros A. exists (sort_values (group_rows A sorted)).
    split; [apply view_perm|]. split.
    + apply Forall_forall. intros r Hr. apply in_view in Hr.
      destruct Hr as [e [_ [He ->]]]. exact He.
    + rewrite (filter_flat_map_key _ _ A).
      * destruct (in_dec string_dec A (group_keys sorted)) as [Hin|Hout].
        -- apply filter_all. eapply Forall_impl; [|apply detect_actor_user].
           intros a ->. apply String.eqb_refl.
        -- destruct (group_rows A sorted) as [|r l] eqn:E.
           ++ now rewrite sort_values_nil.
           ++ exfalso. apply Hout. apply in_group_keys. exists r.
              assert (In r (group_rows A sorted)) as Hr by (rewrite E; now left).
              apply filter_In in Hr. destruct Hr as [Hr Hu].
              apply String.eqb_eq in Hu. auto.
      * apply sorted_keys_NoDup, group_keys_sorted.
      * intros m Hm. apply filter_none.
        eapply Forall_impl; [|apply detect_actor_user].
        intros a ->. now apply String.eqb_neq.
  - intros a Ha. apply in_flat_map in Ha. destruct Ha as [u [_ Ha]].
    apply detect_actor_built in Ha.
    destruct Ha as [Hu [row [rj [Hrow [Hrj Hb]]]]].
    apply in_view in Hrow. destruct Hrow as [ei [Hei [Hai ->]]].
    apply in_view in Hrj. destruct Hrj as [ej [Hej [Haj ->]]].
    exists ei, ej. repeat split; trivial; congruence.
Qed.

Lemma C8_actor_isolation_witness :
  let a1 := mkRow "0x1" 100 "FS" "CRE" "usr" "alice" "/tmp/a" "a.vlog" 100 in
  let b1 := mkRow "0x2" 150 "FS" "DEL" "usr" "bob" "/tmp/a" "b.vlog" 150 in
  let a2 := mkRow "0x3" 200 "FS" "DEL" "usr" "alice" "/tmp/a/b" "a.vlog" 200 in
  let rows := [a1; b1; a2] in
  let anoms := [anomaly_rule2 "alice" a1 a2; anomaly_rule4 "alice" a2;
                anomaly_rule4 "bob" b1] in
  (forall A, exists view,
      Permutation (map normalise (group_rows A rows)) view
      /\ Forall (fun r => actor r = A) view
      /\ filter (fun a => String.eqb (user a) A) anoms = detect_actor A view)
  /\ (forall a, In a anoms ->
      exists ei ej, In ei rows /\ In ej rows
                    /\ actor ei = user a /\ actor ej = user a
                    /\ built_from a (normalise ei) (normalise ej)).
Proof.
  intros a1 b1 a2 rows anoms.
  apply (C8_actor_isolation stable_sorter 0 rows anoms).
  reflexivity.
Defined.

(** *** The rules, seen in the anomalies a run returns *)

(** The anomalies of one actor in the output of the outer loop. *)
Lemma actor_anomalies {sorter : SortValues} (A : string) (sorted : list Row) :
  filter (fun a => String.eqb (user a) A) (detect sorted)
  = detect_actor A (sort_values (group_rows A sorted)).
Proof.
  rewrite detect_eq, (filter_flat_map_key _ _ A).
  - destruct (in_dec string_dec A (group_keys sorted)) as [Hin|Hout].
    + apply filter_all. eapply Forall_impl; [|apply detect_actor_user].
      intros a ->. apply String.eqb_refl.
    + destruct (group_rows A sorted) as [|r l] eqn:E.
      * now rewrite sort_values_nil.
      * exfalso. apply Hout. apply in_group_keys. exists r.
        assert (In r (group_rows A sorted)) as Hr by (rewrite E; now left).
        apply filter_In in Hr. destruct Hr as [Hr Hu].
        apply String.eqb_eq in Hu. auto.
  - apply sorted_keys_NoDup, group_keys_sorted.
  - intros m Hm. apply filter_none.
    eapply Forall_impl; [|apply detect_actor_user].
    intros a ->. now apply String.eqb_neq.
Qed.

(** A run whose conversion of line 62 succeeds, seen from one of the
    per-actor frames of its outer loop: the run returns; the anomalies it
    returns for the actor are those of the records of the loop over that
    frame, in order; and every row of the frame carries its timestamp in
    the [datetime] column. *)
Lemma run_of_view {sorter : SortValues} (now : Z) (rows rows' : list Row)
      (u : string) (logs : list Row) :
  assign_datetime rows = Ok rows' ->
  In (u, logs) (actor_views (sort_values rows')) ->
  returned (custom_anomaly_detection now (Frame rows))
  = Ok (detect (sort_values rows'))
  /\ filter (fun a => String.eqb (user a) u) (detect (sort_values rows'))
     = map emitted (fired_actor u logs)
  /\ (forall a, In a (detect_actor u logs) -> In a (detect (sort_values rows')))
  /\ Forall (fun r => datetime r = Z.of_N (timestamp r)) logs.
Proof.
  intros H Hv. split; [|split; [|split]].
  - cbn [custom_anomaly_detection]. now rewrite H.
  - apply in_actor_views in Hv. destruct Hv as [_ ->].
    rewrite actor_anomalies. symmetry. apply emitted_fired_actor.
  - intros a Ha. unfold detect. apply in_flat_map. exists (u, logs). now split.
  - apply assign_datetime_ok in H. subst rows'.
    apply in_actor_views in Hv. destruct Hv as [_ ->].
    apply Forall_forall. intros r Hr. apply in_view in Hr.
    destruct Hr as [e [_ [_ ->]]]. reflexivity.
Qed.

Lemma synced_at (logs : list Row) (i : nat) (row : Row) :
  Forall (fun r => datetime r = Z.of_N (timestamp r)) logs ->
  nth_error logs i = Some row -> datetime row = Z.of_N (timestamp row).
Proof.
  intros Hs Hi. apply nth_error_In in Hi. rewrite Forall_forall in Hs. auto.
Qed.

(** Loops over ranges of indices, and filters of loops. *)

Lemma flat_map_ext_in {A B : Type} (f g : A -> list B) (l : list A) :
  (forall x, In x l -> f x = g x) -> flat_map f l = flat_map g l.
Proof.
  induction l as [|x l IH]; intros H; cbn [flat_map]; [reflexivity|].
  rewrite (H x) by now left. rewrite IH; [reflexivity|].
  intros y Hy. apply H. now right.
Qed.

Lemma nth_error_firstn_lt {A : Type} (n j : nat) (l : list A) :
  j < n -> nth_error (firstn n l) j = nth_error l j.
Proof.
  revert j l. induction n as [|n IH]; intros j l Hj; [lia|].
  destruct l as [|x l]; [reflexivity|].
  destruct j as [|j]; [reflexivity|].
  cbn [firstn nth_error]. apply IH. lia.
Qed.

Lemma window_firstn (i : nat) (logs : list Row) :
  window i (firstn (i + 6) logs) = window i logs.
Proof. unfold window. rewrite length_firstn. f_equal. lia. Qed.

Lemma filter_each {A B : Type} (p : B -> bool) (f : A -> list B) (l : list A) :
  filter p (flat_map f l) = flat_map (fun x => filter p (f x)) l.
Proof.
  induction l as [|x l IH]; cbn [flat_map]; [reflexivity|].
  now rewrite filter_app, IH.
Qed.

(** A loop over the indices of a list whose body reads only the row. *)
Lemma flat_map_rows {B : Type} (g : Row -> list B) (logs : list Row) :
  flat_map (fun i => match nth_error logs i with
                     | Some row => g row
                     | None => []
                     end) (seq 0 (length logs))
  = flat_map g logs.
Proof.
  enough (forall pre,
            flat_map (fun i => match nth_error (pre ++ logs) i with
                               | Some row => g row
                               | None => []
                               end) (seq (length pre) (length logs))
            = flat_map g logs) as H by exact (H []).
  induction logs as [|r logs IH]; intros pre; cbn [length seq flat_map];
    [reflexivity|].
  rewrite nth_error_app2, Nat.sub_diag by lia. cbn [nth_error]. f_equal.
  specialize (IH (pre ++ [r])).
  rewrite <- List.app_assoc, length_app in IH. cbn [length app] in IH.
  rewrite Nat.add_1_r in IH. exact IH.
Qed.

(** A loop over the indices of a segment of a list whose body reads only
    the row. *)
Lemma flat_map_segment {B : Type} (g : Row -> list B) (pre mid post : list Row) :
  flat_map (fun j => match nth_error (pre ++ mid ++ post) j with
                     | Some rj => g rj
                     | None => []
                     end) (seq (length pre) (length mid))
  = flat_map g mid.
Proof.
  revert pre. induction mid as [|r mid IH]; intros pre;
    cbn [length seq flat_map]; [reflexivity|].
  rewrite nth_error_app2, Nat.sub_diag by lia. cbn [app nth_error]. f_equal.
  specialize (IH (pre ++ [r])).
  rewrite <- List.app_assoc, length_app in IH. cbn [length app] in IH.
  rewrite Nat.add_1_r in IH. exact IH.
Qed.

Lemma flat_map_if {A B : Type} (p : A -> bool) (f : A -> B) (l : list A) :
  flat_map (fun x => if p x then [f x] else []) l = map f (filter p l).
Proof.
  induction l as [|x l IH]; cbn [flat_map filter]; [reflexivity|].
  rewrite IH. now destruct (p x).
Qed.

(** The window of the look-ahead rules. *)

(** What is appended while row [i] is under inspection does not depend on
    the rows from [i+6] on. *)
Lemma detect_row_window (u : string) (logs : list Row) (i : nat) (row : Row) :
  detect_row u logs i row = detect_row u (firstn (i + 6) logs) i row.
Proof.
  assert (forall j, In j (window i logs) ->
                    nth_error (firstn (i + 6) logs) j = nth_error logs j) as Hn.
  { intros j Hj. apply in_window in Hj. apply nth_error_firstn_lt. lia. }
  unfold detect_row. f_equal; [|f_equal].
  - unfold rule1. destruct (contains "SHD" (action row)); trivial.
    rewrite window_firstn. apply flat_map_ext_in.
    intros j Hj. now rewrite Hn.
  - unfold rule2. destruct (contains "CRE" (action row)); trivial.
    rewrite window_firstn. apply flat_map_ext_in.
    intros j Hj. now rewrite Hn.
Qed.

(** The loop over [range(i+1, min(i+6, len(logs)))] visits the next five
    rows, as far as the frame goes. *)
Lemma window_rows {B : Type} (g : Row -> list B) (i : nat) (logs : list Row) :
  i < length logs ->
  flat_map (fun j => match nth_error logs j with
                     | Some rj => g rj
                     | None => []
                     end) (window i logs)
  = flat_map g (next_rows i logs).
Proof.
  intros Hi. unfold window, next_rows.
  pose proof (flat_map_segment g (firstn (i + 1) logs)
                (firstn 5 (skipn (i + 1) logs))
                (skipn 5 (skipn (i + 1) logs))) as H.
  rewrite !firstn_skipn in H.
  rewrite !length_firstn, length_skipn in H.
  replace (Nat.min (i + 1) (length logs)) with (i + 1) in H by lia.
  replace (Nat.min 5 (length logs - (i + 1)))
    with (Nat.min (i + 6) (length logs) - (i + 1)) in H by lia.
  exact H.
Qed.

Lemma rule1_next_rows (u : string) (logs : list Row) (i : nat) (row : Row) :
  nth_error logs i = Some row ->
  rule1 u logs i row
  = if contains "SHD" (action row)
    then map (anomaly_rule1 u row)
             (filter (fun rj => contains "DEL" (action rj)
                                && within_600 (datetime row) (datetime rj))
                     (next_rows i logs))
    else [].
Proof.
  intros Hi. unfold rule1. destruct (contains "SHD" (action row)); trivial.
  assert (i < length logs) as Hlt by (apply nth_error_Some; congruence).
  rewrite <- flat_map_if, <- (window_rows _ i logs Hlt).
  apply flat_map_ext. intros j. destruct (nth_error logs j) as [rj|]; trivial.
  destruct (contains "DEL" (action rj)); trivial.
Qed.

Lemma rule2_next_rows (u : string) (logs : list Row) (i : nat) (row : Row) :
  nth_error logs i = Some row ->
  rule2 u logs i row
  = if contains "CRE" (action row)
    then map (anomaly_rule2 u row)
             (filter (fun rj => contains "DEL" (action rj)
                                && contains (target row) (target rj))
                     (next_rows i logs))
    else [].
Proof.
  intros Hi. unfold rule2. destruct (contains "CRE" (action row)); trivial.
  assert (i < length logs) as Hlt by (apply nth_error_Some; congruence).
  rewrite <- flat_map_if, <- (window_rows _ i logs Hlt).
  apply flat_map_ext. intros j. destruct (nth_error logs j) as [rj|]; trivial.
Qed.

Lemma in_next_rows (i : nat) (logs : list Row) (r : Row) :
  In r (next_rows i logs) -> In r logs.
Proof.
  unfold next_rows. intros H.
  rewrite <- (firstn_skipn (i + 1) logs). apply in_or_app. right.
  rewrite <- (firstn_skipn 5 (skipn (i + 1) logs)). apply in_or_app. now left.
Qed.

(** The [reason] tells the four rules apart. *)

Lemma other_reason (s t : string) (l : list Anomaly) :
  Forall (fun a => reason a = t) l -> String.eqb t s = false ->
  filter (has_reason s) l = [].
Proof.
  intros H Hne. apply filter_none. eapply Forall_impl; [|exact H].
  intros a Ha. unfold has_reason. now rewrite Ha.
Qed.

Lemma same_reason (s : string) (l : list Anomaly) :
  Forall (fun a => reason a = s) l -> filter (has_reason s) l = l.
Proof.
  intros H. apply filter_all. eapply Forall_impl; [|exact H].
  intros a Ha. unfold has_reason. rewrite Ha. apply String.eqb_refl.
Qed.

Lemma rule1_reason (u : string) (logs : list Row) (i : nat) (row : Row) :
  Forall (fun a => reason a = "Shadow load followed by process delete")
         (rule1 u logs i row).
Proof.
  apply Forall_forall. intros a Ha. unfold rule1 in Ha.
  destruct (contains "SHD" (action row)); [|contradiction].
  apply in_flat_map in Ha. destruct Ha as [j [_ Hj]].
  destruct (nth_error logs j) as [rj|]; [|contradiction].
  destruct (contains "DEL" (action rj)); [|contradiction].
  destruct (within_600 _ _); [|contradiction].
  now destruct Hj as [<-|[]].
Qed.

Lemma rule2_reason (u : string) (logs : list Row) (i : nat) (row : Row) :
  Forall (fun a => reason a = "Created then deleted same file")
         (rule2 u logs i row).
Proof.
  apply Forall_forall. intros a Ha. unfold rule2 in Ha.
  destruct (contains "CRE" (action row)); [|contradiction].
  apply in_flat_map in Ha. destruct Ha as [j [_ Hj]].
  destruct (nth_error logs j) as [rj|]; [|contradiction].
  destruct (_ && _); [|contradiction].
  now destruct Hj as [<-|[]].
Qed.

Lemma rule3_reason (u : string) (row : Row) :
  Forall (fun a => reason a = "Suspicious binary executed") (rule3 u row).
Proof.
  unfold rule3. destruct (contains "RUN" (action row)); [|constructor].
  destruct (contains_any _ _); repeat constructor.
Qed.

Lemma rule4_reason (u : string) (row : Row) :
  Forall (fun a => reason a = "Deleted binary/suspicious executable file")
         (rule4 u row).
Proof.
  unfold rule4. destruct (contains "DEL" (action row)); [|constructor].
  destruct (deletes_suspicious _); repeat constructor.
Qed.

(** The anomalies of rule 1 in the output of one actor's loop. *)
Lemma rule1_anomalies (u : string) (logs : list Row) :
  Forall (fun r => datetime r = Z.of_N (timestamp r)) logs ->
  filter (has_reason "Shadow load followed by process delete")
         (detect_actor u logs)
  = lookahead_anomalies
      (fun row => contains "SHD" (action row))
      (fun row rj => contains "DEL" (action rj)
                     && (Z.of_N (timestamp rj) - Z.of_N (timestamp row) <=? 600)%Z)
      (anomaly_rule1 u) logs.
Proof.
  intros Hs. rewrite Forall_forall in Hs.
  unfold detect_actor, lookahead_anomalies. rewrite filter_each.
  apply flat_map_ext. intros i. destruct (nth_error logs i) as [row|] eqn:Hi; trivial.
  unfold detect_row. rewrite !filter_app.
  rewrite (same_reason _ _ (rule1_reason u logs i row)).
  rewrite (other_reason _ _ _ (rule2_reason u logs i row)) by reflexivity.
  rewrite (other_reason _ _ _ (rule3_reason u row)) by reflexivity.
  rewrite (other_reason _ _ _ (rule4_reason u row)) by reflexivity.
  cbn [app]. rewrite List.app_nil_r, (rule1_next_rows u logs i row Hi).
  destruct (contains "SHD" (action row)); trivial. f_equal.
  apply filter_ext_in. intros rj Hj. unfold within_600.
  rewrite (Hs row (nth_error_In _ _ Hi)), (Hs rj (in_next_rows _ _ _ Hj)).
  reflexivity.
Qed.

(** The anomalies of rule 2 in the output of one actor's loop. *)
Lemma rule2_anomalies (u : string) (logs : list Row) :
  filter (has_reason "Created then deleted same file") (detect_actor u logs)
  = lookahead_anomalies
      (fun row => contains "CRE" (action row))
      (fun row rj => contains "DEL" (action rj)
                     && contains (target row) (target rj))
      (anomaly_rule2 u) logs.
Proof.
  unfold detect_actor, lookahead_anomalies. rewrite filter_each.
  apply flat_map_ext. intros i. destruct (nth_error logs i) as [row|] eqn:Hi; trivial.
  unfold detect_row. rewrite !filter_app.
  rewrite (other_reason _ _ _ (rule1_reason u logs i row)) by reflexivity.
  rewrite (same_reason _ _ (rule2_reason u logs i row)).
  rewrite (other_reason _ _ _ (rule3_reason u row)) by reflexivity.
  rewrite (other_reason _ _ _ (rule4_reason u row)) by reflexivity.
  cbn [app]. rewrite List.app_nil_r. apply (rule2_next_rows u logs i row Hi).
Qed.

(** The anomalies of rule 3 in the output of one actor's loop: one for each
    row that meets the rule's condition, in the order of the rows. *)
Lemma rule3_anomalies (u : string) (logs : list Row) :
  filter (has_reason "Suspicious binary executed") (detect_actor u logs)
  = map (anomaly_rule3 u)
        (filter (fun r => contains "RUN" (action r)
                          && contains_any suspicious_binaries (target r)) logs).
Proof.
  unfold detect_actor. rewrite filter_each.
  rewrite (flat_map_ext _ (fun i => match nth_error logs i with
                                    | Some row => rule3 u row
                                    | None => []
                                    end)).
  - rewrite flat_map_rows. induction logs as [|r logs IH]; [reflexivity|].
    cbn [flat_map filter]. rewrite IH. unfold rule3.
    destruct (contains "RUN" (action r)); cbn [andb]; trivial.
    destruct (contains_any _ _); reflexivity.
  - intros i. destruct (nth_error logs i) as [row|]; trivial.
    unfold detect_row. rewrite !filter_app.
    rewrite (other_reason _ _ _ (rule1_reason u logs i row)) by reflexivity.
    rewrite (other_reason _ _ _ (rule2_reason u logs i row)) by reflexivity.
    rewrite (other_reason _ _ _ (rule4_reason u row)) by reflexivity.
    rewrite (same_reason _ _ (rule3_reason u row)).
    cbn [app]. apply List.app_nil_r.
Qed.

(** The anomalies of rule 4 in the output of one actor's loop. *)
Lemma rule4_anomalies (u : string) (logs : list Row) :
  filter (has_reason "Deleted binary/suspicious executable file")
         (detect_actor u logs)
  = map (anomaly_rule4 u)
        (filter (fun r => contains "DEL" (action r)
                          && deletes_suspicious (target r)) logs).
Proof.
  unfold detect_actor. rewrite filter_each.
  rewrite (flat_map_ext _ (fun i => match nth_error logs i with
                                    | Some row => rule4 u row
                                    | None => []
                                    end)).
  - rewrite flat_map_rows. induction logs as [|r logs IH]; [reflexivity|].
    cbn [flat_map filter]. rewrite IH. unfold rule4.
    destruct (contains "DEL" (action r)); cbn [andb]; trivial.
    destruct (deletes_suspicious _); reflexivity.
  - intros i. destruct (nth_error logs i) as [row|]; trivial.
    unfold detect_row. rewrite !filter_app.
    rewrite (other_reason _ _ _ (rule1_reason u logs i row)) by reflexivity.
    rewrite (other_reason _ _ _ (rule2_reason u logs i row)) by reflexivity.
    rewrite (other_reason _ _ _ (rule3_reason u row)) by reflexivity.
    rewrite (same_reason _ _ (rule4_reason u row)).
    reflexivity.
Qed.

(** C5.  Rule 1 compares the distance in time with 600 seconds, bound
    included.  In a run that returns, take the frame of one actor, a row
    [i] of it with SHD in its action and a row [j] of the window with DEL
    in its action.  The anomalies returned for the actor are those of the
    records of the loop over the frame; the loop has its record for the
    trigger [i] and the row [j], once, exactly when row [j] is at most 600
    seconds later than row [i], and has none exactly when it is more than
    600 seconds later; in the first case the anomaly is among those the run
    returns.  Taken together, the anomalies with the reason of rule 1
    returned for the actor are, for each row with SHD in its action in turn,
    one for each of the next five rows that has DEL in its action and a
    timestamp at most 600 seconds later. *)
Theorem C5_rule1_time_bound (sorter : SortValues) (now : Z)
        (rows rows' : list Row) (u : string) (logs : list Row) (i j : nat)
        (row rj : Row) :
  assign_datetime rows = Ok rows' ->
  In (u, logs) (actor_views (sort_values rows')) ->
  nth_error logs i = Some row ->
  nth_error logs j = Some rj ->
  i + 1 <= j <= i + 5 ->
  has_substring (action row) "SHD" ->
  has_substring (action rj) "DEL" ->
  let elapsed := (Z.of_N (timestamp rj) - Z.of_N (timestamp row))%Z in
  exists anoms,
    returned (custom_anomaly_detection now (Frame rows)) = Ok anoms
    /\ filter (fun a => String.eqb (user a) u) anoms
       = map emitted (fired_actor u logs)
    /\ (filter (keyed i R1 j) (fired_actor u logs)
        = [mkFired i R1 j (anomaly_rule1 u row rj)] <-> (elapsed <= 600)%Z)
    /\ (filter (keyed i R1 j) (fired_actor u logs) = [] <-> (600 < elapsed)%Z)
    /\ ((elapsed <= 600)%Z -> In (anomaly_rule1 u row rj) anoms)
    /\ filter (has_reason "Shadow load followed by process delete")
              (filter (fun a => String.eqb (user a) u) anoms)
       = lookahead_anomalies
           (fun r => contains "SHD" (action r))
           (fun r r' => contains "DEL" (action r')
                        && (Z.of_N (timestamp r') - Z.of_N (timestamp r) <=? 600)%Z)
           (anomaly_rule1 u) logs.
Proof.
  intros Ha Hv Hi Hj Hw Hshd Hdel elapsed.
  destruct (run_of_view now rows rows' u logs Ha Hv) as (Hrun & Huser & Hin & Hs).
  exists (detect (sort_values rows')).
  split; [exact Hrun|]. split; [exact Huser|].
  assert (filter (keyed i R1 j) (fired_actor u logs)
          = if (elapsed <=? 600)%Z
            then [mkFired i R1 j (anomaly_rule1 u row rj)] else []) as E.
  { rewrite keyed_rule1, Hi, Hj.
    rewrite (contains_true _ _ Hshd), (contains_true _ _ Hdel).
    destruct (Nat.leb_spec (i + 1) j); [|lia].
    destruct (Nat.leb_spec j (i + 5)); [|lia].
    cbn [andb]. unfold within_600.
    rewrite (synced_at logs i row Hs Hi), (synced_at logs j rj Hs Hj).
    reflexivity. }
  assert (filter (has_reason "Shadow load followed by process delete")
                 (filter (fun a => String.eqb (user a) u)
                         (detect (sort_values rows')))
          = lookahead_anomalies
              (fun r => contains "SHD" (action r))
              (fun r r' => contains "DEL" (action r')
                           && (Z.of_N (timestamp r') - Z.of_N (timestamp r) <=? 600)%Z)
              (anomaly_rule1 u) logs) as Hall.
  { rewrite Huser, emitted_fired_actor. now apply rule1_anomalies. }
  destruct (Z.leb_spec elapsed 600) as [Hle|Hgt].
  - split; [tauto|]. split; [|split; [|exact Hall]].
    + rewrite E. split; [discriminate | lia].
    + intros _. apply Hin. now apply (fired_in_output _ _ _ _ E).
  - split; [|split; [tauto | split; [lia | exact Hall]]].
    rewrite E. split; [discriminate | lia].
Qed.

Lemma C5_rule1_time_bound_witness :
  let shd := mkRow "0x1" 1000 "FS" "SHD" "usr" "bob" "/lib/x" "a.vlog" 4600 in
  let del := mkRow "0x2" 1600 "FS" "DEL" "usr" "bob" "/lib/y" "a.vlog" 5200 in
  let row := normalise shd in
  let rj := normalise del in
  let logs := [row; rj] in
  let elapsed := (Z.of_N (timestamp rj) - Z.of_N (timestamp row))%Z in
  exists anoms,
    returned (@custom_anomaly_detection stable_sorter 0 (Frame [del; shd]))
    = Ok anoms
    /\ filter (fun a => String.eqb (user a) "bob") anoms
       = map emitted (fired_actor "bob" logs)
    /\ (filter (keyed 0 R1 1) (fired_actor "bob" logs)
        = [mkFired 0 R1 1 (anomaly_rule1 "bob" row rj)] <-> (elapsed <= 600)%Z)
    /\ (filter (keyed 0 R1 1) (fired_actor "bob" logs) = [] <-> (600 < elapsed)%Z)
    /\ ((elapsed <= 600)%Z -> In (anomaly_rule1 "bob" row rj) anoms)
    /\ filter (has_reason "Shadow load followed by process delete")
              (filter (fun a => String.eqb (user a) "bob") anoms)
       = lookahead_anomalies
           (fun r => contains "SHD" (action r))
           (fun r r' => contains "DEL" (action r')
                        && (Z.of_N (timestamp r') - Z.of_N (timestamp r) <=? 600)%Z)
           (anomaly_rule1 "bob") logs.
Proof.
  intros shd del row rj logs.
  apply (C5_rule1_time_bound stable_sorter 0 [del; shd] [rj; row] "bob" logs
           0 1 row rj); try reflexivity; try lia.
  - left. reflexivity.
  - now exists EmptyString, EmptyString.
  - now exists EmptyString, EmptyString.
Defined.

(** C6.  Rules 1 and 2 look at the rows [i+1] to [i+5] only, as far as the
    frame goes.  In a run that returns, take the frame of one actor.  The
    anomalies returned for the actor are those of the records of the loop
    over the frame, and they are what the loop appends when each row [i] is
    shown the rows up to [i+5] and none after.  Those with the reason of
    rule 1, and those with the reason of rule 2, are one for each of the
    next five rows that completes the pattern of a row that starts it.
    Every record of rule 1 or 2 ends at a row between [i+1] and [i+5] within
    the frame, none ends at row [i+6] or later, and each row of the window
    that meets the rule's condition has a record of its own, whose anomaly
    the run returns. *)
Theorem C6_lookahead_window (sorter : SortValues) (now : Z)
        (rows rows' : list Row) (u : string) (logs : list Row) :
  assign_datetime rows = Ok rows' ->
  In (u, logs) (actor_views (sort_values rows')) ->
  exists anoms,
    returned (custom_anomaly_detection now (Frame rows)) = Ok anoms
    /\ filter (fun a => String.eqb (user a) u) anoms
       = map emitted (fired_actor u logs)
    /\ filter (fun a => String.eqb (user a) u) anoms
       = flat_map (fun i =>
           match nth_error logs i with
           | Some row => detect_row u (firstn (i + 6) logs) i row
           | None => []
           end) (seq 0 (length logs))
    /\ filter (has_reason "Shadow load followed by process delete")
              (filter (fun a => String.eqb (user a) u) anoms)
       = lookahead_anomalies
           (fun r => contains "SHD" (action r))
           (fun r r' => contains "DEL" (action r')
                        && (Z.of_N (timestamp r') - Z.of_N (timestamp r) <=? 600)%Z)
           (anomaly_rule1 u) logs
    /\ filter (has_reason "Created then deleted same file")
              (filter (fun a => String.eqb (user a) u) anoms)
       = lookahead_anomalies
           (fun r => contains "CRE" (action r))
           (fun r r' => contains "DEL" (action r')
                        && contains (target r) (target r'))
           (anomaly_rule2 u) logs
    /\ (forall f, In f (fired_actor u logs) ->
          by_rule f = R1 \/ by_rule f = R2 ->
          trigger f + 1 <= terminal f
          <= Nat.min (trigger f + 5) (length logs - 1))
    /\ (forall i j, i + 6 <= j ->
          filter (keyed i R1 j) (fired_actor u logs) = []
          /\ filter (keyed i R2 j) (fired_actor u logs) = [])
    /\ (forall i j row rj,
          nth_error logs i = Some row ->
          nth_error logs j = Some rj ->
          i + 1 <= j <= i + 5 ->
          has_substring (action rj) "DEL" ->
          (has_substring (action row) "SHD" ->
           (datetime rj - datetime row <= 600)%Z ->
           filter (keyed i R1 j) (fired_actor u logs)
           = [mkFired i R1 j (anomaly_rule1 u row rj)]
           /\ In (anomaly_rule1 u row rj) anoms)
          /\ (has_substring (action row) "CRE" ->
              has_substring (target rj) (target row) ->
              filter (keyed i R2 j) (fired_actor u logs)
              = [mkFired i R2 j (anomaly_rule2 u row rj)]
              /\ In (anomaly_rule2 u row rj) anoms)).
Proof.
  intros Ha Hv.
  destruct (run_of_view now rows rows' u logs Ha Hv) as (Hrun & Huser & Hin & Hs).
  exists (detect (sort_values rows')).
  split; [exact Hrun|]. split; [exact Huser|].
  split; [|split; [|split; [|split; [|split]]]].
  - rewrite Huser, emitted_fired_actor. unfold detect_actor.
    apply flat_map_ext. intros i. destruct (nth_error logs i) as [row|]; trivial.
    apply detect_row_window.
  - rewrite Huser, emitted_fired_actor. now apply rule1_anomalies.
  - rewrite Huser, emitted_fired_actor. apply rule2_anomalies.
  - intros f Hf Hr.
    assert (keyed (trigger f) (by_rule f) (terminal f) f = true) as Hk.
    { unfold keyed. rewrite !Nat.eqb_refl. now destruct (by_rule f). }
    assert (In f (filter (keyed (trigger f) (by_rule f) (terminal f))
                         (fired_actor u logs))) as Hf'
        by (apply filter_In; auto).
    destruct Hr as [Hr|Hr]; rewrite Hr in Hf';
      [rewrite keyed_rule1 in Hf' | rewrite keyed_rule2 in Hf'];
      destruct (nth_error logs (trigger f)) as [row|]; try contradiction;
      destruct (nth_error logs (terminal f)) as [rj|] eqn:Ej; try contradiction;
      (assert (terminal f < length logs) by (apply nth_error_Some; congruence));
      destruct (contains _ (action row)); cbn [andb] in Hf'; try contradiction;
      destruct (Nat.leb_spec (trigger f + 1) (terminal f));
      cbn [andb] in Hf'; try contradiction;
      destruct (Nat.leb_spec (terminal f) (trigger f + 5));
      cbn [andb] in Hf'; try contradiction; lia.
  - intros i j Hfar. rewrite keyed_rule1, keyed_rule2.
    destruct (nth_error logs i) as [row|]; [|auto].
    destruct (nth_error logs j) as [rj|]; [|auto].
    destruct (Nat.leb_spec j (i + 5)); [lia|].
    rewrite !andb_false_r. cbn [andb]. auto.
  - intros i j row rj Hi Hj Hw Hdel.
    assert (filter (keyed i R1 j) (fired_actor u logs)
            = if contains "SHD" (action row)
                 && within_600 (datetime row) (datetime rj)
              then [mkFired i R1 j (anomaly_rule1 u row rj)] else []) as E1.
    { rewrite keyed_rule1, Hi, Hj, (contains_true _ _ Hdel).
      destruct (Nat.leb_spec (i + 1) j); [|lia].
      destruct (Nat.leb_spec j (i + 5)); [|lia].
      now rewrite !andb_true_r. }
    assert (filter (keyed i R2 j) (fired_actor u logs)
            = if contains "CRE" (action row)
                 && contains (target row) (target rj)
              then [mkFired i R2 j (anomaly_rule2 u row rj)] else []) as E2.
    { rewrite keyed_rule2, Hi, Hj, (contains_true _ _ Hdel).
      destruct (Nat.leb_spec (i + 1) j); [|lia].
      destruct (Nat.leb_spec j (i + 5)); [|lia].
      now rewrite !andb_true_r. }
    split.
    + intros Hshd Ht. rewrite (contains_true _ _ Hshd) in E1.
      unfold within_600 in E1.
      destruct (Z.leb_spec (datetime rj - datetime row) 600); [|lia].
      cbn [andb] in E1. split; [exact E1|].
      apply Hin. now apply (fired_in_output _ _ _ _ E1).
    + intros Hcre Hsub.
      rewrite (contains_true _ _ Hcre), (contains_true _ _ Hsub) in E2.
      cbn [andb] in E2. split; [exact E2|].
      apply Hin. now apply (fired_in_output _ _ _ _ E2).
Qed.

Lemma C6_lookahead_window_witness :
  let shd := mkRow "0x1" 10 "FS" "SHD" "usr" "bob" "/lib/x" "a.vlog" 0 in
  let del := mkRow "0x2" 20 "FS" "DEL" "usr" "bob" "/lib/y" "a.vlog" 0 in
  let n3 := mkRow "0x3" 30 "FS" "NOP" "usr" "bob" "/lib/z" "a.vlog" 0 in
  let n4 := mkRow "0x4" 31 "FS" "NOP" "usr" "bob" "/lib/z" "a.vlog" 0 in
  let n5 := mkRow "0x5" 32 "FS" "NOP" "usr" "bob" "/lib/z" "a.vlog" 0 in
  let n6 := mkRow "0x6" 33 "FS" "NOP" "usr" "bob" "/lib/z" "a.vlog" 0 in
  let far := mkRow "0x7" 40 "FS" "DEL" "usr" "bob" "/lib/w" "a.vlog" 0 in
  let rows := [far; n6; n5; n4; n3; del; shd] in
  let logs := map normalise [shd; del; n3; n4; n5; n6; far] in
  exists anoms,
    returned (@custom_anomaly_detection stable_sorter 0 (Frame rows)) = Ok anoms
    /\ filter (fun a => String.eqb (user a) "bob") anoms
       = map emitted (fired_actor "bob" logs)
    /\ filter (keyed 0 R1 1) (fired_actor "bob" logs)
       = [mkFired 0 R1 1 (anomaly_rule1 "bob" (normalise shd) (normalise del))]
    /\ In (anomaly_rule1 "bob" (normalise shd) (normalise del)) anoms
    /\ filter (keyed 0 R1 6) (fired_actor "bob" logs) = [].
Proof.
  intros shd del n3 n4 n5 n6 far rows logs.
  destruct (C6_lookahead_window stable_sorter 0 rows (map normalise rows)
              "bob" logs)
    as (anoms & Hrun & Huser & _ & _ & _ & _ & Hfar & Hnear).
  - reflexivity.
  - left. reflexivity.
  - exists anoms. split; [exact Hrun|]. split; [exact Huser|].
    destruct (Hnear 0 1 (normalise shd) (normalise del)) as [H1 _];
      try reflexivity; try lia.
    + now exists EmptyString, EmptyString.
    + destruct H1 as [Hrec Hin].
      * now exists EmptyString, EmptyString.
      * cbn. lia.
      * split; [exact Hrec|]. split; [exact Hin|]. apply (Hfar 0 6). lia.
Defined.

(** C9.  Rule 4 looks at the row under inspection only.  In a run that
    returns, take the frame of one actor and a row [i] of it with DEL in its
    action.  The anomalies returned for the actor are those of the records
    of the loop over the frame; the loop has one record of rule 4 for row
    [i], of severity High and with the reason of rule 4, exactly when the
    target ends with one of the four extensions or contains one of the four
    paths, and has none otherwise; in the first case the anomaly is among
    those returned.  Taken together, the anomalies with the reason of rule 4
    returned for the actor are one for each row of the frame that has DEL in
    its action and such a target, in the order of the rows. *)
Theorem C9_rule4_immediate (sorter : SortValues) (now : Z)
        (rows rows' : list Row) (u : string) (logs : list Row) (i : nat)
        (row : Row) :
  assign_datetime rows = Ok rows' ->
  In (u, logs) (actor_views (sort_values rows')) ->
  nth_error logs i = Some row ->
  has_substring (action row) "DEL" ->
  exists anoms,
    returned (custom_anomaly_detection now (Frame rows)) = Ok anoms
    /\ filter (fun a => String.eqb (user a) u) anoms
       = map emitted (fired_actor u logs)
    /\ (filter (at_rule i R4) (fired_actor u logs)
        = [mkFired i R4 i (anomaly_rule4 u row)]
        <-> suspicious_deletion (target row))
    /\ (filter (at_rule i R4) (fired_actor u logs) = []
        <-> ~ suspicious_deletion (target row))
    /\ severity (anomaly_rule4 u row) = "High"
    /\ reason (anomaly_rule4 u row) = "Deleted binary/suspicious executable file"
    /\ (suspicious_deletion (target row) -> In (anomaly_rule4 u row) anoms)
    /\ filter (has_reason "Deleted binary/suspicious executable file")
              (filter (fun a => String.eqb (user a) u) anoms)
       = map (anomaly_rule4 u)
             (filter (fun r => contains "DEL" (action r)
                               && deletes_suspicious (target r)) logs).
Proof.
  intros Ha Hv Hi Hdel.
  destruct (run_of_view now rows rows' u logs Ha Hv) as (Hrun & Huser & Hin & _).
  exists (detect (sort_values rows')).
  split; [exact Hrun|]. split; [exact Huser|].
  assert (filter (at_rule i R4) (fired_actor u logs)
          = if deletes_suspicious (target row)
            then [mkFired i R4 i (anomaly_rule4 u row)] else []) as E.
  { now rewrite at_rule4, Hi, (contains_true _ _ Hdel). }
  assert (filter (has_reason "Deleted binary/suspicious executable file")
                 (filter (fun a => String.eqb (user a) u)
                         (detect (sort_values rows')))
          = map (anomaly_rule4 u)
                (filter (fun r => contains "DEL" (action r)
                                  && deletes_suspicious (target r)) logs)) as Hall.
  { rewrite Huser, emitted_fired_actor. apply rule4_anomalies. }
  pose proof (deletes_suspicious_spec (target row)) as Hs.
  destruct (deletes_suspicious (target row)).
  - assert (suspicious_deletion (target row)) as Hyes by now apply Hs.
    repeat split; trivial.
    + rewrite E. discriminate.
    + tauto.
    + intros _. apply Hin. now apply (fired_in_output _ _ _ _ E).
  - assert (~ suspicious_deletion (target row)) as Hno
        by (intros H; apply Hs in H; discriminate).
    repeat split; trivial; try tauto.
    rewrite E. discriminate.
Qed.

Lemma C9_rule4_immediate_witness :
  let del := mkRow "0x2" 20 "FS" "DEL" "usr" "bob" "/usr/local/bin/tool.so"
                   "a.vlog" 0 in
  let row := normalise del in
  exists anoms,
    returned (@custom_anomaly_detection stable_sorter 0 (Frame [del])) = Ok anoms
    /\ filter (fun a => String.eqb (user a) "bob") anoms
       = map emitted (fired_actor "bob" [row])
    /\ (filter (at_rule 0 R4) (fired_actor "bob" [row])
        = [mkFired 0 R4 0 (anomaly_rule4 "bob" row)]
        <-> suspicious_deletion (target row))
    /\ (filter (at_rule 0 R4) (fired_actor "bob" [row]) = []
        <-> ~ suspicious_deletion (target row))
    /\ severity (anomaly_rule4 "bob" row) = "High"
    /\ reason (anomaly_rule4 "bob" row) = "Deleted binary/suspicious executable file"
    /\ (suspicious_deletion (target row) -> In (anomaly_rule4 "bob" row) anoms)
    /\ filter (has_reason "Deleted binary/suspicious executable file")
              (filter (fun a => String.eqb (user a) "bob") anoms)
       = map (anomaly_rule4 "bob")
             (filter (fun r => contains "DEL" (action r)
                               && deletes_suspicious (target r)) [row]).
Proof.
  intros del row.
  apply (C9_rule4_immediate stable_sorter 0 [del] [row] "bob" [row] 0 row).
  - reflexivity.
  - left. reflexivity.
  - reflexivity.
  - now exists EmptyString, EmptyString.
Defined.

(** *** The order of the output *)

Lemma StronglySorted_app {A : Type} (R : A -> A -> Prop) (l1 l2 : list A) :
  StronglySorted R l1 -> StronglySorted R l2 ->
  (forall x y, In x l1 -> In y l2 -> R x y) ->
  StronglySorted R (l1 ++ l2).
Proof.
  induction 1 as [|h t Ht IH Hh]; intros H2 Hc; cbn [app]; [assumption|].
  constructor.
  - apply IH; [assumption|]. intros x y Hx Hy. apply Hc; [now right | assumption].
  - apply Forall_app. split; [assumption|].
    apply Forall_forall. intros y Hy. apply Hc; [now left | assumption].
Qed.

(** A loop over an ascending range whose iteration [m] appends a sorted run
    of elements of level [m] appends a sorted list. *)
Lemma sorted_flat_map_seq {B : Type} (R : B -> B -> Prop) (P : B -> Prop)
      (lvl : B -> nat) (g : nat -> list B) (a n : nat) :
  (forall m, Forall (fun x => P x /\ lvl x = m) (g m)) ->
  (forall m, StronglySorted R (g m)) ->
  (forall x y, P x -> P y -> lvl x < lvl y -> R x y) ->
  StronglySorted R (flat_map g (seq a n)).
Proof.
  intros Hl Hs Hr. revert a; induction n as [|n IH]; intros a; cbn [seq flat_map].
  - constructor.
  - apply StronglySorted_app; [apply Hs | apply IH|].
    intros x y Hx Hy. apply in_flat_map in Hy. destruct Hy as [m [Hm Hy]].
    apply in_seq in Hm.
    pose proof (Hl a) as Ha. pose proof (Hl m) as Hm'.
    rewrite Forall_forall in Ha, Hm'.
    destruct (Ha x Hx) as [Px Lx]. destruct (Hm' y Hy) as [Py Ly].
    apply Hr; trivial. lia.
Qed.

Lemma sorted_at_most_one {A : Type} (R : A -> A -> Prop) (l : list A) :
  length l <= 1 -> StronglySorted R l.
Proof.
  destruct l as [|x [|y l]]; cbn [length]; intros H; try lia; repeat constructor.
Qed.

Lemma fired_rule1_terminal u logs i row :
  StronglySorted fired_before (fired_rule1 u logs i row).
Proof.
  unfold fired_rule1. destruct (contains _ _); [|constructor]. unfold window.
  apply (sorted_flat_map_seq _ (tagged i R1) terminal).
  - intros m. destruct (nth_error logs m); [|constructor].
    destruct (contains _ _); [|constructor].
    destruct (within_600 _ _); repeat constructor.
  - intros m. apply sorted_at_most_one. destruct (nth_error logs m); [|cbn; lia].
    destruct (contains _ _); [|cbn; lia].
    destruct (within_600 _ _); cbn; lia.
  - intros x y [Tx Rx] [Ty Ry] H. unfold fired_before. right.
    split; [congruence|]. right. split; [congruence | assumption].
Qed.

Lemma fired_rule2_terminal u logs i row :
  StronglySorted fired_before (fired_rule2 u logs i row).
Proof.
  unfold fired_rule2. destruct (contains _ _); [|constructor]. unfold window.
  apply (sorted_flat_map_seq _ (tagged i R2) terminal).
  - intros m. destruct (nth_error logs m); [|constructor].
    destruct (_ && _); repeat constructor.
  - intros m. apply sorted_at_most_one. destruct (nth_error logs m); [|cbn; lia].
    destruct (_ && _); cbn; lia.
  - intros x y [Tx Rx] [Ty Ry] H. unfold fired_before. right.
    split; [congruence|]. right. split; [congruence | assumption].
Qed.

Lemma tagged_before (i : nat) (r r' : Rule) (x y : Fired) :
  rule_index r < rule_index r' -> tagged i r x -> tagged i r' y -> fired_before x y.
Proof.
  intros H [Tx Rx] [Ty Ry]. unfold fired_before. right.
  split; [congruence|]. left. now rewrite Rx, Ry.
Qed.

Ltac cross_rules :=
  intros ? ? ? ?;
  repeat match goal with
         | H : In _ (_ ++ _) |- _ => apply in_app_iff in H; destruct H as [H|H]
         end;
  repeat match goal with
         | H : In ?x (fired_rule1 ?u ?l ?i ?row) |- _ =>
             let T := fresh "T" in
             pose proof (proj1 (Forall_forall _ _) (fired_rule1_tagged u l i row) x H) as T;
             clear H
         | H : In ?x (fired_rule2 ?u ?l ?i ?row) |- _ =>
             let T := fresh "T" in
             pose proof (proj1 (Forall_forall _ _) (fired_rule2_tagged u l i row) x H) as T;
             clear H
         | H : In ?x (fired_rule3 ?u ?i ?row) |- _ =>
             let T := fresh "T" in
             pose proof (proj1 (Forall_forall _ _) (fired_rule3_tagged u i row) x H) as T;
             clear H
         | H : In ?x (fired_rule4 ?u ?i ?row) |- _ =>
             let T := fresh "T" in
             pose proof (proj1 (Forall_forall _ _) (fired_rule4_tagged u i row) x H) as T;
             clear H
         end;
  (eapply tagged_before; [|eassumption|eassumption]); cbn; lia.

Lemma fired_row_sorted u logs i row :
  StronglySorted fired_before (fired_row u logs i row).
Proof.
  unfold fired_row.
  apply StronglySorted_app; [apply fired_rule1_terminal| |cross_rules].
  apply StronglySorted_app; [apply fired_rule2_terminal| |cross_rules].
  apply StronglySorted_app; [| |cross_rules].
  - apply sorted_at_most_one. unfold fired_rule3.
    destruct (contains _ _); [|cbn; lia]. destruct (contains_any _ _); cbn; lia.
  - apply sorted_at_most_one. unfold fired_rule4.
    destruct (contains _ _); [|cbn; lia]. destruct (deletes_suspicious _); cbn; lia.
Qed.

(** One actor's loop appends by ascending [i], then rule 1 to rule 4, then
    ascending [j]. *)
Lemma fired_actor_sorted (u : string) (logs : list Row) :
  StronglySorted fired_before (fired_actor u logs).
Proof.
  unfold fired_actor.
  apply (sorted_flat_map_seq _ (fun _ => True) trigger).
  - intros m. destruct (nth_error logs m) as [row|]; [|constructor].
    unfold fired_row. rewrite !Forall_app.
    pose proof (fired_rule1_tagged u logs m row) as T1.
    pose proof (fired_rule2_tagged u logs m row) as T2.
    pose proof (fired_rule3_tagged u m row) as T3.
    pose proof (fired_rule4_tagged u m row) as T4.
    repeat split; (eapply Forall_impl; [|eassumption]); intros f [Hf _]; auto.
  - intros m. destruct (nth_error logs m); [apply fired_row_sorted | constructor].
  - intros x y _ _ H. now left.
Qed.

Lemma same_user_sorted (u : string) (l : list Anomaly) :
  Forall (fun a => user a = u) l -> StronglySorted user_le l.
Proof.
  induction 1 as [|x l Hx Hl IH]; constructor; [assumption|].
  eapply Forall_impl; [|exact Hl]. intros a Ha. left. congruence.
Qed.

Lemma users_sorted (g : string -> list Anomaly) (keys : list string) :
  (forall u, Forall (fun a => user a = u) (g u)) ->
  StronglySorted key_lt keys ->
  StronglySorted user_le (flat_map g keys).
Proof.
  intros Hg. induction 1 as [|h t Ht IH Hh]; cbn [flat_map]; [constructor|].
  apply StronglySorted_app; [now apply same_user_sorted with h | exact IH|].
  intros x y Hx Hy. apply in_flat_map in Hy. destruct Hy as [k [Hk Hy]].
  pose proof (Hg h) as Gh. pose proof (Hg k) as Gk.
  rewrite Forall_forall in Gh, Gk, Hh.
  right. rewrite (Gh x Hx), (Gk y Hy). now apply Hh.
Qed.

(** C10.  The groups are taken in ascending order of the actor's name, one
    group per actor of the input; the output is the concatenation, in that
    order, of what each actor's loop appends, and that loop appends by
    ascending [i], then by rule, then by ascending [j].  So the users of the
    output ascend, and its order is fixed by the input. *)
Theorem C10_output_order (sorter : SortValues) (now : Z) (rows : list Row)
        (anoms : list Anomaly) :
  returned (custom_anomaly_detection now (Frame rows)) = Ok anoms ->
  let view := fun u =>
    sort_values (group_rows u (sort_values (map normalise rows))) in
  exists keys,
    StronglySorted key_lt keys
    /\ (forall u, In u keys <-> exists r, In r rows /\ actor r = u)
    /\ anoms = flat_map (fun u => map emitted (fired_actor u (view u))) keys
    /\ (forall u, StronglySorted fired_before (fired_actor u (view u)))
    /\ StronglySorted user_le anoms.
Proof.
  intros H view. apply successful_run in H.
  exists (group_keys (sort_values (map normalise rows))).
  split; [apply group_keys_sorted|]. split; [|split; [|split]].
  - intros u. rewrite in_group_keys. split.
    + intros [r [Hr Hu]].
      apply (Permutation_in _ (Permutation_sym (sort_values_perm _))) in Hr.
      apply in_map_iff in Hr. destruct Hr as [e [<- He]]. now exists e.
    + intros [r [Hr Hu]]. exists (normalise r). split; [|exact Hu].
      apply (Permutation_in _ (sort_values_perm _)). now apply in_map.
  - rewrite H. apply flat_map_ext. intros u. symmetry. apply emitted_fired_actor.
  - intros u. apply fired_actor_sorted.
  - rewrite H. apply users_sorted; [|apply group_keys_sorted].
    intros u. apply detect_actor_user.
Qed.

Lemma C10_output_order_witness :
  let b1 := mkRow "0x1" 100 "FS" "DEL" "usr" "bob" "/tmp/a" "b.vlog" 100 in
  let a1 := mkRow "0x2" 150 "FS" "RUN" "usr" "alice" "/bin/nc" "a.vlog" 150 in
  let rows := [b1; a1] in
  let anoms := [anomaly_rule3 "alice" a1; anomaly_rule4 "bob" b1] in
  let view := fun u =>
    @sort_values stable_sorter
      (group_rows u (@sort_values stable_sorter (map normalise rows))) in
  exists keys,
    StronglySorted key_lt keys
    /\ (forall u, In u keys <-> exists r, In r rows /\ actor r = u)
    /\ anoms = flat_map (fun u => map emitted (fired_actor u (view u))) keys
    /\ (forall u, StronglySorted fired_before (fired_actor u (view u)))
    /\ StronglySorted user_le anoms.
Proof.
  intros b1 a1 rows anoms.
  apply (C10_output_order stable_sorter 0 rows anoms).
  reflexivity.
Defined.

(** * Further properties *)

(** ** The parser: what a match captures *)

Module MatchFacts.

Import Str Regex StrFacts RegexFacts ParserFacts.

(** The first success of [backtrack] is the longest. *)
Lemma backtrack_greedy {A : Type} (k lo : nat) (f : nat -> option A) (r : A) :
  backtrack k lo f = Some r ->
  exists n, lo <= n <= k /\ f n = Some r /\ forall m, n < m <= k -> f m = None.
Proof.
  induction k as [|k IH]; cbn [backtrack].
  - destruct (Nat.ltb_spec 0 lo); [discriminate|].
    destruct (f 0) eqn:E; [|discriminate].
    intros [= <-]. exists 0. repeat split; trivial; try lia.
  - destruct (Nat.ltb_spec (S k) lo); [discriminate|].
    destruct (f (S k)) eqn:E.
    + intros [= <-]. exists (S k). repeat split; trivial; try lia.
    + intros H'. destruct (IH H') as [n [Hn [Hf Hm]]]. exists n.
      repeat split; trivial; try lia.
      intros m Hlt. destruct (Nat.eq_dec m (S k)) as [->|Hne]; [exact E|].
      apply Hm. lia.
Qed.

Lemma backtrack_first {A : Type} (k lo : nat) (f : nat -> option A) (r : A) :
  lo <= k -> f k = Some r -> backtrack k lo f = Some r.
Proof.
  intros Hlo Hf. destruct k as [|k]; cbn [backtrack].
  - destruct (Nat.ltb_spec 0 lo); [lia|]. now rewrite Hf.
  - destruct (Nat.ltb_spec (S k) lo); [lia|]. now rewrite Hf.
Qed.

Lemma take_span (cls : ascii -> bool) (n : nat) (s : string) :
  n <= span cls s -> all_chars cls (take n s) = true.
Proof.
  revert s; induction n as [|n IH]; intros s H; [now destruct s|].
  destruct s as [|c t]; cbn [span] in H; [lia|].
  cbn [take all_chars]. destruct (cls c); [|lia].
  cbn [andb]. apply IH. lia.
Qed.

Lemma span_app (cls : ascii -> bool) (x t : string) :
  all_chars cls x = true -> stops cls t ->
  span cls (x ++ t)%string = String.length x.
Proof.
  induction x as [|c x IH]; cbn [String.append all_chars String.length].
  - intros _. destruct t as [|c t]; cbn [stops span]; [trivial|].
    now intros ->.
  - intros H Ht. apply andb_true_iff in H. destruct H as [Hc Hx].
    cbn [span]. rewrite Hc, IH; trivial.
Qed.

Lemma take_app_length (x t : string) : take (String.length x) (x ++ t)%string = x.
Proof. induction x as [|c x IH]; cbn; [now destruct t | now rewrite IH]. Qed.

Lemma drop_span_stops (cls : ascii -> bool) (s : string) :
  stops cls (drop (span cls s) s).
Proof.
  induction s as [|c t IH]; cbn [span]; [exact I|].
  destruct (cls c) eqn:E; cbn [drop stops]; assumption.
Qed.

Lemma exec_rep_cls lo cls p st s r :
  exec (Rep lo cls :: p) st s = Some r ->
  exists n, lo <= n <= String.length s
            /\ all_chars cls (take n s) = true
            /\ exec p (feed (take n s) st) (drop n s) = Some r.
Proof.
  cbn [exec]. intros H. apply backtrack_some in H.
  destruct H as [n [Hn H]]. exists n.
  pose proof (span_le cls s).
  split; [lia|]. split; [apply take_span; lia | assumption].
Qed.

(** A repetition that ends the pattern takes its longest run. *)
Lemma exec_last_group lo cls g x c s r :
  exec [Rep lo cls; Close g] (mkCaptures [(g, x)] c) s = Some r ->
  lo <= span cls s
  /\ r = mkCaptures [] ((g, (x ++ take (span cls s) s)%string) :: c).
Proof.
  cbn [exec]. intros H. apply backtrack_greedy in H.
  destruct H as [n [Hn [Hf Hmax]]].
  destruct (Nat.eq_dec n (span cls s)) as [->|Hne].
  - cbn [feed opened closed map fst snd] in Hf. rewrite String.eqb_refl in Hf.
    split; [lia | congruence].
  - specialize (Hmax (span cls s)).
    cbn [feed opened closed map fst snd] in Hmax.
    rewrite String.eqb_refl in Hmax. discriminate Hmax. lia.
Qed.

Ltac step_cls H :=
  lazymatch type of H with
  | exec (Open _ :: _) _ _ = Some _ =>
      apply exec_open in H;
      cbn [feed opened closed map fst snd String.append] in H
  | exec (Close _ :: _) _ _ = Some _ =>
      apply exec_close in H
  | exec (Lit _ :: _) _ _ = Some _ =>
      let t := fresh "t" in let E := fresh "E" in
      apply exec_lit in H; destruct H as (t & E & H);
      cbn [feed opened closed map fst snd String.append] in H
  | exec (Rep _ _ :: _) _ _ = Some _ =>
      let n := fresh "n" in let B := fresh "B" in let C := fresh "C" in
      apply exec_rep_cls in H; destruct H as (n & B & C & H);
      cbn [feed opened closed map fst snd String.append] in H
  end.

(** A match splits the text into the fields of the grammar: the text is the
    line written out from the captured fields, followed by what the target
    could not take; each field is made of the characters of its class, and
    the target runs to the end of the text or to the first line feed. *)
Lemma pattern_match_fields (s : string) (d : list (string * string)) :
  pattern_match s = Some d ->
  exists h ts et ac aty a eqs tg rest,
    d = groupdict h ts et ac aty a tg
    /\ s = (render h ts et ac aty a eqs tg ++ rest)%string
    /\ all_chars is_hex h = true /\ all_chars is_digit ts = true
    /\ all_chars (is_not "!") et = true /\ all_chars (is_not "_") ac = true
    /\ all_chars (is_not ":") aty = true /\ all_chars (is_not "=") a = true
    /\ all_chars (Ascii.eqb "=") eqs = true
    /\ all_chars (is_not newline) tg = true
    /\ stops (is_not newline) rest.
Proof.
  unfold pattern_match, pattern, no_captures.
  destruct (exec _ _ s) as [st|] eqn:H; [|discriminate].
  cbn [option_map]. intros [= <-].
  do 27 step_cls H.
  apply exec_last_group in H. destruct H as [B6 ->]. cbn [closed].
  exists (take n t), (take n0 t0), (take n1 t1), (take n2 t2), (take n3 t3),
         (take n4 t4), (take n5 (drop n4 t4)),
         (take (span (is_not newline) t5) t5),
         (drop (span (is_not newline) t5) t5).
  split; [reflexivity|]. split.
  - unfold render. rewrite !append_assoc.
    rewrite (take_drop (span (is_not newline) t5) t5), <- E5.
    rewrite (take_drop n5 (drop n4 t4)), (take_drop n4 t4), <- E4.
    rewrite (take_drop n3 t3), <- E3, (take_drop n2 t2), <- E2.
    rewrite (take_drop n1 t1), <- E1, (take_drop n0 t0), <- E0.
    rewrite (take_drop n t). exact E.
  - repeat (split; [assumption|]). split.
    + now apply take_span.
    + apply drop_span_stops.
Qed.

Lemma exec_open_eq g p st s :
  exec (Open g :: p) st s
  = exec p (mkCaptures ((g, EmptyString) :: opened st) (closed st)) s.
Proof. reflexivity. Qed.

Lemma exec_close_eq g p x o c s :
  exec (Close g :: p) (mkCaptures ((g, x) :: o) c) s
  = exec p (mkCaptures o ((g, x) :: c)) s.
Proof. cbn [exec opened closed]. now rewrite String.eqb_refl. Qed.

Lemma exec_lit_app l p st t :
  exec (Lit l :: p) st (l ++ t)%string = exec p (feed l st) t.
Proof.
  cbn [exec].
  assert (startswith l (l ++ t)%string = true) as -> by (apply startswith_app; eauto).
  now rewrite drop_app_length.
Qed.

(** A run of [cls] that cannot go on is taken whole at the first attempt. *)
Lemma exec_rep_greedy lo cls p st x t r :
  all_chars cls x = true -> lo <= String.length x -> stops cls t ->
  exec p (feed x st) t = Some r ->
  exec (Rep lo cls :: p) st (x ++ t)%string = Some r.
Proof.
  intros Hx Hlo Ht H. cbn [exec]. rewrite (span_app cls x t Hx Ht).
  apply backtrack_first; [exact Hlo|].
  now rewrite take_app_length, drop_app_length.
Qed.

Lemma exec_rep_greedy_end lo cls p st x r :
  all_chars cls x = true -> lo <= String.length x ->
  exec p (feed x st) EmptyString = Some r ->
  exec (Rep lo cls :: p) st x = Some r.
Proof.
  intros Hx Hlo H. rewrite <- (append_nil_r x).
  now apply exec_rep_greedy.
Qed.

Lemma nonempty_length (s : string) : s <> EmptyString -> 1 <= String.length s.
Proof. destruct s; [congruence | cbn; lia]. Qed.

Lemma stops_equals (eqs t : string) :
  eqs <> EmptyString -> all_chars (Ascii.eqb "=") eqs = true ->
  stops (is_not "=") (eqs ++ t)%string.
Proof.
  destruct eqs as [|c eqs]; [congruence|]. intros _ H.
  cbn [all_chars] in H. apply andb_true_iff in H. destruct H as [Hc _].
  apply Ascii.eqb_eq in Hc. subst c. reflexivity.
Qed.

(** Writing a line out from its fields and matching it gives the fields
    back. *)
Lemma match_render (h ts et ac aty a eqs tg : string) :
  h <> EmptyString -> ts <> EmptyString -> et <> EmptyString ->
  ac <> EmptyString -> aty <> EmptyString -> a <> EmptyString ->
  eqs <> EmptyString -> tg <> EmptyString ->
  all_chars is_hex h = true -> all_chars is_digit ts = true ->
  all_chars (is_not "!") et = true -> all_chars (is_not "_") ac = true ->
  all_chars (is_not ":") aty = true -> all_chars (is_not "=") a = true ->
  all_chars (Ascii.eqb "=") eqs = true ->
  all_chars (is_not newline) tg = true ->
  pattern_match (render h ts et ac aty a eqs tg)
  = Some (groupdict h ts et ac aty a tg).
Proof.
  intros Nh Nts Net Nac Naty Na Neqs Ntg Ch Cts Cet Cac Caty Ca Ceqs Ctg.
  unfold pattern_match.
  enough (exec pattern no_captures (render h ts et ac aty a eqs tg)
          = Some (mkCaptures [] (groupdict h ts et ac aty a tg))) as ->
      by reflexivity.
  unfold pattern, render, no_captures.
  repeat first
    [ rewrite exec_open_eq; cbn [feed opened closed map fst snd]
    | rewrite exec_close_eq
    | rewrite exec_lit_app; cbn [feed opened closed map fst snd]
    | apply exec_rep_greedy;
      [ assumption
      | first [ now apply nonempty_length | lia ]
      | first [ reflexivity | now apply stops_equals ]
      | cbn [feed opened closed map fst snd] ]
    | apply exec_rep_greedy_end;
      [ assumption
      | now apply nonempty_length
      | cbn [feed opened closed map fst snd] ] ].
  reflexivity.
Qed.

End MatchFacts.

(** ** The parser on lines and directories *)

Module LineFacts.

Import Str StrFacts.

Lemma lstrip_spaces (w s : string) :
  all_chars is_space w = true -> lstrip (w ++ s)%string = lstrip s.
Proof.
  induction w as [|c w IH]; cbn [all_chars String.append lstrip]; [trivial|].
  intros H. apply andb_true_iff in H. destruct H as [-> Hw]. now apply IH.
Qed.

Lemma rstrip_spaces (w : string) :
  all_chars is_space w = true -> rstrip w = EmptyString.
Proof.
  induction w as [|c w IH]; cbn [all_chars rstrip]; [trivial|].
  intros H. apply andb_true_iff in H. destruct H as [Hc Hw].
  now rewrite (IH Hw), Hc.
Qed.

Lemma rstrip_app_spaces (s w : string) :
  all_chars is_space w = true -> rstrip (s ++ w)%string = rstrip s.
Proof.
  intros Hw. induction s as [|c s IH]; cbn [String.append rstrip].
  - now apply rstrip_spaces.
  - now rewrite IH.
Qed.

Lemma strip_app_spaces (s w : string) :
  all_chars is_space w = true -> strip (s ++ w)%string = strip s.
Proof.
  intros Hw. unfold strip. induction s as [|c s IH]; cbn [String.append lstrip].
  - rewrite <- (append_nil_r w), lstrip_spaces by assumption. reflexivity.
  - destruct (is_space c); [exact IH|].
    change (String c (s ++ w)%string) with (String c s ++ w)%string.
    now apply rstrip_app_spaces.
Qed.

(** [strip] removes the whitespace around a text and nothing else. *)
Lemma strip_around (a s b : string) :
  all_chars is_space a = true -> all_chars is_space b = true ->
  strip (a ++ s ++ b)%string = strip s.
Proof.
  intros Ha Hb. unfold strip. rewrite lstrip_spaces by assumption.
  now apply strip_app_spaces.
Qed.

Lemma rstrip_keeps (x tg : string) :
  tg <> EmptyString -> rstrip tg = tg -> rstrip (x ++ tg)%string = (x ++ tg)%string.
Proof.
  intros Hn Ht. induction x as [|c x IH]; cbn [String.append rstrip]; [exact Ht|].
  rewrite IH. destruct (x ++ tg)%string eqn:E; [|reflexivity].
  destruct x; cbn in E; [contradiction | discriminate].
Qed.

End LineFacts.

Import MatchFacts LineFacts.

(** X1.  A well-formed line of ASCII text parses to its fields: written out
    from a hex id, a decimal timestamp of at most 4300 digits (the longest
    [int] converts), fields free of their delimiter, an arrow with at least
    one [=], and a target without line feed or trailing whitespace, and
    followed by any line ending, the line gives the entry that holds exactly
    those fields, or the exception of the clock conversion. *)
Theorem X1_rendered_line_parses (fromtimestamp : N -> result Z)
        (fname h ts et ac aty a eqs tg ending : string) :
  ascii_only (render h ts et ac aty a eqs tg ++ ending)%string = true ->
  (String.length ts <= 4300)%nat ->
  h <> EmptyString -> ts <> EmptyString -> et <> EmptyString ->
  ac <> EmptyString -> aty <> EmptyString -> a <> EmptyString ->
  eqs <> EmptyString -> tg <> EmptyString ->
  all_chars is_hex h = true -> all_chars is_digit ts = true ->
  all_chars (is_not "!") et = true -> all_chars (is_not "_") ac = true ->
  all_chars (is_not ":") aty = true -> all_chars (is_not "=") a = true ->
  all_chars (Ascii.eqb "=") eqs = true ->
  all_chars (is_not newline) tg = true ->
  rstrip tg = tg ->
  all_chars is_space ending = true ->
  parse_line fromtimestamp fname (render h ts et ac aty a eqs tg ++ ending)%string
  = Some (dt <- fromtimestamp (int ts) ;;
          Ok (mkRow ("0x" ++ h)%string (int ts) et ac aty a tg fname dt)).
Proof.
  intros _ _ Nh Nts Net Nac Naty Na Neqs Ntg Ch Cts Cet Cac Caty Ca Ceqs Ctg Rtg We.
  unfold parse_line. rewrite strip_app_spaces by assumption.
  assert (strip (render h ts et ac aty a eqs tg) = render h ts et ac aty a eqs tg)
    as ->.
  { unfold strip.
    assert (lstrip (render h ts et ac aty a eqs tg)
            = render h ts et ac aty a eqs tg) as -> by reflexivity.
    unfold render. rewrite <- !append_assoc. now apply rstrip_keeps. }
  rewrite match_render by assumption. reflexivity.
Qed.

Lemma X1_rendered_line_parses_witness :
  parse_line (fun ts => Ok (Z.of_N ts + 3600)%Z) "auth.vlog"
             (render "1A" "100" "FS" "DEL" "usr" "bob" "==" "/tmp/a" ++ newline_text)%string
  = Some (dt <- Ok (Z.of_N (int "100") + 3600)%Z ;;
          Ok (mkRow "0x1A" (int "100") "FS" "DEL" "usr" "bob" "/tmp/a" "auth.vlog" dt)).
Proof.
  apply (X1_rendered_line_parses (fun ts => Ok (Z.of_N ts + 3600)%Z) "auth.vlog"
           "1A" "100" "FS" "DEL" "usr" "bob" "==" "/tmp/a" newline_text);
    first [discriminate | reflexivity | cbn; lia].
Defined.

(** X2.  Parsing loses nothing of a line of ASCII text: the stripped line
    of a parsed entry is the entry's fields written out, with the arrow's
    run of [=], followed by text that starts with a line feed if there is
    any.  The id is [0x] and hex digits, the timestamp is the value of a run
    of decimal digits, no field holds its delimiter, and the entry records
    the file name and the clock conversion of its timestamp. *)
Theorem X2_parsed_line_is_its_fields (fromtimestamp : N -> result Z)
        (fname line : string) (e : Row) :
  ascii_only line = true ->
  parse_line fromtimestamp fname line = Some (Ok e) ->
  exists h ts eqs rest,
    strip line = (render h ts (event_type e) (action e) (actor_type e)
                         (actor e) eqs (target e) ++ rest)%string
    /\ log_id e = ("0x" ++ h)%string /\ all_chars is_hex h = true
    /\ timestamp e = int ts /\ all_chars is_digit ts = true
    /\ all_chars (is_not "!") (event_type e) = true
    /\ all_chars (is_not "_") (action e) = true
    /\ all_chars (is_not ":") (actor_type e) = true
    /\ all_chars (is_not "=") (actor e) = true
    /\ all_chars (Ascii.eqb "=") eqs = true
    /\ all_chars (is_not newline) (target e) = true
    /\ stops (is_not newline) rest
    /\ file e = fname
    /\ fromtimestamp (timestamp e) = Ok (datetime e).
Proof.
  intros _.
  unfold parse_line. destruct (pattern_match (strip line)) as [d|] eqn:M;
    [|discriminate].
  cbn [option_map]. unfold entry.
  apply pattern_match_fields in M.
  destruct M as (h & ts & et & ac & aty & a & eqs & tg & rest & -> & Hs & Ch
                 & Cts & Cet & Cac & Caty & Ca & Ceqs & Ctg & Hrest).
  unfold groupdict, field. cbn [Regex.group String.eqb Ascii.eqb Bool.eqb].
  destruct (fromtimestamp (int ts)) as [dt|] eqn:F; cbn [bind]; [|discriminate].
  intros [= <-].
  cbn [log_id event_type action actor_type actor target timestamp file datetime].
  exists h, ts, eqs, rest. repeat (split; [first [assumption | reflexivity]|]).
  assumption.
Qed.

Lemma X2_parsed_line_is_its_fields_witness :
  let e := mkRow "0x1A" 100 "FS" "DEL" "usr" "bob" "/tmp/a" "a.vlog" 100 in
  exists h ts eqs rest,
    strip "  0x1A[ts:100]|EVNT:FS!@DEL_usr:bob=>/tmp/a  "
    = (render h ts (event_type e) (action e) (actor_type e)
              (actor e) eqs (target e) ++ rest)%string
    /\ log_id e = ("0x" ++ h)%string /\ all_chars is_hex h = true
    /\ timestamp e = int ts /\ all_chars is_digit ts = true
    /\ all_chars (is_not "!") (event_type e) = true
    /\ all_chars (is_not "_") (action e) = true
    /\ all_chars (is_not ":") (actor_type e) = true
    /\ all_chars (is_not "=") (actor e) = true
    /\ all_chars (Ascii.eqb "=") eqs = true
    /\ all_chars (is_not newline) (target e) = true
    /\ stops (is_not newline) rest
    /\ file e = "a.vlog"
    /\ (fun ts => Ok (Z.of_N ts)) (timestamp e) = Ok (datetime e).
Proof.
  intros e.
  apply (X2_parsed_line_is_its_fields (fun ts => Ok (Z.of_N ts)) "a.vlog"
           "  0x1A[ts:100]|EVNT:FS!@DEL_usr:bob=>/tmp/a  " e).
  - reflexivity.
  - reflexivity.
Defined.

(** X3.  Whitespace around a line, line endings included, does not change
    what the line parses to. *)
Theorem X3_surrounding_whitespace_ignored (fromtimestamp : N -> result Z)
        (fname before line after : string) :
  all_chars is_space before = true ->
  all_chars is_space after = true ->
  parse_line fromtimestamp fname (before ++ line ++ after)%string
  = parse_line fromtimestamp fname line.
Proof.
  intros Hb Ha. unfold parse_line. now rewrite strip_around.
Qed.

Lemma X3_surrounding_whitespace_ignored_witness :
  parse_line (fun ts => Ok (Z.of_N ts)) "a.vlog"
             ("  " ++ "0x1A[ts:100]|EVNT:FS!@DEL_usr:bob=>/tmp/a" ++ newline_text)%string
  = parse_line (fun ts => Ok (Z.of_N ts)) "a.vlog"
               "0x1A[ts:100]|EVNT:FS!@DEL_usr:bob=>/tmp/a".
Proof.
  apply (X3_surrounding_whitespace_ignored (fun ts => Ok (Z.of_N ts)) "a.vlog"
           "  " "0x1A[ts:100]|EVNT:FS!@DEL_usr:bob=>/tmp/a" newline_text);
    reflexivity.
Defined.

Module DirectoryFacts.

Lemma collect_app {A : Type} (l1 l2 : list (result A)) :
  collect (l1 ++ l2)
  = (x <- collect l1 ;; y <- collect l2 ;; Ok (x ++ y)).
Proof.
  induction l1 as [|r l1 IH]; cbn [app collect bind].
  - destruct (collect l2); reflexivity.
  - destruct r as [a|e]; cbn [bind]; [|reflexivity].
    rewrite IH. destruct (collect l1); cbn [bind]; [|reflexivity].
    destruct (collect l2); reflexivity.
Qed.

Lemma collect_ok {A : Type} (l : list (result A)) (xs : list A) :
  collect l = Ok xs <-> l = map Ok xs.
Proof.
  revert xs; induction l as [|r l IH]; intros xs; cbn [collect].
  - split; [intros [= <-]; reflexivity | destruct xs; [reflexivity|discriminate]].
  - destruct r as [a|e]; cbn [bind].
    + destruct (collect l) as [ys|e] eqn:E; cbn [bind].
      * split.
        -- intros [= <-]. cbn [map]. f_equal. now apply IH.
        -- destruct xs as [|x xs]; [discriminate|]. cbn [map].
           intros [= -> H]. apply IH in H. congruence.
      * split; [discriminate|]. destruct xs as [|x xs]; [discriminate|].
        cbn [map]. intros [= -> H]. apply IH in H. discriminate.
    + split; [discriminate|]. destruct xs; discriminate.
Qed.

Lemma collect_raise {A : Type} (l : list (result A)) (e : exn) :
  In (Raise e) l -> exists e', collect l = Raise e'.
Proof.
  induction l as [|r l IH]; [intros []|]. intros [->|H]; cbn [collect bind].
  - eauto.
  - destruct r as [a|e0]; cbn [bind]; [|eauto].
    destruct (IH H) as [e' ->]. cbn [bind]. eauto.
Qed.

Section WithClock.

Variable fromtimestamp : N -> result Z.

Lemma parse_lines_eq (fname : string) (lines : list string) (acc : list Row) :
  parse_lines fromtimestamp fname lines acc
  = (rows <- collect (line_entries fromtimestamp fname lines) ;; Ok (acc ++ rows)).
Proof.
  revert acc; induction lines as [|l lines IH]; intros acc;
    cbn [parse_lines line_entries flat_map collect bind].
  - now rewrite List.app_nil_r.
  - fold (line_entries fromtimestamp fname lines).
    destruct (parse_line fromtimestamp fname l) as [[e|x]|];
      cbn [app collect bind]; trivial.
    rewrite IH. destruct (collect _); cbn [bind]; [|reflexivity].
    now rewrite <- List.app_assoc.
Qed.

Lemma parse_files_eq (listing : list (string * list string)) (acc : list Row) :
  parse_files fromtimestamp listing acc
  = (rows <- collect (directory_entries fromtimestamp listing) ;; Ok (acc ++ rows)).
Proof.
  revert acc; induction listing as [|[fname lines] listing IH]; intros acc;
    cbn [parse_files directory_entries flat_map collect bind fst snd].
  - now rewrite List.app_nil_r.
  - fold (directory_entries fromtimestamp listing).
    destruct (Str.endswith ".vlog" fname); cbn [app]; [|apply IH].
    rewrite parse_lines_eq, collect_app.
    destruct (collect (line_entries _ _ _)); cbn [bind]; [|reflexivity].
    rewrite IH. destruct (collect _); cbn [bind]; [|reflexivity].
    now rewrite List.app_assoc.
Qed.

Lemma in_directory_entries (r : result Row)
      (listing : list (string * list string)) :
  In r (directory_entries fromtimestamp listing) <->
  exists fname lines line,
    In (fname, lines) listing /\ Str.endswith ".vlog" fname = true
    /\ In line lines /\ parse_line fromtimestamp fname line = Some r.
Proof.
  unfold directory_entries, line_entries. rewrite in_flat_map. split.
  - intros [[fname lines] [Hin H]]. cbn [fst snd] in H.
    destruct (Str.endswith ".vlog" fname) eqn:E; [|contradiction].
    apply in_flat_map in H. destruct H as [line [Hl H]].
    destruct (parse_line _ _ _) as [r'|] eqn:P; [|contradiction].
    destruct H as [<-|[]]. exists fname, lines, line. auto.
  - intros [fname [lines [line [Hin [E [Hl P]]]]]].
    exists (fname, lines). split; [assumption|]. cbn [fst snd]. rewrite E.
    apply in_flat_map. exists line. split; [assumption|]. rewrite P. now left.
Qed.

End WithClock.

End DirectoryFacts.

Import DirectoryFacts.

Lemma directory_frame_eq (fromtimestamp : N -> result Z)
      (listing : list (string * list string)) :
  parse_logs_from_directory fromtimestamp listing
  = (rows <- collect (directory_entries fromtimestamp listing) ;;
     Ok (pd_DataFrame rows)).
Proof.
  unfold parse_logs_from_directory. rewrite parse_files_eq.
  destruct (collect _); reflexivity.
Qed.

(** X4.  The frame holds, in listing order and then in line order, one row
    for each matching line of each file whose name ends in [.vlog], and
    nothing else: other files and non-matching lines leave no trace. *)
Theorem X4_directory_rows (fromtimestamp : N -> result Z)
        (listing : list (string * list string)) :
  parse_logs_from_directory fromtimestamp listing
  = (rows <- collect (directory_entries fromtimestamp listing) ;;
     Ok (pd_DataFrame rows)).
Proof.
  apply directory_frame_eq.
Qed.

(** X5.  A row is in the parsed frame exactly when it is the entry of some
    line of some file of the listing whose name ends in [.vlog]; the row
    records that file name. *)
Theorem X5_row_provenance (fromtimestamp : N -> result Z)
        (listing : list (string * list string)) (rows : list Row) (r : Row) :
  parse_logs_from_directory fromtimestamp listing = Ok (Frame rows) ->
  (In r rows <->
   exists lines line,
     In (file r, lines) listing /\ Str.endswith ".vlog" (file r) = true
     /\ In line lines /\ parse_line fromtimestamp (file r) line = Some (Ok r)).
Proof.
  rewrite directory_frame_eq.
  destruct (collect _) as [rows'|] eqn:C; cbn [bind]; [|discriminate].
  intros H. assert (rows' = rows) as -> by (destruct rows'; [discriminate | now injection H]).
  apply collect_ok in C. split.
  - intros Hr. assert (In (Ok r) (directory_entries fromtimestamp listing)) as Hin
        by (rewrite C; now apply in_map).
    apply in_directory_entries in Hin.
    destruct Hin as [fname [lines [line [Hin [E [Hl P]]]]]].
    assert (file r = fname) as Hf.
    { unfold parse_line in P. destruct (pattern_match _); [|discriminate].
      cbn [option_map] in P. unfold entry in P.
      destruct (fromtimestamp _); cbn [bind] in P; [|discriminate].
      now injection P as <-. }
    subst fname. exists lines, line. auto.
  - intros [lines [line [Hin [E [Hl P]]]]].
    assert (In (Ok r) (directory_entries fromtimestamp listing)) as Hr
        by (apply in_directory_entries; eauto 8).
    rewrite C in Hr. apply in_map_iff in Hr. destruct Hr as [r' [[= ->] Hr']].
    assumption.
Qed.

Lemma X5_row_provenance_witness :
  let clock := fun ts : N => Ok (Z.of_N ts) in
  let listing := [("notes.txt", ["0x1[ts:5]|EVNT:FS!@RUN_usr:eve=>/bin/nc"]);
                  ("a.vlog", ["junk"; "0x1A[ts:100]|EVNT:FS!@DEL_usr:bob=>/tmp/a"])] in
  let r := mkRow "0x1A" 100 "FS" "DEL" "usr" "bob" "/tmp/a" "a.vlog" 100 in
  In r [r] <->
  exists lines line,
    In (file r, lines) listing /\ Str.endswith ".vlog" (file r) = true
    /\ In line lines /\ parse_line clock (file r) line = Some (Ok r).
Proof.
  intros clock listing r.
  apply (X5_row_provenance clock listing [r] r). reflexivity.
Defined.

(** X6.  One matching line whose timestamp the clock conversion rejects
    aborts the whole batch: the parser raises and returns no frame, whatever
    the other lines and files hold. *)
Theorem X6_rejected_timestamp_aborts (fromtimestamp : N -> result Z)
        (listing : list (string * list string))
        (fname : string) (lines : list string) (line : string) (e : exn) :
  In (fname, lines) listing ->
  Str.endswith ".vlog" fname = true ->
  In line lines ->
  parse_line fromtimestamp fname line = Some (Raise e) ->
  exists e', parse_logs_from_directory fromtimestamp listing = Raise e'.
Proof.
  intros Hin E Hl P. rewrite directory_frame_eq.
  assert (In (Raise e) (directory_entries fromtimestamp listing)) as H
      by (apply in_directory_entries; eauto 8).
  apply collect_raise in H. destruct H as [e' ->]. cbn [bind]. eauto.
Qed.

Lemma X6_rejected_timestamp_aborts_witness :
  let clock := fun ts : N =>
    if (ts <=? 253402300799)%N then Ok (Z.of_N ts) else Raise OverflowError in
  exists e',
    parse_logs_from_directory clock
      [("a.vlog", ["0x1A[ts:100]|EVNT:FS!@DEL_usr:bob=>/tmp/a";
                   "0x1B[ts:999999999999999]|EVNT:FS!@DEL_usr:bob=>/tmp/b"])]
    = Raise e'.
Proof.
  intros clock.
  apply (X6_rejected_timestamp_aborts clock _ "a.vlog"
           ["0x1A[ts:100]|EVNT:FS!@DEL_usr:bob=>/tmp/a";
            "0x1B[ts:999999999999999]|EVNT:FS!@DEL_usr:bob=>/tmp/b"]
           "0x1B[ts:999999999999999]|EVNT:FS!@DEL_usr:bob=>/tmp/b" OverflowError).
  - now left.
  - reflexivity.
  - right. now left.
  - reflexivity.
Defined.

Lemma no_columns_iff (fromtimestamp : N -> result Z)
        (listing : list (string * list string)) :
  parse_logs_from_directory fromtimestamp listing = Ok NoColumns
  <-> (forall fname lines line,
         In (fname, lines) listing -> Str.endswith ".vlog" fname = true ->
         In line lines -> pattern_match (Str.strip line) = None).
Proof.
  rewrite directory_frame_eq. split.
  - intros H fname lines line Hin E Hl.
    destruct (collect _) as [rows|] eqn:C; cbn [bind] in H; [|discriminate].
    destruct rows; [|discriminate]. apply collect_ok in C. cbn [map] in C.
    destruct (pattern_match (Str.strip line)) as [d|] eqn:M; [|reflexivity].
    assert (In (entry fromtimestamp fname d)
               (directory_entries fromtimestamp listing)) as Hr.
    { apply in_directory_entries. exists fname, lines, line.
      repeat split; trivial. unfold parse_line. now rewrite M. }
    rewrite C in Hr. contradiction.
  - intros H.
    assert (directory_entries fromtimestamp listing = []) as ->.
    { destruct (directory_entries fromtimestamp listing) as [|r l] eqn:D;
        [reflexivity|].
      assert (In r (directory_entries fromtimestamp listing)) as Hr
          by (rewrite D; now left).
      apply in_directory_entries in Hr.
      destruct Hr as [fname [lines [line [Hin [E [Hl P]]]]]].
      unfold parse_line in P. rewrite (H fname lines line Hin E Hl) in P.
      discriminate. }
    reflexivity.
Qed.

(** X7.  The parser returns the frame without columns exactly when no line
    of any [.vlog] file of the listing matches the pattern. *)
Theorem X7_no_match_no_columns (fromtimestamp : N -> result Z)
        (listing : list (string * list string)) :
  parse_logs_from_directory fromtimestamp listing = Ok NoColumns
  <-> (forall fname lines line,
         In (fname, lines) listing -> Str.endswith ".vlog" fname = true ->
         In line lines -> pattern_match (Str.strip line) = None).
Proof. apply no_columns_iff. Qed.

Lemma X7_no_match_no_columns_witness :
  parse_logs_from_directory (fun ts => Ok (Z.of_N ts))
    [("readme.txt", ["0x1A[ts:100]|EVNT:FS!@DEL_usr:bob=>/tmp/a"]);
     ("b.vlog", ["junk"; "0x1A[ts:100]|EVNT:FS!@DEL_usr:bob=>"])]
  = Ok NoColumns.
Proof.
  apply (proj2 (X7_no_match_no_columns (fun ts => Ok (Z.of_N ts)) _)).
  intros fname lines line [[= <- <-]|[[= <- <-]|[]]] E Hl.
  - discriminate E.
  - destruct Hl as [<-|[<-|[]]]; reflexivity.
Defined.

(** ** The engine: uniqueness of the views *)

Module ViewFacts.

(** A list in ascending order of time with no two rows of the same time is
    the only such arrangement of its rows. *)
Lemma sorted_perm_unique (l1 l2 : list Row) :
  StronglySorted by_datetime l1 -> StronglySorted by_datetime l2 ->
  Permutation l1 l2 -> NoDup (map datetime l1) -> l1 = l2.
Proof.
  intros S1. revert l2. induction S1 as [|h t St IH Hh]; intros l2 S2 P Nd.
  - apply Permutation_nil in P. now subst.
  - destruct l2 as [|h' t']; [apply Permutation_sym, Permutation_nil in P; discriminate|].
    inversion S2 as [|? ? St' Hh']; subst.
    inversion Nd as [|? ? Hnotin Nd']; subst.
    assert (h' = h) as ->.
    { assert (In h' (h :: t)) as Hin
          by (apply (Permutation_in _ (Permutation_sym P)); now left).
      destruct Hin as [->|Hin]; [reflexivity|].
      assert (In h (h' :: t')) as Hin' by (apply (Permutation_in _ P); now left).
      destruct Hin' as [->|Hin']; [reflexivity|].
      rewrite Forall_forall in Hh, Hh'.
      specialize (Hh h' Hin). specialize (Hh' h Hin').
      unfold by_datetime in *.
      exfalso. apply Hnotin. replace (datetime h) with (datetime h') by lia.
      now apply in_map. }
    f_equal. apply IH; trivial. now apply Permutation_cons_inv in P.
Qed.

(** Two strictly ascending lists of keys with the same members are equal. *)
Lemma sorted_keys_unique (k1 k2 : list string) :
  StronglySorted key_lt k1 -> StronglySorted key_lt k2 ->
  (forall u, In u k1 <-> In u k2) -> k1 = k2.
Proof.
  intros S1. revert k2. induction S1 as [|h t St IH Hh]; intros k2 S2 M.
  - destruct k2 as [|h' t']; [reflexivity|].
    exfalso. apply (proj2 (M h')). now left.
  - destruct k2 as [|h' t']; [exfalso; apply (proj1 (M h)); now left|].
    inversion S2 as [|? ? St' Hh']; subst.
    rewrite Forall_forall in Hh, Hh'.
    assert (h' = h) as E.
    { destruct (proj2 (M h')) as [->|Hin]; [now left|reflexivity|].
      destruct (proj1 (M h)) as [->|Hin']; [now left|reflexivity|].
      exfalso. apply (key_lt_irrefl h).
      apply compare_lt_trans with h'; [now apply Hh | now apply Hh']. }
    subst h'. f_equal. apply IH; trivial. intros u. split; intros Hu.
    + destruct (proj1 (M u)) as [<-|H]; [now right| |exact H].
      exfalso. apply (key_lt_irrefl h). now apply Hh.
    + destruct (proj2 (M u)) as [<-|H]; [now right| |exact H].
      exfalso. apply (key_lt_irrefl h). now apply Hh'.
Qed.

Lemma group_keys_perm (l1 l2 : list Row) :
  Permutation l1 l2 -> group_keys l1 = group_keys l2.
Proof.
  intros P. apply sorted_keys_unique; try apply group_keys_sorted.
  intros u. rewrite !in_group_keys. split; intros [r [Hr Hu]]; exists r;
    (split; [|exact Hu]).
  - now apply (Permutation_in _ P).
  - now apply (Permutation_in _ (Permutation_sym P)).
Qed.

Section WithSorter.

Context {sorter : SortValues}.

(** The view of an actor is fixed by the actor's rows when no two of them
    have the same time. *)
Lemma view_unique (A : string) (l1 l2 : list Row) :
  Permutation (group_rows A l1) (group_rows A l2) ->
  NoDup (map datetime (group_rows A l1)) ->
  sort_values (group_rows A (sort_values l1))
  = sort_values (group_rows A (sort_values l2)).
Proof.
  intros P Nd.
  assert (forall l, Permutation (group_rows A l)
                                (sort_values (group_rows A (sort_values l)))) as V.
  { intros l. transitivity (group_rows A (sort_values l));
      [apply Permutation_filter | ]; apply sort_values_perm. }
  apply sorted_perm_unique; try apply sort_values_sorted.
  - rewrite <- (V l1), <- (V l2). exact P.
  - apply (Permutation_NoDup (Permutation_map datetime (V l1))). exact Nd.
Qed.

Lemma detect_perm (l1 l2 : list Row) :
  Permutation l1 l2 ->
  (forall A, NoDup (map datetime (group_rows A l1))) ->
  detect (sort_values l1) = detect (sort_values l2).
Proof.
  intros P Nd. rewrite !detect_eq.
  rewrite (group_keys_perm (sort_values l1) (sort_values l2)).
  - apply flat_map_ext. intros A. f_equal.
    apply view_unique; [now apply Permutation_filter | apply Nd].
  - rewrite <- !sort_values_perm. exact P.
Qed.

End WithSorter.

Lemma distinct_times (A : string) (rows : list Row) :
  NoDup (map timestamp (group_rows A rows)) ->
  NoDup (map datetime (group_rows A (map normalise rows))).
Proof.
  intros H. rewrite group_rows_normalise, map_map.
  replace (map (fun r => datetime (normalise r)) (group_rows A rows))
    with (map Z.of_N (map timestamp (group_rows A rows)))
    by (rewrite map_map; reflexivity).
  apply Stdlib.Lists.Finite.Injective_map_NoDup; [|exact H].
  intros x y. apply N2Z.inj.
Qed.

Lemma normalise_idem (r : Row) : normalise (normalise r) = normalise r.
Proof. reflexivity. Qed.

End ViewFacts.

Import ViewFacts.

Lemma forallb_perm {A : Type} (p : A -> bool) (l1 l2 : list A) :
  Permutation l1 l2 -> forallb p l1 = forallb p l2.
Proof.
  induction 1 as [|x l l' _ IH|x y l|l l' l'' _ IH1 _ IH2]; cbn [forallb].
  - reflexivity.
  - now rewrite IH.
  - now rewrite !andb_assoc, (andb_comm (p y)).
  - congruence.
Qed.

Lemma run_eq {sorter : SortValues} (now : Z) (rows : list Row) :
  returned (custom_anomaly_detection now (Frame rows))
  = if forallb in_range rows
    then Ok (detect (sort_values (map normalise rows)))
    else Raise OutOfBoundsDatetime.
Proof.
  cbn [custom_anomaly_detection]. rewrite assign_datetime_eq.
  destruct (forallb in_range rows); reflexivity.
Qed.

(** X8.  The call can be repeated: although the first call has rewritten
    and reordered the frame, a second call on the frame it left behind
    returns the same anomalies, provided no actor has two events with the
    same timestamp. *)
Theorem X8_second_call_same_anomalies (sorter : SortValues) (now now' : Z)
        (rows : list Row) (anoms : list Anomaly) :
  returned (custom_anomaly_detection now (Frame rows)) = Ok anoms ->
  (forall A, NoDup (map timestamp (group_rows A rows))) ->
  returned (custom_anomaly_detection now'
              (frame_after (custom_anomaly_detection now (Frame rows))))
  = Ok anoms.
Proof.
  intros H Nd. rewrite run_eq in H.
  assert (frame_after (custom_anomaly_detection now (Frame rows))
          = Frame (sort_values (map normalise rows))) as ->.
  { cbn [custom_anomaly_detection]. rewrite assign_datetime_eq.
    destruct (forallb in_range rows); [reflexivity | discriminate]. }
  destruct (forallb in_range rows) eqn:R; [|discriminate].
  injection H as <-. rewrite run_eq.
  set (N := map normalise rows). set (S := sort_values N).
  assert (Permutation N S) as P by apply sort_values_perm.
  assert (map normalise S = S) as ->.
  { rewrite <- (map_id S) at 2. apply map_ext_in. intros r Hr.
    apply (Permutation_in _ (Permutation_sym P)) in Hr.
    apply in_map_iff in Hr. destruct Hr as [r0 [<- _]]. reflexivity. }
  rewrite <- (forallb_perm in_range N S P). unfold N at 1.
  rewrite forallb_in_range_normalise, R. f_equal. symmetry.
  apply detect_perm; [exact P|]. intros A. now apply distinct_times.
Qed.

Lemma X8_second_call_same_anomalies_witness :
  let c := mkRow "0x1" 200 "FS" "CRE" "usr" "bob" "/tmp/a" "a.vlog" 7 in
  let d := mkRow "0x2" 100 "FS" "DEL" "usr" "bob" "/tmp/a" "a.vlog" 9 in
  returned (@custom_anomaly_detection stable_sorter 5
              (frame_after (@custom_anomaly_detection stable_sorter 0 (Frame [c; d]))))
  = Ok [anomaly_rule4 "bob" (normalise d)].
Proof.
  intros c d.
  apply (X8_second_call_same_anomalies stable_sorter 0 5 [c; d]).
  - reflexivity.
  - intros A. unfold group_rows. cbn [filter actor c d].
    destruct (String.eqb "bob" A); cbn [map timestamp].
    + repeat constructor; cbn; intuition discriminate.
    + constructor.
Defined.

(** X9.  The order of arrival does not matter: two frames with the same
    rows in any order give the same anomalies, or both raise, provided no
    actor has two events with the same timestamp. *)
Theorem X9_arrival_order_irrelevant (sorter : SortValues) (now now' : Z)
        (rows1 rows2 : list Row) :
  Permutation rows1 rows2 ->
  (forall A, NoDup (map timestamp (group_rows A rows1))) ->
  returned (custom_anomaly_detection now (Frame rows1))
  = returned (custom_anomaly_detection now' (Frame rows2)).
Proof.
  intros P Nd. rewrite !run_eq, (forallb_perm in_range rows1 rows2 P).
  destruct (forallb in_range rows2); [|reflexivity]. f_equal.
  apply detect_perm; [now apply Permutation_map|].
  intros A. now apply distinct_times.
Qed.

Lemma X9_arrival_order_irrelevant_witness :
  let c := mkRow "0x1" 100 "FS" "CRE" "usr" "bob" "/tmp/a" "a.vlog" 100 in
  let d := mkRow "0x2" 200 "FS" "DEL" "usr" "bob" "/tmp/a" "b.vlog" 200 in
  returned (@custom_anomaly_detection exchange_sorter 0 (Frame [c; d]))
  = returned (@custom_anomaly_detection exchange_sorter 0 (Frame [d; c])).
Proof.
  intros c d.
  apply (X9_arrival_order_irrelevant exchange_sorter 0 0 [c; d] [d; c]).
  - apply perm_swap.
  - intros A. unfold group_rows. cbn [filter actor c d].
    destruct (String.eqb "bob" A); cbn [map timestamp].
    + repeat constructor; cbn; intuition discriminate.
    + constructor.
Defined.

(** X10.  The anomalies of an actor depend on that actor's events only:
    two frames that hold the same events of actor [A], in any order and
    among any events of other actors, give the same anomalies for [A],
    provided [A] has no two events with the same timestamp. *)
Theorem X10_other_actors_irrelevant (sorter : SortValues) (now now' : Z)
        (rows1 rows2 : list Row) (anoms1 anoms2 : list Anomaly) (A : string) :
  returned (custom_anomaly_detection now (Frame rows1)) = Ok anoms1 ->
  returned (custom_anomaly_detection now' (Frame rows2)) = Ok anoms2 ->
  Permutation (group_rows A rows1) (group_rows A rows2) ->
  NoDup (map timestamp (group_rows A rows1)) ->
  filter (fun a => String.eqb (user a) A) anoms1
  = filter (fun a => String.eqb (user a) A) anoms2.
Proof.
  intros H1 H2 P Nd. rewrite run_eq in H1, H2.
  destruct (forallb in_range rows1); [|discriminate].
  destruct (forallb in_range rows2); [|discriminate].
  injection H1 as <-. injection H2 as <-.
  rewrite !actor_anomalies. f_equal. apply view_unique.
  - rewrite !group_rows_normalise. now apply Permutation_map.
  - now apply distinct_times.
Qed.

Lemma X10_other_actors_irrelevant_witness :
  let c := mkRow "0x1" 100 "FS" "CRE" "usr" "bob" "/tmp/a" "a.vlog" 100 in
  let d := mkRow "0x2" 200 "FS" "DEL" "usr" "bob" "/tmp/a" "b.vlog" 200 in
  let x := mkRow "0x3" 150 "FS" "DEL" "usr" "eve" "/tmp/a" "b.vlog" 150 in
  filter (fun a => String.eqb (user a) "bob")
         [anomaly_rule2 "bob" c d; anomaly_rule4 "bob" d]
  = filter (fun a => String.eqb (user a) "bob")
           [anomaly_rule2 "bob" c d; anomaly_rule4 "bob" d; anomaly_rule4 "eve" x].
Proof.
  intros c d x.
  apply (X10_other_actors_irrelevant stable_sorter 0 0 [c; d] [x; d; c] _ _ "bob").
  - reflexivity.
  - reflexivity.
  - apply perm_swap.
  - repeat constructor; cbn; intuition discriminate.
Defined.

(** ** The per-actor frames *)

(** X22.  In a run whose conversion succeeds, the frame the inner loop
    iterates over for an actor is in ascending order of timestamp, holds
    exactly that actor's rows of the input, each with its timestamp in the
    [datetime] column, and no row of another actor; this holds whatever
    algorithm sorts, and says nothing of the order among rows of equal
    timestamp. *)
Theorem X22_actor_view_sorted (sorter : SortValues) (rows rows' : list Row)
        (u : string) (logs : list Row) :
  assign_datetime rows = Ok rows' ->
  In (u, logs) (actor_views (sort_values rows')) ->
  StronglySorted by_timestamp logs
  /\ Permutation (map normalise (group_rows u rows)) logs
  /\ Forall (fun r => actor r = u) logs.
Proof.
  intros Ha H. apply assign_datetime_ok in Ha. subst rows'.
  apply in_actor_views in H. destruct H as [_ ->].
  pose proof (view_perm u rows) as Hp. split; [|split; [exact Hp|]].
  - apply sorted_by_timestamp; [|apply sort_values_sorted].
    apply (Permutation_Forall Hp). apply Forall_forall.
    intros r Hr. apply in_map_iff in Hr. destruct Hr as [r0 [<- _]]. reflexivity.
  - apply Forall_forall. intros r Hr. apply in_view in Hr.
    destruct Hr as [e [_ [He ->]]]. exact He.
Qed.

Lemma X22_actor_view_sorted_witness :
  let a := mkRow "0x1" 200 "FS" "RUN" "usr" "A" "/a" "a.vlog" 0 in
  let b := mkRow "0x2" 150 "FS" "RUN" "usr" "B" "/b" "b.vlog" 0 in
  let c := mkRow "0x3" 100 "FS" "RUN" "usr" "A" "/c" "a.vlog" 0 in
  let logs := [normalise c; normalise a] in
  StronglySorted by_timestamp logs
  /\ Permutation (map normalise (group_rows "A" [a; b; c])) logs
  /\ Forall (fun r => actor r = "A") logs.
Proof.
  intros a b c logs.
  apply (X22_actor_view_sorted stable_sorter [a; b; c]
           (map normalise [a; b; c]) "A" logs).
  - reflexivity.
  - left. reflexivity.
Defined.


(** ** The engine: what an anomaly stands for *)

Module CauseFacts.

Lemma contains_any_spec (subs : list string) (s : string) :
  contains_any subs s = true <-> exists b, In b subs /\ has_substring s b.
Proof.
  unfold contains_any, has_substring. rewrite existsb_exists.
  split; intros [b [Hb H]]; exists b; (split; [exact Hb|]);
    now apply contains_spec.
Qed.

Lemma has_substring_true (s sub : string) :
  contains sub s = true -> has_substring s sub.
Proof. intros H. now apply contains_spec in H. Qed.

(** Every anomaly of one actor's loop comes from a row [i] and, for rules 1
    and 2, a later row [j] of its window, for which the rule's condition
    holds. *)
Lemma detect_actor_cause (u : string) (logs : list Row) (a : Anomaly) :
  In a (detect_actor u logs) ->
  exists i j row rj,
    nth_error logs i = Some row /\ nth_error logs j = Some rj
    /\ i <= j <= i + 5 /\ user a = u /\ justified a row rj.
Proof.
  unfold detect_actor. rewrite in_flat_map. intros [i [_ Hi]].
  destruct (nth_error logs i) as [row|] eqn:Ei; [|contradiction].
  unfold detect_row in Hi. rewrite !in_app_iff in Hi.
  destruct Hi as [H|[H|[H|H]]].
  - unfold rule1 in H. destruct (contains "SHD" _) eqn:C1; [|contradiction].
    apply in_flat_map in H. destruct H as [j [Hw Hj]].
    apply in_window in Hw.
    destruct (nth_error logs j) as [rj|] eqn:Ej; [|contradiction].
    destruct (contains "DEL" _) eqn:C2; [|contradiction].
    destruct (within_600 _ _) eqn:C3; [|contradiction].
    destruct Hj as [<-|[]]. exists i, j, row, rj.
    repeat split; trivial; try lia. left. split; [reflexivity|].
    repeat split; try now apply has_substring_true.
    unfold within_600 in C3. now apply Z.leb_le.
  - unfold rule2 in H. destruct (contains "CRE" _) eqn:C1; [|contradiction].
    apply in_flat_map in H. destruct H as [j [Hw Hj]].
    apply in_window in Hw.
    destruct (nth_error logs j) as [rj|] eqn:Ej; [|contradiction].
    destruct (contains "DEL" _ && _) eqn:C2; [|contradiction].
    apply andb_true_iff in C2. destruct C2 as [C2 C3].
    destruct Hj as [<-|[]]. exists i, j, row, rj.
    repeat split; trivial; try lia. right; left. split; [reflexivity|].
    repeat split; now apply has_substring_true.
  - unfold rule3 in H. destruct (contains "RUN" _) eqn:C1; [|contradiction].
    destruct (contains_any _ _) eqn:C2; [|contradiction].
    destruct H as [<-|[]]. exists i, i, row, row.
    repeat split; trivial; try lia. right; right; left.
    repeat split; [now apply has_substring_true|].
    now apply contains_any_spec.
  - unfold rule4 in H. destruct (contains "DEL" _) eqn:C1; [|contradiction].
    destruct (deletes_suspicious _) eqn:C2; [|contradiction].
    destruct H as [<-|[]]. exists i, i, row, row.
    repeat split; trivial; try lia. right; right; right.
    repeat split; [now apply has_substring_true|].
    now apply deletes_suspicious_spec.
Qed.

(** In a list in ascending order, a later position holds a later or
    equal time. *)
Lemma sorted_nth (logs : list Row) (i j : nat) (row rj : Row) :
  StronglySorted by_datetime logs ->
  nth_error logs i = Some row -> nth_error logs j = Some rj -> i <= j ->
  by_datetime row rj.
Proof.
  intros S. revert i j. induction S as [|h t St IH Hh]; intros i j Hi Hj Hij.
  - destruct i; discriminate.
  - destruct i as [|i], j as [|j]; cbn [nth_error] in Hi, Hj; try lia.
    + injection Hi as <-. injection Hj as <-. unfold by_datetime. lia.
    + injection Hi as <-. apply nth_error_In in Hj.
      rewrite Forall_forall in Hh. now apply Hh.
    + apply (IH i j); trivial. lia.
Qed.

End CauseFacts.

Import CauseFacts.

(** X11.  No false alarm: every anomaly returned stands for two events of
    the input (one, for rules 3 and 4), both of the anomaly's user, that
    meet the condition of one of the four rules; and the event that
    completes the pattern is never earlier than the one that starts it. *)
Theorem X11_anomalies_are_justified (sorter : SortValues) (now : Z)
        (rows : list Row) (anoms : list Anomaly) (a : Anomaly) :
  returned (custom_anomaly_detection now (Frame rows)) = Ok anoms ->
  In a anoms ->
  exists ei ej,
    In ei rows /\ In ej rows /\ actor ei = user a /\ actor ej = user a
    /\ (timestamp ei <= timestamp ej)%N
    /\ justified a (normalise ei) (normalise ej).
Proof.
  intros H Ha. apply successful_run in H. subst anoms.
  apply in_flat_map in Ha. destruct Ha as [u [_ Ha]].
  apply detect_actor_cause in Ha.
  destruct Ha as (i & j & row & rj & Hi & Hj & Hij & Hu & Hjust).
  pose proof (sorted_nth _ i j row rj (sort_values_sorted _) Hi Hj (proj1 Hij)) as Ho.
  apply nth_error_In in Hi. apply nth_error_In in Hj.
  apply in_view in Hi. destruct Hi as [ei [Hei [Hai ->]]].
  apply in_view in Hj. destruct Hj as [ej [Hej [Haj ->]]].
  exists ei, ej. repeat split; trivial; try congruence.
  unfold by_datetime in Ho. cbn in Ho. lia.
Qed.

Lemma X11_anomalies_are_justified_witness :
  let c := mkRow "0x1" 100 "FS" "CRE" "usr" "bob" "/tmp/a" "a.vlog" 100 in
  let d := mkRow "0x2" 200 "FS" "DEL" "usr" "bob" "/tmp/a/b" "b.vlog" 200 in
  let a := anomaly_rule2 "bob" c d in
  exists ei ej,
    In ei [d; c] /\ In ej [d; c] /\ actor ei = user a /\ actor ej = user a
    /\ (timestamp ei <= timestamp ej)%N
    /\ justified a (normalise ei) (normalise ej).
Proof.
  intros c d a.
  apply (X11_anomalies_are_justified stable_sorter 0 [d; c]
           [anomaly_rule2 "bob" c d; anomaly_rule4 "bob" d] a).
  - reflexivity.
  - now left.
Defined.

(** What rule 3 appends while row [i] is under inspection. *)
Lemma at_rule3 (u : string) (logs : list Row) (i : nat) :
  filter (at_rule i R3) (fired_actor u logs)
  = match nth_error logs i with
    | Some row =>
        if contains "RUN" (action row)
           && contains_any suspicious_binaries (target row)
        then [mkFired i R3 i (anomaly_rule3 u row)] else []
    | None => []
    end.
Proof.
  rewrite (filter_fired_actor _ i) by (intros; now apply at_rule_trigger).
  destruct (nth_error logs i) as [row|]; [|reflexivity].
  unfold fired_row. rewrite !filter_app.
  rewrite (filter_other_tag _ i R1 (fired_rule1 u logs i row));
    [|intros; eapply at_rule_tagged; [eassumption | right; discriminate]
     |apply fired_rule1_tagged].
  rewrite (filter_other_tag _ i R2 (fired_rule2 u logs i row));
    [|intros; eapply at_rule_tagged; [eassumption | right; discriminate]
     |apply fired_rule2_tagged].
  rewrite (filter_other_tag _ i R4 (fired_rule4 u i row));
    [|intros; eapply at_rule_tagged; [eassumption | right; discriminate]
     |apply fired_rule4_tagged].
  cbn [app]. rewrite List.app_nil_r.
  unfold fired_rule3. destruct (contains "RUN" (action row)); cbn [andb]; trivial.
  destruct (contains_any _ _); trivial.
  cbn [filter]. unfold at_rule. cbn [trigger by_rule Rule_eqb].
  now rewrite Nat.eqb_refl.
Qed.

(** X12.  Rule 3 needs no other event.  In a run that returns, take the
    frame of one actor and a row [i] of it with RUN in its action.  The
    anomalies returned for the actor are those of the records of the loop
    over the frame; the loop has one record of rule 3 for row [i], of
    severity High, action type Execute and with the reason of rule 3,
    exactly when the target contains one of the four suspicious binaries,
    anywhere in it, and has none otherwise; in the first case the anomaly is
    among those returned.  Taken together, the anomalies with the reason of
    rule 3 returned for the actor are one for each row of the frame that has
    RUN in its action and such a target, in the order of the rows. *)
Theorem X12_rule3_immediate (sorter : SortValues) (now : Z)
        (rows rows' : list Row) (u : string) (logs : list Row) (i : nat)
        (row : Row) :
  assign_datetime rows = Ok rows' ->
  In (u, logs) (actor_views (sort_values rows')) ->
  nth_error logs i = Some row ->
  has_substring (action row) "RUN" ->
  let hit := exists b, In b ["/bin/xz"; "/bin/nc"; "/usr/bin/python3"; "/usr/bin/perl"]
                       /\ has_substring (target row) b in
  exists anoms,
    returned (custom_anomaly_detection now (Frame rows)) = Ok anoms
    /\ filter (fun a => String.eqb (user a) u) anoms
       = map emitted (fired_actor u logs)
    /\ (filter (at_rule i R3) (fired_actor u logs)
        = [mkFired i R3 i (anomaly_rule3 u row)] <-> hit)
    /\ (filter (at_rule i R3) (fired_actor u logs) = [] <-> ~ hit)
    /\ severity (anomaly_rule3 u row) = "High"
    /\ action_type (anomaly_rule3 u row) = "Execute"
    /\ reason (anomaly_rule3 u row) = "Suspicious binary executed"
    /\ (hit -> In (anomaly_rule3 u row) anoms)
    /\ filter (has_reason "Suspicious binary executed")
              (filter (fun a => String.eqb (user a) u) anoms)
       = map (anomaly_rule3 u)
             (filter (fun r => contains "RUN" (action r)
                               && contains_any suspicious_binaries (target r))
                     logs).
Proof.
  intros Ha Hv Hi Hrun hit.
  destruct (run_of_view now rows rows' u logs Ha Hv) as (Hret & Huser & Hin & _).
  exists (detect (sort_values rows')).
  split; [exact Hret|]. split; [exact Huser|].
  assert (filter (at_rule i R3) (fired_actor u logs)
          = if contains_any suspicious_binaries (target row)
            then [mkFired i R3 i (anomaly_rule3 u row)] else []) as E.
  { now rewrite at_rule3, Hi, (contains_true _ _ Hrun). }
  assert (filter (has_reason "Suspicious binary executed")
                 (filter (fun a => String.eqb (user a) u)
                         (detect (sort_values rows')))
          = map (anomaly_rule3 u)
                (filter (fun r => contains "RUN" (action r)
                                  && contains_any suspicious_binaries (target r))
                        logs)) as Hall.
  { rewrite Huser, emitted_fired_actor. apply rule3_anomalies. }
  pose proof (contains_any_spec suspicious_binaries (target row)) as Hs.
  fold hit in Hs.
  destruct (contains_any suspicious_binaries (target row)).
  - assert hit as Hyes by now apply Hs.
    repeat split; trivial.
    + rewrite E. discriminate.
    + tauto.
    + intros _. apply Hin. now apply (fired_in_output _ _ _ _ E).
  - assert (~ hit) as Hno by (intros H; apply Hs in H; discriminate).
    repeat split; trivial; try tauto.
    rewrite E. discriminate.
Qed.

Lemma X12_rule3_immediate_witness :
  let run := mkRow "0x2" 20 "FS" "RUN" "usr" "bob" "/bin/nc -l 4444" "a.vlog" 0 in
  let row := normalise run in
  let hit := exists b, In b ["/bin/xz"; "/bin/nc"; "/usr/bin/python3"; "/usr/bin/perl"]
                       /\ has_substring (target row) b in
  exists anoms,
    returned (@custom_anomaly_detection stable_sorter 0 (Frame [run])) = Ok anoms
    /\ filter (fun a => String.eqb (user a) "bob") anoms
       = map emitted (fired_actor "bob" [row])
    /\ (filter (at_rule 0 R3) (fired_actor "bob" [row])
        = [mkFired 0 R3 0 (anomaly_rule3 "bob" row)] <-> hit)
    /\ (filter (at_rule 0 R3) (fired_actor "bob" [row]) = [] <-> ~ hit)
    /\ severity (anomaly_rule3 "bob" row) = "High"
    /\ action_type (anomaly_rule3 "bob" row) = "Execute"
    /\ reason (anomaly_rule3 "bob" row) = "Suspicious binary executed"
    /\ (hit -> In (anomaly_rule3 "bob" row) anoms)
    /\ filter (has_reason "Suspicious binary executed")
              (filter (fun a => String.eqb (user a) "bob") anoms)
       = map (anomaly_rule3 "bob")
             (filter (fun r => contains "RUN" (action r)
                               && contains_any suspicious_binaries (target r))
                     [row]).
Proof.
  intros run row.
  apply (X12_rule3_immediate stable_sorter 0 [run] [row] "bob" [row] 0 row).
  - reflexivity.
  - left. reflexivity.
  - reflexivity.
  - now exists EmptyString, EmptyString.
Defined.

(** X13.  Rule 2 has no bound in time.  In a run that returns, take the
    frame of one actor, a row [i] of it with CRE in its action and a row
    [j] of its window.  The anomalies returned for the actor are those of
    the records of the loop over the frame; the loop has its record for the
    trigger [i] and the row [j], once, exactly when row [j] has DEL in its
    action and the created target occurs in its target, however far apart
    in time the two rows are, and has none otherwise; in the first case the
    anomaly is among those returned.  Taken together, the anomalies with the
    reason of rule 2 returned for the actor are, for each row with CRE in
    its action in turn, one for each of the next five rows that has DEL in
    its action and the created target in its target. *)
Theorem X13_rule2_no_time_bound (sorter : SortValues) (now : Z)
        (rows rows' : list Row) (u : string) (logs : list Row) (i j : nat)
        (row rj : Row) :
  assign_datetime rows = Ok rows' ->
  In (u, logs) (actor_views (sort_values rows')) ->
  nth_error logs i = Some row ->
  nth_error logs j = Some rj ->
  i + 1 <= j <= i + 5 ->
  has_substring (action row) "CRE" ->
  let met := has_substring (action rj) "DEL"
             /\ has_substring (target rj) (target row) in
  exists anoms,
    returned (custom_anomaly_detection now (Frame rows)) = Ok anoms
    /\ filter (fun a => String.eqb (user a) u) anoms
       = map emitted (fired_actor u logs)
    /\ (filter (keyed i R2 j) (fired_actor u logs)
        = [mkFired i R2 j (anomaly_rule2 u row rj)] <-> met)
    /\ (filter (keyed i R2 j) (fired_actor u logs) = [] <-> ~ met)
    /\ (met -> In (anomaly_rule2 u row rj) anoms)
    /\ filter (has_reason "Created then deleted same file")
              (filter (fun a => String.eqb (user a) u) anoms)
       = lookahead_anomalies
           (fun r => contains "CRE" (action r))
           (fun r r' => contains "DEL" (action r')
                        && contains (target r) (target r'))
           (anomaly_rule2 u) logs.
Proof.
  intros Ha Hv Hi Hj Hw Hcre met.
  destruct (run_of_view now rows rows' u logs Ha Hv) as (Hret & Huser & Hin & _).
  exists (detect (sort_values rows')).
  split; [exact Hret|]. split; [exact Huser|].
  assert (filter (keyed i R2 j) (fired_actor u logs)
          = if contains "DEL" (action rj) && contains (target row) (target rj)
            then [mkFired i R2 j (anomaly_rule2 u row rj)] else []) as E.
  { rewrite keyed_rule2, Hi, Hj, (contains_true _ _ Hcre).
    destruct (Nat.leb_spec (i + 1) j); [|lia].
    destruct (Nat.leb_spec j (i + 5)); [|lia]. reflexivity. }
  assert (filter (has_reason "Created then deleted same file")
                 (filter (fun a => String.eqb (user a) u)
                         (detect (sort_values rows')))
          = lookahead_anomalies
              (fun r => contains "CRE" (action r))
              (fun r r' => contains "DEL" (action r')
                           && contains (target r) (target r'))
              (anomaly_rule2 u) logs) as Hall.
  { rewrite Huser, emitted_fired_actor. apply rule2_anomalies. }
  pose proof (contains_spec "DEL" (action rj)) as S1.
  pose proof (contains_spec (target row) (target rj)) as S2.
  fold (has_substring (action rj) "DEL") in S1.
  fold (has_substring (target rj) (target row)) in S2.
  destruct (contains "DEL" (action rj) && contains (target row) (target rj)) eqn:B.
  - apply andb_true_iff in B.
    assert met as Hyes by (unfold met; tauto).
    split; [|split; [|split; [|exact Hall]]].
    + rewrite E. tauto.
    + rewrite E. split; [discriminate | tauto].
    + intros _. apply Hin. now apply (fired_in_output _ _ _ _ E).
  - apply andb_false_iff in B.
    assert (~ met) as Hno.
    { intros [H1 H2]. apply S1 in H1. apply S2 in H2.
      destruct B as [B|B]; congruence. }
    split; [|split; [|split; [|exact Hall]]].
    + rewrite E. split; [discriminate | tauto].
    + rewrite E. tauto.
    + tauto.
Qed.

Lemma X13_rule2_no_time_bound_witness :
  let cre := mkRow "0x1" 10 "FS" "CRE" "usr" "bob" "/tmp/a" "a.vlog" 0 in
  let del := mkRow "0x2" 900000 "FS" "DEL" "usr" "bob" "/tmp/a/b" "a.vlog" 0 in
  let row := normalise cre in
  let rj := normalise del in
  let met := has_substring (action rj) "DEL"
             /\ has_substring (target rj) (target row) in
  exists anoms,
    returned (@custom_anomaly_detection stable_sorter 0 (Frame [cre; del]))
    = Ok anoms
    /\ filter (fun a => String.eqb (user a) "bob") anoms
       = map emitted (fired_actor "bob" [row; rj])
    /\ (filter (keyed 0 R2 1) (fired_actor "bob" [row; rj])
        = [mkFired 0 R2 1 (anomaly_rule2 "bob" row rj)] <-> met)
    /\ (filter (keyed 0 R2 1) (fired_actor "bob" [row; rj]) = [] <-> ~ met)
    /\ (met -> In (anomaly_rule2 "bob" row rj) anoms)
    /\ filter (has_reason "Created then deleted same file")
              (filter (fun a => String.eqb (user a) "bob") anoms)
       = lookahead_anomalies
           (fun r => contains "CRE" (action r))
           (fun r r' => contains "DEL" (action r')
                        && contains (target r) (target r'))
           (anomaly_rule2 "bob") [row; rj].
Proof.
  intros cre del row rj.
  apply (X13_rule2_no_time_bound stable_sorter 0 [cre; del] [row; rj] "bob"
           [row; rj] 0 1 row rj); try reflexivity; try lia.
  - left. reflexivity.
  - now exists EmptyString, EmptyString.
Defined.

(** ** The engine: how much it returns *)

Module SizeFacts.

Lemma flat_map_at_most {A B : Type} (g : A -> list B) (c : nat) (l : list A) :
  (forall x, length (g x) <= c) -> length (flat_map g l) <= c * length l.
Proof.
  intros H. induction l as [|x l IH]; cbn [flat_map length]; [lia|].
  rewrite List.length_app. specialize (H x). lia.
Qed.

Lemma window_length (i : nat) (logs : list Row) : length (window i logs) <= 5.
Proof. unfold window. rewrite List.length_seq. lia. Qed.

Lemma rule1_length u logs i row : length (rule1 u logs i row) <= 5.
Proof.
  unfold rule1. destruct (contains _ _); [|cbn; lia].
  pose proof (window_length i logs).
  pose proof (flat_map_at_most
    (fun j => match nth_error logs j with
              | Some rj =>
                  if contains "DEL" (action rj)
                  then if within_600 (datetime row) (datetime rj)
                       then [anomaly_rule1 u row rj] else []
                  else []
              | None => []
              end) 1 (window i logs)) as B.
  cbn beta in B. rewrite Nat.mul_1_l in B. etransitivity; [apply B|assumption].
  intros j. destruct (nth_error logs j); [|cbn; lia].
  destruct (contains _ _); [|cbn; lia]. destruct (within_600 _ _); cbn; lia.
Qed.

Lemma rule2_length u logs i row : length (rule2 u logs i row) <= 5.
Proof.
  unfold rule2. destruct (contains _ _); [|cbn; lia].
  pose proof (window_length i logs).
  pose proof (flat_map_at_most
    (fun j => match nth_error logs j with
              | Some rj =>
                  if contains "DEL" (action rj)
                     && contains (target row) (target rj)
                  then [anomaly_rule2 u row rj] else []
              | None => []
              end) 1 (window i logs)) as B.
  cbn beta in B. rewrite Nat.mul_1_l in B. etransitivity; [apply B|assumption].
  intros j. destruct (nth_error logs j); [|cbn; lia].
  destruct (_ && _); cbn; lia.
Qed.

Lemma detect_row_length u logs i row : length (detect_row u logs i row) <= 12.
Proof.
  unfold detect_row. rewrite !List.length_app.
  pose proof (rule1_length u logs i row). pose proof (rule2_length u logs i row).
  assert (length (rule3 u row) <= 1).
  { unfold rule3. destruct (contains _ _); [|cbn; lia].
    destruct (contains_any _ _); cbn; lia. }
  assert (length (rule4 u row) <= 1).
  { unfold rule4. destruct (contains _ _); [|cbn; lia].
    destruct (deletes_suspicious _); cbn; lia. }
  lia.
Qed.

Lemma detect_actor_length u logs : length (detect_actor u logs) <= 12 * length logs.
Proof.
  unfold detect_actor.
  rewrite <- (List.length_seq (length logs) 0) at 2.
  apply flat_map_at_most. intros i.
  destruct (nth_error logs i); [apply detect_row_length | cbn; lia].
Qed.

Lemma groups_cons (r : Row) (rows : list Row) (keys : list string) :
  length (flat_map (fun u => group_rows u (r :: rows)) keys)
  = length (filter (fun u => String.eqb (actor r) u) keys)
    + length (flat_map (fun u => group_rows u rows) keys).
Proof.
  induction keys as [|k keys IH]; cbn [flat_map filter]; [reflexivity|].
  rewrite !List.length_app, IH. unfold group_rows at 1. cbn [filter].
  fold (group_rows k rows).
  destruct (String.eqb (actor r) k); cbn [length]; lia.
Qed.

Lemma one_key (k : string) (keys : list string) :
  NoDup keys -> In k keys ->
  length (filter (fun u => String.eqb k u) keys) = 1.
Proof.
  induction 1 as [|h t Hh Ht IH]; [intros []|]. cbn [filter].
  destruct (String.eqb_spec k h) as [->|Hne]; intros Hin.
  - cbn [length]. f_equal. rewrite filter_none; [reflexivity|].
    apply Forall_forall. intros x Hx. apply String.eqb_neq. congruence.
  - apply IH. destruct Hin; congruence.
Qed.

(** The groups of [groupby] share out the rows of the frame. *)
Lemma groups_total (rows : list Row) :
  length (flat_map (fun u => group_rows u rows) (group_keys rows)) = length rows.
Proof.
  pose proof (sorted_keys_NoDup _ (group_keys_sorted rows)) as Nd.
  assert (forall r, In r rows -> In (actor r) (group_keys rows)) as Cover
      by (intros r Hr; apply in_group_keys; eauto).
  revert Nd Cover. generalize (group_keys rows) as keys.
  induction rows as [|r rows IH]; intros keys Nd Cover.
  - induction keys as [|k keys IHk]; cbn; [reflexivity|].
    apply IHk; [now inversion Nd | intros r []].
  - rewrite groups_cons, one_key; trivial; [|apply Cover; now left].
    cbn [length]. rewrite IH; trivial.
    intros r' Hr'. apply Cover. now right.
Qed.

Lemma flat_map_bound {A B C : Type} (f : A -> list B) (g : A -> list C)
      (c : nat) (l : list A) :
  (forall x, length (f x) <= c * length (g x)) ->
  length (flat_map f l) <= c * length (flat_map g l).
Proof.
  intros H. induction l as [|x l IH]; cbn [flat_map length]; [lia|].
  rewrite !List.length_app. specialize (H x). lia.
Qed.

End SizeFacts.

Import SizeFacts.

(** X14.  The output is bounded by the input: a call returns at most twelve
    anomalies per event of the frame (five from each look-ahead rule and
    one from each immediate rule). *)
Theorem X14_at_most_twelve_per_event (sorter : SortValues) (now : Z)
        (rows : list Row) (anoms : list Anomaly) :
  returned (custom_anomaly_detection now (Frame rows)) = Ok anoms ->
  length anoms <= 12 * length rows.
Proof.
  intros H. apply successful_run in H. subst anoms.
  set (sorted := sort_values (map normalise rows)).
  assert (length rows = length sorted) as ->.
  { unfold sorted. rewrite <- (Permutation_length (sort_values_perm _)).
    now rewrite List.length_map. }
  rewrite <- (groups_total sorted).
  apply flat_map_bound. intros u.
  rewrite (Permutation_length (sort_values_perm (group_rows u sorted))).
  apply detect_actor_length.
Qed.

Lemma X14_at_most_twelve_per_event_witness :
  let d := mkRow "0x2" 100 "FS" "DEL" "usr" "bob" "/tmp/a" "a.vlog" 100 in
  length [anomaly_rule4 "bob" d] <= 12 * length [d].
Proof.
  intros d.
  apply (X14_at_most_twelve_per_event stable_sorter 0 [d] [anomaly_rule4 "bob" d]).
  reflexivity.
Defined.

(** ** The reports *)

Module ReportFacts.

Lemma in_unique (x : string) (l : list string) : In x (unique l) <-> In x l.
Proof.
  induction l as [|h t IH]; cbn [unique]; [tauto|].
  cbn [In]. rewrite filter_In, IH.
  destruct (String.eqb_spec x h) as [->|Hne]; cbn [negb].
  - intuition.
  - intuition congruence.
Qed.

Lemma unique_NoDup (l : list string) : NoDup (unique l).
Proof.
  induction l as [|h t IH]; cbn [unique]; constructor.
  - rewrite filter_In. intros [_ H]. now rewrite String.eqb_refl in H.
  - now apply NoDup_filter.
Qed.

(** A label kept by the timeline is as frequent among the labels as among
    the actions; a label it replaces is gone. *)
Lemma count_labels (cnt : string -> nat) (x : string) (l : list string) :
  x <> "COMMON" ->
  count_occ string_dec
            (map (fun y => if (cnt y <=? 3)%nat then y else "COMMON") l) x
  = if (cnt x <=? 3)%nat then count_occ string_dec l x else 0.
Proof.
  intros Hx. induction l as [|y l IH]; cbn [map count_occ].
  - now destruct (cnt x <=? 3)%nat.
  - rewrite IH. destruct (string_dec y x) as [->|Hne].
    + destruct (cnt x <=? 3)%nat.
      * now destruct (string_dec x x).
      * destruct (string_dec "COMMON" x); [congruence | reflexivity].
    + destruct (cnt y <=? 3)%nat.
      * destruct (string_dec y x); [contradiction | reflexivity].
      * destruct (string_dec "COMMON" x); [congruence | reflexivity].
Qed.

Lemma in_firstn {A : Type} (n : nat) (l : list A) (x : A) :
  In x (firstn n l) -> In x l.
Proof.
  revert l; induction n as [|n IH]; intros [|h t]; cbn [firstn In]; try tauto.
  intros [->|H]; [now left | right; now apply IH].
Qed.

Lemma reasons_fit (a : Anomaly) (row rj : Row) :
  built_from a row rj -> reason_text (reason a) = reason a.
Proof.
  intros [H|[H|[[_ H]|[_ H]]]]; rewrite H; reflexivity.
Qed.

End ReportFacts.

Import ReportFacts.

(** X16.  The timeline keeps a label for the rare actions only: in the
    column [action_type] every label other than [COMMON] stands at the rows
    it stood at in [action] and occurs at most three times; the column has
    one label per row.  On a frame without columns the function raises
    [KeyError] for [action]. *)
Theorem X16_timeline_labels (df : DataFrame) :
  match df with
  | NoColumns => action_type_column df = Raise (KeyError "action")
  | Frame rows =>
      exists labels,
        action_type_column df = Ok labels
        /\ length labels = length rows
        /\ forall x, x <> "COMMON" ->
             count_occ string_dec labels x <= 3
             /\ (count_occ string_dec labels x = 0
                 \/ count_occ string_dec labels x
                    = count_occ string_dec (map action rows) x)
  end.
Proof.
  destruct df as [|rows]; [reflexivity|].
  unfold action_type_column. cbn [column bind]. eexists. split; [reflexivity|].
  split; [now rewrite !List.length_map|].
  intros x Hx. unfold value_count.
  rewrite (count_labels (fun y => count_occ string_dec (map action rows) y) x _ Hx).
  destruct (Nat.leb_spec (count_occ string_dec (map action rows) x) 3);
    split; auto; lia.
Qed.

Lemma X16_timeline_labels_witness :
  let row := fun ac => mkRow "0x1" 100 "FS" ac "usr" "bob" "/tmp/a" "a.vlog" 100 in
  let rows := [row "DEL"; row "RUN"; row "RUN"; row "RUN"; row "RUN"] in
  exists labels,
    action_type_column (Frame rows) = Ok labels
    /\ length labels = length rows
    /\ count_occ string_dec labels "RUN" <= 3.
Proof.
  intros row rows.
  destruct (X16_timeline_labels (Frame rows)) as [labels [E [L H]]].
  exists labels. split; [exact E|]. split; [exact L|].
  apply (H "RUN"). discriminate.
Defined.

(** X17.  The users the summary and the PDF report list are the actors of
    the frame, each listed once; there are as many of them as groups the
    engine runs its rules on. *)
Theorem X17_unique_users (sorter : SortValues) (rows : list Row) :
  exists users,
    unique_users (Frame rows) = Ok users
    /\ NoDup users
    /\ (forall u, In u users <-> exists r, In r rows /\ actor r = u)
    /\ length users = length (actor_views (sort_values (map normalise rows))).
Proof.
  unfold unique_users. cbn [column bind]. eexists. split; [reflexivity|].
  split; [apply unique_NoDup|].
  assert (forall u, In u (unique (map actor rows))
                    <-> exists r, In r rows /\ actor r = u) as M.
  { intros u. rewrite in_unique, in_map_iff. split; intros [r [H1 H2]]; eauto. }
  split; [exact M|].
  unfold actor_views, groupby. rewrite !List.length_map.
  apply Permutation_length, NoDup_Permutation.
  - apply unique_NoDup.
  - apply sorted_keys_NoDup, group_keys_sorted.
  - intros u. rewrite M, in_group_keys. split.
    + intros [r [Hr Hu]]. exists (normalise r). split; [|exact Hu].
      apply (Permutation_in _ (sort_values_perm _)). now apply in_map.
    + intros [r [Hr Hu]].
      apply (Permutation_in _ (Permutation_sym (sort_values_perm _))) in Hr.
      apply in_map_iff in Hr. destruct Hr as [e [<- He]]. now exists e.
Qed.

(** X18.  The PDF table shows at most the first ten anomalies, and shows
    their reasons in full: no reason the engine writes is longer than the
    60 characters the report cuts at. *)
Theorem X18_pdf_reasons_in_full (sorter : SortValues) (now : Z)
        (rows : list Row) (anoms : list Anomaly) :
  returned (custom_anomaly_detection now (Frame rows)) = Ok anoms ->
  pdf_table anoms
  = map (fun a => [at_time a; user a; action_type a; severity a; reason a])
        (firstn 10 anoms)
  /\ length (pdf_table anoms) <= 10.
Proof.
  intros H. apply successful_run in H. split.
  - unfold pdf_table. apply map_ext_in. intros a Ha.
    apply in_firstn in Ha. rewrite H in Ha.
    apply in_flat_map in Ha. destruct Ha as [u [_ Ha]].
    apply detect_actor_built in Ha. destruct Ha as [_ [row [rj [_ [_ Hb]]]]].
    now rewrite (reasons_fit a row rj Hb).
  - unfold pdf_table. rewrite List.length_map. apply firstn_le_length.
Qed.

Lemma X18_pdf_reasons_in_full_witness :
  let d := mkRow "0x2" 100 "FS" "DEL" "usr" "bob" "/tmp/a" "a.vlog" 100 in
  let anoms := [anomaly_rule4 "bob" d] in
  pdf_table anoms
  = map (fun a => [at_time a; user a; action_type a; severity a; reason a])
        (firstn 10 anoms)
  /\ length (pdf_table anoms) <= 10.
Proof.
  intros d anoms.
  apply (X18_pdf_reasons_in_full stable_sorter 0 [d] anoms). reflexivity.
Defined.

(** ** The parser and the engine together *)

(** X19.  Run on what the parser returns, the engine raises [KeyError]
    exactly when no line of any [.vlog] file of the directory matches the
    pattern; on every other frame of the parser it returns anomalies or
    raises [OutOfBoundsDatetime]. *)
Theorem X19_key_error_iff_nothing_parsed (sorter : SortValues)
        (fromtimestamp : N -> result Z) (now : Z)
        (listing : list (string * list string)) (df : DataFrame) :
  parse_logs_from_directory fromtimestamp listing = Ok df ->
  ((exists column,
      returned (custom_anomaly_detection now df) = Raise (KeyError column))
   <-> (forall fname lines line,
          In (fname, lines) listing -> Str.endswith ".vlog" fname = true ->
          In line lines -> pattern_match (Str.strip line) = None))
  /\ ((exists anoms, returned (custom_anomaly_detection now df) = Ok anoms)
      \/ returned (custom_anomaly_detection now df) = Raise OutOfBoundsDatetime
      \/ returned (custom_anomaly_detection now df) = Raise (KeyError "timestamp")).
Proof.
  intros P.
  assert (df = NoColumns <->
          (forall fname lines line,
             In (fname, lines) listing -> Str.endswith ".vlog" fname = true ->
             In line lines -> pattern_match (Str.strip line) = None)) as Hn.
  { rewrite <- (no_columns_iff fromtimestamp listing), P.
    split; [now intros -> | now intros [= ->]]. }
  rewrite <- Hn. destruct df as [|rows].
  - split; [|right; right; reflexivity].
    split; [reflexivity | intros _; now exists "timestamp"].
  - rewrite run_eq. destruct (forallb in_range rows).
    + split; [|left; eauto]. split; [intros [c H]; discriminate | discriminate].
    + split; [|right; left; reflexivity].
      split; [intros [c H]; discriminate | discriminate].
Qed.

Lemma X19_key_error_iff_nothing_parsed_witness :
  exists column,
    returned (@custom_anomaly_detection stable_sorter 0 NoColumns)
    = Raise (KeyError column).
Proof.
  apply (proj2 (proj1 (X19_key_error_iff_nothing_parsed stable_sorter
                         (fun ts => Ok (Z.of_N ts)) 0
                         [("b.vlog", ["junk"])] NoColumns eq_refl))).
  intros fname lines line [[= <- <-]|[]] E [<-|[]]. reflexivity.
Defined.

(** ** Every suspicious execution and deletion is reported *)

Lemma at_rule_in_output (u : string) (logs : list Row) (i : nat) (r : Rule)
      (f : Fired) :
  filter (at_rule i r) (fired_actor u logs) = [f] ->
  In (emitted f) (detect_actor u logs).
Proof. apply fired_in_output. Qed.

Lemma in_view_of (sorter : SortValues) (rows : list Row) (e : Row) :
  In e rows ->
  In (normalise e)
     (sort_values (group_rows (actor e) (sort_values (map normalise rows)))).
Proof.
  intros He. apply (Permutation_in _ (view_perm (actor e) rows)).
  apply in_map. apply filter_In. split; [exact He | apply String.eqb_refl].
Qed.

(** X20.  The immediate rules miss nothing: every event of the frame whose
    action contains RUN and whose target contains a suspicious binary is
    reported by rule 3, and every event whose action contains DEL and whose
    target ends with a suspicious extension or contains a sensitive path is
    reported by rule 4, whatever else the frame holds. *)
Theorem X20_immediate_rules_complete (sorter : SortValues) (now : Z)
        (rows : list Row) (anoms : list Anomaly) (e : Row) :
  returned (custom_anomaly_detection now (Frame rows)) = Ok anoms ->
  In e rows ->
  (rule3_holds e -> In (anomaly_rule3 (actor e) (normalise e)) anoms)
  /\ (rule4_holds e -> In (anomaly_rule4 (actor e) (normalise e)) anoms).
Proof.
  intros H He. apply successful_run in H. subst anoms.
  pose proof (in_view_of sorter rows e He) as Hv.
  set (view := sort_values (group_rows (actor e) (sort_values (map normalise rows))))
    in *.
  assert (In (actor e) (group_keys (sort_values (map normalise rows)))) as Hk.
  { apply in_group_keys. exists (normalise e). split; [|reflexivity].
    apply (Permutation_in _ (sort_values_perm _)). now apply in_map. }
  destruct (In_nth_error _ _ Hv) as [i Hi].
  split.
  - intros [Hrun Hhit]. apply in_flat_map. exists (actor e). split; [exact Hk|].
    fold view.
    assert (filter (at_rule i R3) (fired_actor (actor e) view)
            = [mkFired i R3 i (anomaly_rule3 (actor e) (normalise e))]) as E.
    { rewrite at_rule3, Hi. cbn [action target normalise set_datetime].
      rewrite (contains_true _ _ Hrun).
      now rewrite (proj2 (contains_any_spec suspicious_binaries (target e)) Hhit). }
    exact (at_rule_in_output _ _ _ _ _ E).
  - intros [Hdel Hsus]. apply in_flat_map. exists (actor e). split; [exact Hk|].
    fold view.
    assert (filter (at_rule i R4) (fired_actor (actor e) view)
            = [mkFired i R4 i (anomaly_rule4 (actor e) (normalise e))]) as E.
    { rewrite at_rule4, Hi. cbn [action target normalise set_datetime].
      rewrite (contains_true _ _ Hdel).
      now rewrite (proj2 (deletes_suspicious_spec (target e)) Hsus). }
    exact (at_rule_in_output _ _ _ _ _ E).
Qed.

Lemma X20_immediate_rules_complete_witness :
  let x := mkRow "0x1" 100 "FS" "RUN" "usr" "bob" "/usr/bin/perl -e 1" "a.vlog" 0 in
  let d := mkRow "0x2" 50 "FS" "DEL" "usr" "eve" "/srv/tool.exe" "b.vlog" 0 in
  let anoms := [anomaly_rule3 "bob" (normalise x); anomaly_rule4 "eve" (normalise d)] in
  (rule3_holds x -> In (anomaly_rule3 (actor x) (normalise x)) anoms)
  /\ (rule4_holds x -> In (anomaly_rule4 (actor x) (normalise x)) anoms).
Proof.
  intros x d anoms.
  apply (X20_immediate_rules_complete stable_sorter 0 [x; d] anoms x).
  - reflexivity.
  - now left.
Defined.

(** ** The arrow without [=] *)

Module ArrowFacts.

Import Str Regex StrFacts RegexFacts ParserFacts.

Lemma backtrack_none {A : Type} (k lo : nat) (f : nat -> option A) :
  (forall m, m <= k -> f m = None) -> backtrack k lo f = None.
Proof.
  induction k as [|k IH]; intros H; cbn [backtrack].
  - destruct (0 <? lo)%nat; [reflexivity|]. now rewrite (H 0).
  - destruct (S k <? lo)%nat; [reflexivity|]. rewrite (H (S k)) by lia.
    apply IH. intros m Hm. apply H. lia.
Qed.

(** [backtrack] gives back characters until the rest of the pattern
    matches. *)
Lemma backtrack_at {A : Type} (k lo n : nat) (f : nat -> option A) (r : A) :
  lo <= n <= k -> f n = Some r ->
  (forall m, n < m <= k -> f m = None) ->
  backtrack k lo f = Some r.
Proof.
  induction k as [|k IH]; intros Hn Hf Hm.
  - assert (n = 0) as -> by lia. apply backtrack_first; [lia | exact Hf].
  - destruct (Nat.eq_dec n (S k)) as [->|Hne].
    + apply backtrack_first; [lia | exact Hf].
    + cbn [backtrack]. destruct (Nat.ltb_spec (S k) lo); [lia|].
      rewrite (Hm (S k)) by lia. apply IH; [lia | exact Hf|].
      intros m Hlt. apply Hm. lia.
Qed.

Lemma span_ge (cls : ascii -> bool) (x t : string) :
  all_chars cls x = true -> String.length x <= span cls (x ++ t)%string.
Proof.
  induction x as [|c x IH]; cbn [String.append all_chars String.length span];
    [lia|].
  intros H. apply andb_true_iff in H. destruct H as [-> Hx].
  specialize (IH Hx). lia.
Qed.

Lemma all_chars_drop (cls : ascii -> bool) (k : nat) (t : string) :
  all_chars cls t = true -> all_chars cls (drop k t) = true.
Proof.
  revert t; induction k as [|k IH]; intros [|c t]; cbn [drop all_chars]; trivial.
  intros H. apply andb_true_iff in H. now apply IH.
Qed.

Lemma drop_app_ge (x t : string) (m : nat) :
  String.length x <= m -> drop m (x ++ t)%string = drop (m - String.length x) t.
Proof.
  revert m; induction x as [|c x IH]; intros m Hm;
    cbn [String.append String.length].
  - now rewrite Nat.sub_0_r.
  - destruct m as [|m]; cbn [String.length] in Hm; [lia|].
    cbn [drop]. rewrite IH by lia. reflexivity.
Qed.

Lemma startswith_gt (t : string) :
  all_chars (is_not ">") t = true -> startswith ">" t = false.
Proof.
  destruct t as [|c t]; cbn [all_chars startswith]; [reflexivity|].
  intros H. apply andb_true_iff in H. destruct H as [Hc _].
  unfold is_not in Hc. apply negb_true_iff in Hc.
  rewrite Ascii.eqb_sym, Hc. reflexivity.
Qed.

(** Without a [>] ahead, the arrow cannot match. *)
Lemma exec_arrow_fails cls p st t :
  all_chars (is_not ">") t = true ->
  exec (Rep 0 cls :: Lit ">" :: p) st t = None.
Proof.
  intros H. cbn [exec]. apply backtrack_none. intros m _.
  now rewrite (startswith_gt _ (all_chars_drop _ m t H)).
Qed.

Lemma exec_rep_backtrack lo cls p st x t r :
  all_chars cls x = true -> lo <= String.length x ->
  exec p (feed x st) t = Some r ->
  (forall m, String.length x < m ->
             exec p (feed (take m (x ++ t)%string) st) (drop m (x ++ t)%string)
             = None) ->
  exec (Rep lo cls :: p) st (x ++ t)%string = Some r.
Proof.
  intros Hx Hlo Hok Hfail. cbn [exec].
  apply (backtrack_at _ _ (String.length x)).
  - split; [exact Hlo | now apply span_ge].
  - now rewrite take_app_length, drop_app_length.
  - intros m [Hm _]. now apply Hfail.
Qed.

(** A line whose arrow is a bare [>] matches too, when neither the actor
    nor the target holds a [>]: the actor's run, taken as far as it goes,
    is given back up to the arrow. *)
Lemma match_render_bare (h ts et ac aty a tg : string) :
  h <> EmptyString -> ts <> EmptyString -> et <> EmptyString ->
  ac <> EmptyString -> aty <> EmptyString -> a <> EmptyString ->
  tg <> EmptyString ->
  all_chars is_hex h = true -> all_chars is_digit ts = true ->
  all_chars (is_not "!") et = true -> all_chars (is_not "_") ac = true ->
  all_chars (is_not ":") aty = true -> all_chars (is_not "=") a = true ->
  all_chars (is_not ">") a = true ->
  all_chars (is_not newline) tg = true -> all_chars (is_not ">") tg = true ->
  pattern_match (render h ts et ac aty a EmptyString tg)
  = Some (groupdict h ts et ac aty a tg).
Proof.
  intros Nh Nts Net Nac Naty Na Ntg Ch Cts Cet Cac Caty Ca Ga Ctg Gtg.
  unfold pattern_match.
  enough (exec pattern no_captures (render h ts et ac aty a EmptyString tg)
          = Some (mkCaptures [] (groupdict h ts et ac aty a tg))) as ->
      by reflexivity.
  unfold pattern, render, no_captures.
  repeat first
    [ rewrite exec_open_eq; cbn [feed opened closed map fst snd]
    | rewrite exec_close_eq
    | rewrite exec_lit_app; cbn [feed opened closed map fst snd]
    | apply exec_rep_greedy;
      [ assumption
      | now apply nonempty_length
      | reflexivity
      | cbn [feed opened closed map fst snd] ] ].
  apply exec_rep_backtrack; [assumption | now apply nonempty_length | |].
  - unfold feed at 1. cbn [opened closed map fst snd]. rewrite exec_close_eq.
    apply exec_rep_greedy; [reflexivity | cbn; lia | reflexivity |].
    cbn [feed opened closed map fst snd].
    rewrite exec_lit_app. cbn [feed opened closed map fst snd].
    rewrite exec_open_eq. cbn [feed opened closed map fst snd].
    apply exec_rep_greedy_end; [assumption | now apply nonempty_length|].
    reflexivity.
  - intros m Hm. unfold feed at 1. cbn [opened closed map fst snd].
    rewrite exec_close_eq.
    apply exec_arrow_fails.
    rewrite drop_app_ge by lia. cbn [String.append].
    destruct (m - String.length a) as [|k] eqn:K; [lia|].
    cbn [drop]. now apply all_chars_drop.
Qed.

End ArrowFacts.

(** X21.  The arrow may be a bare [>]: a well-formed line of ASCII text
    (its timestamp of at most 4300 digits, the longest [int] converts) whose
    actor and target hold no [>] parses to its fields although the actor's
    pattern first runs on past the arrow; the target may then hold [=]. *)
Theorem X21_bare_arrow_parses (fromtimestamp : N -> result Z)
        (fname h ts et ac aty a tg ending : string) :
  ascii_only (render h ts et ac aty a EmptyString tg ++ ending)%string = true ->
  (String.length ts <= 4300)%nat ->
  h <> EmptyString -> ts <> EmptyString -> et <> EmptyString ->
  ac <> EmptyString -> aty <> EmptyString -> a <> EmptyString ->
  tg <> EmptyString ->
  all_chars is_hex h = true -> all_chars is_digit ts = true ->
  all_chars (is_not "!") et = true -> all_chars (is_not "_") ac = true ->
  all_chars (is_not ":") aty = true -> all_chars (is_not "=") a = true ->
  all_chars (is_not ">") a = true ->
  all_chars (is_not newline) tg = true -> all_chars (is_not ">") tg = true ->
  rstrip tg = tg ->
  all_chars is_space ending = true ->
  parse_line fromtimestamp fname
             (render h ts et ac aty a EmptyString tg ++ ending)%string
  = Some (dt <- fromtimestamp (int ts) ;;
          Ok (mkRow ("0x" ++ h)%string (int ts) et ac aty a tg fname dt)).
Proof.
  intros _ _ Nh Nts Net Nac Naty Na Ntg Ch Cts Cet Cac Caty Ca Ga Ctg Gtg Rtg We.
  unfold parse_line. rewrite strip_app_spaces by assumption.
  assert (strip (render h ts et ac aty a EmptyString tg)
          = render h ts et ac aty a EmptyString tg) as ->.
  { unfold strip.
    assert (lstrip (render h ts et ac aty a EmptyString tg)
            = render h ts et ac aty a EmptyString tg) as -> by reflexivity.
    unfold render. rewrite <- !append_assoc. now apply rstrip_keeps. }
  rewrite ArrowFacts.match_render_bare by assumption. reflexivity.
Qed.

Lemma X21_bare_arrow_parses_witness :
  parse_line (fun ts => Ok (Z.of_N ts)) "auth.vlog"
             (render "1A" "100" "FS" "DEL" "usr" "bob" EmptyString "/tmp/a=b"
              ++ newline_text)%string
  = Some (dt <- Ok (Z.of_N (int "100")) ;;
          Ok (mkRow "0x1A" (int "100") "FS" "DEL" "usr" "bob" "/tmp/a=b"
                    "auth.vlog" dt)).
Proof.
  apply (X21_bare_arrow_parses (fun ts => Ok (Z.of_N ts)) "auth.vlog"
           "1A" "100" "FS" "DEL" "usr" "bob" "/tmp/a=b" newline_text);
    first [discriminate | reflexivity | cbn; lia].
Defined.
